(** * Elemental SVG: icon pipeline and publisher

    A shallow embedding of [scripts/process-icons.js] (library adapters,
    categorizer, manifest builder) and [scripts/upload-icons.js]
    (publisher), with the properties the specification states about them.

    Conventions.
    - A JavaScript string is a Stdlib [string]; its characters stand for
      code units below 256.  [includes], [startsWith], [endsWith] and the
      replacements are code-unit-wise, so they read the same on any
      alphabet; [toLowerCase], [trim] and the classes [\s] and [\w] are
      given on that range.
    - An object literal used as a table is an association list in
      declaration order (the order [Object.entries] follows); a bracket
      lookup also sees the members every plain object inherits from
      [Object.prototype].
    - An object filled at run time from a metadata file has, besides
      its own properties, the prototype that an assignment of an entry
      to [__proto__] gives it.
    - Code that can throw returns a [completion]; adapters run in a small
      monad that reads the file system the run started on and logs what
      the run does to it: the directories made and the files written.
      A directory is made unless a file stands in its way, and a file is
      written when its directory exists and no directory has its name;
      permissions and disk space are taken for granted.
    - Paths are relative to the project directory and in the normal form
      [path.join] gives them (POSIX).
    - Every read of an adapter comes before the first write that could
      reach its path: the adapters before IconPark write below
      build/icons only, under names taken from directory listings, and
      IconPark, the last one, reads its metadata before it writes.  So a
      read sees the file system the run started on.
    - [console.log] output is not modelled. *)

From Stdlib Require Import Bool Arith Lia List String Ascii Permutation Sorted.
Import ListNotations.
Open Scope string_scope.
Open Scope list_scope.

(** ** JavaScript strings *)

Module JsString.

Definition newline : string := String (ascii_of_nat 10) "".

Fixpoint drop (n : nat) (s : string) : string :=
  match n, s with
  | O, _ => s
  | S _, "" => ""
  | S k, String _ s' => drop k s'
  end.

(** [s.startsWith(p)] *)
Definition startsWith (s p : string) : bool := prefix p s.

(** [s.includes(p)] *)
Fixpoint includes (s p : string) : bool :=
  if prefix p s then true
  else match s with
       | "" => false
       | String _ s' => includes s' p
       end.

(** [s.endsWith(p)] *)
Fixpoint endsWith (s p : string) : bool :=
  if String.eqb s p then true
  else match s with
       | "" => false
       | String _ s' => endsWith s' p
       end.

(** [s.indexOf(p)], [None] for -1 *)
Fixpoint indexOf (s p : string) : option nat :=
  if prefix p s then Some 0
  else match s with
       | "" => None
       | String _ s' => option_map S (indexOf s' p)
       end.

(** [s.replace(p, r)] with a string pattern: the first occurrence only. *)
Fixpoint replaceFirst (p r s : string) : string :=
  if prefix p s then r ++ drop (String.length p) s
  else match s with
       | "" => ""
       | String c s' => String c (replaceFirst p r s')
       end.

(** [s.replace(/p$/, '')] for a literal non-empty [p]: the pattern is
    anchored at the end of the input, so at most one occurrence goes. *)
Fixpoint stripSuffix (p s : string) : string :=
  if String.eqb s p then ""
  else match s with
       | "" => ""
       | String c s' => String c (stripSuffix p s')
       end.

(** [s.replace(/a/g, b)] for single characters [a] and [b]. *)
Fixpoint replaceChar (a b : ascii) (s : string) : string :=
  match s with
  | "" => ""
  | String c s' => String (if Ascii.eqb c a then b else c) (replaceChar a b s')
  end.

Definition is_upper (c : ascii) : bool :=
  let n := nat_of_ascii c in ((65 <=? n) && (n <=? 90))%nat.
Definition is_lower (c : ascii) : bool :=
  let n := nat_of_ascii c in ((97 <=? n) && (n <=? 122))%nat.
Definition is_digit (c : ascii) : bool :=
  let n := nat_of_ascii c in ((48 <=? n) && (n <=? 57))%nat.

(** the class [\w] *)
Definition is_word (c : ascii) : bool :=
  is_upper c || is_lower c || is_digit c || Ascii.eqb c "_"%char.

(** capital letters of the Latin-1 range, U+00C0 to U+00DE without the
    multiplication sign *)
Definition is_upper_latin1 (c : ascii) : bool :=
  let n := nat_of_ascii c in
  ((192 <=? n) && (n <=? 222) && negb (n =? 215))%nat.

Definition lower_char (c : ascii) : ascii :=
  if is_upper c || is_upper_latin1 c then ascii_of_nat (nat_of_ascii c + 32)
  else c.
Definition upper_char (c : ascii) : ascii :=
  if is_lower c then ascii_of_nat (nat_of_ascii c - 32) else c.

Fixpoint toLowerCase (s : string) : string :=
  match s with
  | "" => ""
  | String c s' => String (lower_char c) (toLowerCase s')
  end.

(** white space and line terminators, as [trim] sees them *)
Definition is_space (c : ascii) : bool :=
  let n := nat_of_ascii c in
  (((9 <=? n) && (n <=? 13)) || (n =? 32) || (n =? 160))%nat.

Fixpoint trimStart (s : string) : string :=
  match s with
  | "" => ""
  | String c s' => if is_space c then trimStart s' else s
  end.

Fixpoint trimEnd (s : string) : string :=
  match s with
  | "" => ""
  | String c s' =>
      match trimEnd s' with
      | "" => if is_space c then "" else String c ""
      | t => String c t
      end
  end.

(** [s.trim()] *)
Definition trim (s : string) : string := trimEnd (trimStart s).

End JsString.
Import JsString.

(** ** Paths, as [path.join] and the file system take them (POSIX) *)

Module NodePath.

(** the segments of a path, which slashes separate *)
Fixpoint segments (p : string) : list string :=
  match p with
  | "" => [""]
  | String c p' =>
      if Ascii.eqb c "/" then "" :: segments p'
      else match segments p' with
           | seg :: rest => String c seg :: rest
           | [] => [String c ""]
           end
  end.

Fixpoint join_segments (segs : list string) : string :=
  match segs with
  | [] => ""
  | [seg] => seg
  | seg :: rest => seg ++ "/" ++ join_segments rest
  end.

(** [path.normalize] on the segments of a relative path: an empty
    segment and "." go, ".." takes away the segment before it, and stays
    when there is none.  [above] holds the segments kept so far, the
    last one first. *)
Fixpoint resolve (segs above : list string) : list string :=
  match segs with
  | [] => rev above
  | seg :: rest =>
      if String.eqb seg "" || String.eqb seg "." then resolve rest above
      else if String.eqb seg ".." then
        match above with
        | top :: below =>
            if String.eqb top ".." then resolve rest (seg :: above)
            else resolve rest below
        | [] => resolve rest [seg]
        end
      else resolve rest (seg :: above)
  end.

Definition normalize (p : string) : string :=
  match resolve (segments p) [] with
  | [] => "."
  | segs => join_segments segs
  end.

(** [path.join(dir, entry)]; no argument the program passes ends in a
    slash, which [path.join] would keep. *)
Definition path_join (dir entry : string) : string :=
  normalize (dir ++ "/" ++ entry).

(** the directory a path lies in *)
Definition dirname (p : string) : string :=
  match removelast (segments p) with
  | [] => "."
  | segs => join_segments segs
  end.

Fixpoint paths_down (above : string) (segs : list string) : list string :=
  match segs with
  | [] => []
  | seg :: rest =>
      let here := if String.eqb above "" then seg
                  else (above ++ "/" ++ seg)%string in
      here :: paths_down here rest
  end.

(** the directories on the way to [p], and [p] itself *)
Definition ancestors (p : string) : list string := paths_down "" (segments p).

(** The project directory and the directories above it: they exist. *)
Definition is_above (p : string) : bool :=
  String.eqb p "." || forallb (String.eqb "..") (segments p).

End NodePath.
Import NodePath.

(** ** JavaScript objects used as tables *)

(** How a statement or call ends. *)
Inductive completion (A : Type) : Type :=
| Normal (a : A)
| Throws (err : string).
Arguments Normal {A} a.
Arguments Throws {A} err.

(** The members a plain object inherits: eleven functions and the
    [__proto__] accessor, which yields [Object.prototype] itself.  Each
    of them is a truthy value that is not a string. *)
Definition object_prototype_keys : list string :=
  [ "constructor"; "__defineGetter__"; "__defineSetter__"; "hasOwnProperty";
    "__lookupGetter__"; "__lookupSetter__"; "isPrototypeOf";
    "propertyIsEnumerable"; "toString"; "valueOf"; "__proto__";
    "toLocaleString" ].

Definition is_prototype_key (k : string) : bool :=
  existsb (String.eqb k) object_prototype_keys.

(** The result of [obj[k]]. *)
Inductive lookup (V : Type) : Type :=
| Own (v : V)
| Inherited (key : string)
| Undefined.
Arguments Own {V} v.
Arguments Inherited {V} key.
Arguments Undefined {V}.

Fixpoint own_get {V : Type} (o : list (string * V)) (k : string) : option V :=
  match o with
  | [] => None
  | (k', v) :: rest => if String.eqb k' k then Some v else own_get rest k
  end.

Definition obj_get {V : Type} (o : list (string * V)) (k : string) : lookup V :=
  match own_get o k with
  | Some v => Own v
  | None => if is_prototype_key k then Inherited k else Undefined
  end.

(** [obj[k] = v] on an object built at run time whose values are
    strings.  Assigning a string to [__proto__] does nothing. *)
Fixpoint own_set {V : Type} (o : list (string * V)) (k : string) (v : V)
  : list (string * V) :=
  match o with
  | [] => [(k, v)]
  | (k', v') :: rest =>
      if String.eqb k' k then (k', v) :: rest else (k', v') :: own_set rest k v
  end.

Definition obj_set {V : Type} (o : list (string * V)) (k : string) (v : V)
  : list (string * V) :=
  if String.eqb k "__proto__" then o else own_set o k v.

(** A value that is a string in the intended runs: a string, or a member
    inherited from [Object.prototype]. *)
Inductive jsval : Type :=
| VStr (s : string)
| VInherited (key : string).

(** The [tags] argument and field: [null]/[undefined], an array of strings,
    or an inherited member (truthy, not iterable). *)
Inductive jstags : Type :=
| TagsNullish
| TagsArray (l : list string)
| TagsInherited (key : string).

(** An object built at run time whose values are objects, the entries
    of a metadata file.  [table[k] = entry] creates or replaces an own
    property, except under the key [__proto__]: that assignment makes
    the entry the prototype of the table. *)
Record table (E : Type) : Type :=
  { own_entries : list (string * E); prototype : option E }.
Arguments own_entries {E} t.
Arguments prototype {E} t.

Definition empty_table {E : Type} : table E :=
  {| own_entries := []; prototype := None |}.

Definition table_set {E : Type} (t : table E) (k : string) (e : E) : table E :=
  if String.eqb k "__proto__"
  then {| own_entries := own_entries t; prototype := Some e |}
  else {| own_entries := own_set (own_entries t) k e; prototype := prototype t |}.

(** The result of [table[k]]: an entry, another truthy value (a member
    inherited from [Object.prototype], or a truthy property of the entry
    that is the prototype), or a falsy value, [undefined] among them. *)
Inductive found (E : Type) : Type :=
| Entry (e : E)
| OtherValue
| Nothing.
Arguments Entry {E} e.
Arguments OtherValue {E}.
Arguments Nothing {E}.

(** [property e k] tells whether the entry [e] has a property [k] of its
    own, and whether its value is truthy.  The lookup goes from the own
    properties of the table to its prototype: the entry assigned to
    [__proto__], which the key [__proto__] itself yields, and behind it
    [Object.prototype]. *)
Definition table_get {E : Type} (property : E -> string -> option bool)
  (t : table E) (k : string) : found E :=
  match own_get (own_entries t) k with
  | Some e => Entry e
  | None =>
      match prototype t with
      | Some p =>
          if String.eqb k "__proto__" then Entry p
          else match property p k with
               | Some true => OtherValue
               | Some false => Nothing
               | None => if is_prototype_key k then OtherValue else Nothing
               end
      | None => if is_prototype_key k then OtherValue else Nothing
      end
  end.

Module ProcessIcons.

(** ** Categories *)

Record CategoryDef : Type := { cat_id : string; cat_label : string }.

Definition CATEGORIES : list CategoryDef :=
  [ {| cat_id := "arrows"; cat_label := "Arrows & Chevrons" |}
  ; {| cat_id := "navigation"; cat_label := "Navigation & Layout" |}
  ; {| cat_id := "datetime"; cat_label := "Date & Time" |}
  ; {| cat_id := "files"; cat_label := "Files & Folders" |}
  ; {| cat_id := "communication"; cat_label := "Communication" |}
  ; {| cat_id := "media"; cat_label := "Media & Audio" |}
  ; {| cat_id := "people"; cat_label := "People & Users" |}
  ; {| cat_id := "commerce"; cat_label := "Commerce & Finance" |}
  ; {| cat_id := "security"; cat_label := "Security & Privacy" |}
  ; {| cat_id := "controls"; cat_label := "Settings & Controls" |}
  ; {| cat_id := "infrastructure"; cat_label := "Infrastructure & Data" |}
  ; {| cat_id := "actions"; cat_label := "Actions & Favorites" |}
  ; {| cat_id := "notifications"; cat_label := "Notifications & Alerts" |}
  ; {| cat_id := "location"; cat_label := "Location & Maps" |}
  ; {| cat_id := "visual"; cat_label := "Images & Video" |}
  ; {| cat_id := "development"; cat_label := "Development & Code" |}
  ; {| cat_id := "weather"; cat_label := "Weather & Nature" |}
  ; {| cat_id := "shapes"; cat_label := "Shapes & Symbols" |}
  ; {| cat_id := "text"; cat_label := "Text & Typography" |}
  ; {| cat_id := "misc"; cat_label := "Miscellaneous" |} ].

Definition CATEGORY_KEYWORDS : list (string * list string) :=
  [
    ("arrows",
      ["arrow"; "chevron"; "caret"; "move-"; "corner-"; "maximize";
       "minimize"; "expand"; "shrink"; "fold"; "unfold"; "between";
       "iterate"; "repeat"; "undo"; "redo"; "rotate"; "flip"; "refresh";
       "replace"; "swap"; "merge"; "split"; "return"; "forward";
       "backward"]);
    ("navigation",
      ["home"; "house"; "menu"; "sidebar"; "layout"; "grid"; "list";
       "panel"; "columns"; "rows"; "table"; "kanban"; "dock";
       "app-window"; "panel"; "navigation"; "breadcrumb"; "pagination";
       "tab"; "gallery"; "scroll"; "separator"; "grip"; "between-";
       "ellipsis"; "more-horizontal"; "more-vertical"; "anchor";
       "loader"; "layers"; "form-input"]);
    ("datetime",
      ["calendar"; "clock"; "timer"; "watch"; "hourglass"; "alarm";
       "schedule"; "stopwatch"; "history"; "time"]);
    ("files",
      ["file"; "folder"; "document"; "copy"; "clipboard"; "paste";
       "notebook"; "book"; "archive"; "package"; "box"; "save";
       "download"; "upload"; "import"; "export"; "attachment"]);
    ("communication",
      ["mail"; "message"; "phone"; "chat"; "send"; "inbox"; "contact";
       "at-sign"; "reply"; "voicemail"; "satellite"; "radio"; "rss";
       "share"; "megaphone"; "speech"; "conversation"; "comment"]);
    ("media",
      ["play"; "pause"; "stop"; "volume"; "music"; "mic"; "headphone";
       "speaker"; "audio"; "podcast"; "disc"; "vinyl"; "guitar"; "drum";
       "piano"; "amp"; "equalizer"; "fast-forward"; "rewind"; "skip";
       "shuffle"; "repeat"; "cassette"; "gamepad"; "joystick"; "chess"]);
    ("people",
      ["user"; "users"; "person"; "baby"; "accessibility"; "hand";
       "thumbs"; "brain"; "head"; "footprints"; "figure"; "body";
       "bone"; "ear"; "eye-"; "glasses"; "smile"; "frown"; "meh";
       "angry"; "annoyed"; "laugh"; "drama"]);
    ("commerce",
      ["cart"; "bag"; "credit-card"; "dollar"; "wallet"; "receipt";
       "banknote"; "coin"; "currency"; "bitcoin"; "store"; "shop";
       "tag"; "barcode"; "price"; "percent"; "badge-"; "ticket"; "gift";
       "piggy"; "landmark"; "building"; "calculator"; "tally"; "scale";
       "school"]);
    ("security",
      ["lock"; "key"; "shield"; "scan"; "fingerprint"; "guard";
       "keyhole"; "unlock"; "vault"]);
    ("controls",
      ["settings"; "sliders"; "toggle"; "tool"; "wrench"; "hammer";
       "screwdriver"; "nut"; "bolt"; "cog"; "gear"; "filter"; "sort";
       "adjust"; "configure"; "switch"; "power"; "plug"; "socket";
       "cable"; "usb"; "bluetooth"; "wifi"; "nfc"; "signal"; "antenna";
       "gauge"; "touchpad"; "fan"]);
    ("infrastructure",
      ["cloud"; "database"; "server"; "hard-drive"; "cpu"; "memory";
       "network"; "container"; "blocks"; "workflow"; "circuit";
       "binary"; "ethernet"; "router"; "monitor"; "screen"; "laptop";
       "tablet"; "smartphone"; "desktop"; "printer"; "keyboard";
       "mouse"; "computer"; "display"; "chart"; "bar-chart";
       "line-chart"; "area-chart"; "pie-chart"; "gantt-chart";
       "scatter-chart"; "candlestick-chart"; "trending"; "tv"]);
    ("actions",
      ["heart"; "star"; "bookmark"; "thumb"; "flag"; "pin"; "like";
       "check"; "plus"; "minus"; "x"; "close"; "delete"; "trash";
       "remove"; "add"; "create"; "edit"; "pencil"; "pen"; "eraser";
       "scissors"; "crop"; "cut"; "zap"; "sparkle"; "wand"; "magic";
       "search"; "zoom"; "eye"; "lightbulb"; "lasso"; "link"; "rocket";
       "verified"; "medal"; "ribbon"; "inspect"; "grab"; "crosshair";
       "cross"]);
    ("notifications",
      ["alert"; "bell"; "info"; "warning"; "siren"; "megaphone";
       "help-circle"; "badge"; "notification"; "announce";
       "circle-alert"; "triangle-alert"; "octagon-alert"]);
    ("location",
      ["map"; "pin"; "globe"; "compass"; "navigation"; "route";
       "locate"; "gps"; "waypoint"; "milestone"; "sign-post";
       "signpost"; "mountain"; "tent"; "tree"; "flower"; "leaf";
       "train"; "bus"; "car"; "plane"; "bike"; "motorbike"; "scooter";
       "tractor"; "tram"; "ship"; "sail"; "rail"; "fuel"; "parking";
       "ferry"; "truck"]);
    ("visual",
      ["image"; "camera"; "video"; "film"; "photo"; "picture";
       "aperture"; "focus"; "frame"; "gallery"; "canvas"; "projector";
       "presentation"; "screenshot"; "paintbrush"; "paint"; "palette";
       "spray-can"; "sticker"; "drone"; "feather"]);
    ("development",
      ["code"; "terminal"; "git"; "bug"; "bracket"; "braces"; "regex";
       "variable"; "function"; "webhook"; "api"; "component"; "puzzle";
       "block"; "atom"; "test-tube"]);
    ("weather",
      ["sun"; "moon"; "cloud-rain"; "cloud-snow"; "cloud-lightning";
       "cloud-drizzle"; "cloud-hail"; "cloud-fog"; "wind"; "rainbow";
       "snowflake"; "thermometer"; "umbrella"; "tornado"; "sunrise";
       "sunset"; "eclipse"; "droplet"; "wave"; "flame"; "fire"; "haze";
       "shrub"]);
    ("shapes",
      ["circle"; "square"; "triangle"; "hexagon"; "octagon"; "pentagon";
       "diamond"; "rectangle"; "oval"; "cylinder"; "cone"; "cube";
       "pyramid"; "sphere"; "torus"; "shape"; "infinity"; "sigma";
       "slash"; "scaling"; "origami"]);
    ("text",
      ["type"; "text"; "bold"; "italic"; "font"; "underline";
       "strikethrough"; "heading"; "paragraph"; "quote"; "list";
       "indent"; "align-"; "subscript"; "superscript"; "case"; "spell";
       "whole-word"; "pilcrow"; "baseline"; "wrap"; "a-arrow";
       "a-large"; "remove-formatting"; "languages"; "subtitles";
       "outdent"])
  ].

Definition NAME_OVERRIDES : list (string * string) :=
  [ ("cloud-download", "infrastructure"); ("cloud-upload", "infrastructure");
    ("cloud-off", "infrastructure"); ("cloud-cog", "infrastructure");
    ("eye", "actions"); ("eye-off", "actions"); ("scan-face", "security");
    ("scan-line", "security"); ("scan-barcode", "commerce");
    ("scan-text", "text"); ("scan-search", "actions");
    ("scan-eye", "security"); ("navigation", "location");
    ("navigation-2", "location"); ("navigation-off", "location");
    ("share", "communication"); ("share-2", "communication");
    ("pin", "location"); ("pin-off", "location");
    ("monitor", "infrastructure"); ("monitor-check", "infrastructure");
    ("monitor-dot", "infrastructure"); ("monitor-down", "infrastructure");
    ("monitor-off", "infrastructure"); ("monitor-pause", "infrastructure");
    ("monitor-play", "infrastructure");
    ("monitor-smartphone", "infrastructure");
    ("monitor-speaker", "infrastructure");
    ("monitor-stop", "infrastructure"); ("monitor-up", "infrastructure");
    ("monitor-x", "infrastructure"); ("cloud", "infrastructure");
    ("box", "files"); ("boxes", "files"); ("flag", "actions");
    ("flag-off", "actions"); ("flag-triangle-left", "actions");
    ("flag-triangle-right", "actions") ].

Definition TABLER_CATEGORY_MAP : list (string * string) :=
  [ ("Animals", "misc"); ("Arrows", "arrows"); ("Badges", "actions");
    ("Brand", "misc"); ("Buildings", "commerce");
    ("Charts", "infrastructure"); ("Communication", "communication");
    ("Computers", "infrastructure"); ("Currencies", "commerce");
    ("Database", "infrastructure"); ("Design", "visual");
    ("Development", "development"); ("Devices", "infrastructure");
    ("Document", "files"); ("E-commerce", "commerce");
    ("Electrical", "controls"); ("Extensions", "development");
    ("Food", "misc"); ("Games", "misc"); ("Gender", "people");
    ("Gestures", "people"); ("Health", "people"); ("Laundry", "misc");
    ("Letters", "text"); ("Logic", "development"); ("Map", "location");
    ("Math", "shapes"); ("Media", "media"); ("Mood", "people");
    ("Nature", "weather"); ("Numbers", "text"); ("Photography", "visual");
    ("Shapes", "shapes"); ("Sport", "misc"); ("Symbols", "shapes");
    ("System", "controls"); ("Text", "text"); ("Vehicles", "location");
    ("Version control", "development"); ("Weather", "weather");
    ("Zodiac", "misc") ].

Definition PHOSPHOR_CATEGORY_MAP : list (string * string) :=
  [ ("arrows", "arrows"); ("brands", "misc"); ("commerce", "commerce");
    ("communications", "communication"); ("design", "visual");
    ("editor", "text"); ("finances", "commerce"); ("games", "misc");
    ("health & wellness", "people"); ("maps & travel", "location");
    ("media", "media"); ("nature", "weather"); ("objects", "misc");
    ("office", "files"); ("people", "people"); ("system", "controls");
    ("technology & development", "development"); ("weather", "weather") ].

Definition REMIX_CATEGORY_MAP : list (string * string) :=
  [ ("Arrows", "arrows"); ("Buildings", "commerce");
    ("Business", "commerce"); ("Communication", "communication");
    ("Design", "visual"); ("Development", "development");
    ("Device", "infrastructure"); ("Document", "files"); ("Editor", "text");
    ("Finance", "commerce"); ("Food", "misc"); ("Game & Sports", "misc");
    ("Health & Medical", "people"); ("Logos", "misc"); ("Map", "location");
    ("Media", "media"); ("Others", "misc"); ("System", "controls");
    ("User & Faces", "people"); ("Weather", "weather") ].

Definition MDI_CATEGORY_MAP : list (string * string) :=
  [ ("Account / User", "people"); ("Agriculture", "misc");
    ("Alert / Error", "notifications"); ("Alpha / Numeric", "text");
    ("Animal", "misc"); ("Arrange", "navigation"); ("Arrow", "arrows");
    ("Audio", "media"); ("Automotive", "location"); ("Banking", "commerce");
    ("Battery", "infrastructure"); ("Brand / Logo", "misc");
    ("Cellphone / Phone", "infrastructure"); ("Clothing", "misc");
    ("Cloud", "infrastructure"); ("Color", "visual");
    ("Currency", "commerce"); ("Database", "infrastructure");
    ("Date / Time", "datetime"); ("Developer / Languages", "development");
    ("Device / Tech", "infrastructure"); ("Drawing / Art", "visual");
    ("Edit / Modify", "actions"); ("Emoji", "people");
    ("Files / Folders", "files"); ("Food / Drink", "misc");
    ("Form", "controls"); ("Gaming / RPG", "misc");
    ("Geographic Information System", "location");
    ("Hardware / Tools", "controls"); ("Health / Beauty", "people");
    ("Holiday", "misc"); ("Home Automation", "controls");
    ("Lock", "security"); ("Math", "shapes");
    ("Medical / Hospital", "people"); ("Music", "media");
    ("Nature", "weather"); ("Navigation", "navigation");
    ("Notification", "notifications"); ("People / Family", "people");
    ("Photography", "visual"); ("Places", "location");
    ("Printer", "infrastructure"); ("Religion", "misc"); ("Science", "misc");
    ("Settings", "controls"); ("Shape", "shapes"); ("Shopping", "commerce");
    ("Social Media", "communication"); ("Sport", "misc");
    ("Text / Content / Format", "text"); ("Tooltip", "notifications");
    ("Transportation + Flying", "location");
    ("Transportation + Other", "location");
    ("Transportation + Road", "location");
    ("Transportation + Water", "location"); ("Vector", "visual");
    ("Video / Movie", "visual"); ("View", "actions"); ("Weather", "weather") ].

Definition ICONPARK_CATEGORY_MAP : list (string * string) :=
  [ ("Abstract", "shapes"); ("Animals", "misc"); ("Arrows", "arrows");
    ("Baby", "people"); ("Base", "controls"); ("Brand", "misc");
    ("Build", "commerce"); ("Character", "text");
    ("Charts", "infrastructure"); ("Clothes", "misc");
    ("Communicate", "communication"); ("Components", "development");
    ("Connect", "infrastructure"); ("Constellation", "misc");
    ("Datas", "infrastructure"); ("Edit", "actions"); ("Emoji", "people");
    ("Energy", "controls"); ("Foods", "misc"); ("Game", "misc");
    ("Graphics", "visual"); ("Hands", "people");
    ("Hardware", "infrastructure"); ("Health", "people");
    ("Industry", "commerce"); ("Life", "misc"); ("Makeups", "misc");
    ("Measurement", "controls"); ("Money", "commerce"); ("Music", "media");
    ("Office", "files"); ("Operate", "actions"); ("Others", "misc");
    ("Peoples", "people"); ("Safe", "security"); ("Sports", "misc");
    ("Time", "datetime"); ("Travel", "location"); ("Weather", "weather") ].

Definition category_ids : list string := map cat_id CATEGORIES.

(** ** Helpers *)

(** [filename.replace(/\b\w/g, c => c.toUpperCase())]: a word character
    is capitalised when no word character precedes it. *)
Fixpoint capitalizeWords (after_word : bool) (s : string) : string :=
  match s with
  | "" => ""
  | String c s' =>
      String (if is_word c && negb after_word then upper_char c else c)
             (capitalizeWords (is_word c) s')
  end.

Definition toDisplayName (filename : string) : string :=
  capitalizeWords false (replaceChar "-"%char " "%char filename).

(** Length of the match of [/<!--[\s\S]*?-->\n?/] that starts at the
    head of [s], if there is one: the lazy star stops at the first
    ["-->"] that follows the opening, and one line feed goes with it. *)
Definition comment_match (s : string) : option nat :=
  if prefix "<!--" s then
    match indexOf (drop 4 s) "-->" with
    | Some k =>
        let n := 4 + k + 3 in
        Some (if prefix newline (drop n s) then S n else n)
    | None => None
    end
  else None.

(** [s.replace(re, '')] with a global pattern, one pass from the left:
    [skip] counts the characters of the current match still to drop;
    outside a match the scan either opens a match at this character or
    keeps it. *)
Fixpoint removeMatches (matcher : string -> option nat) (skip : nat)
  (s : string) : string :=
  match s with
  | "" => ""
  | String c s' =>
      match skip with
      | S k => removeMatches matcher k s'
      | O =>
          match matcher s with
          | Some n => removeMatches matcher (n - 1) s'
          | None => String c (removeMatches matcher 0 s')
          end
      end
  end.

Definition cleanSvg (svgContent : string) : string :=
  trim (removeMatches comment_match 0 svgContent).

(** [x || fallback] and [if (x)] on the result of a table lookup: an own
    non-empty string and an inherited member are both truthy. *)
Definition truthy (l : lookup string) : option jsval :=
  match l with
  | Own v => if String.eqb v "" then None else Some (VStr v)
  | Inherited k => Some (VInherited k)
  | Undefined => None
  end.

(** [name.includes(keyword) || name.startsWith(keyword.replace(/-$/, ''))] *)
Definition name_hit (name keyword : string) : bool :=
  includes name keyword || startsWith name (stripSuffix "-" keyword).

(** the two nested [for] loops of step 2 *)
Fixpoint scanName (table : list (string * list string)) (name : string)
  : option string :=
  match table with
  | [] => None
  | (category, keywords) :: rest =>
      if existsb (name_hit name) keywords then Some category
      else scanName rest name
  end.

(** [String(tag).toLowerCase().includes(cleanKeyword)] for some tag *)
Definition tags_hit (tags : list string) (keyword : string) : bool :=
  let cleanKeyword := stripSuffix "-" keyword in
  existsb (fun tag => includes (toLowerCase tag) cleanKeyword) tags.

(** the three nested [for] loops of step 3 *)
Fixpoint scanTags (table : list (string * list string)) (tags : list string)
  : option string :=
  match table with
  | [] => None
  | (category, keywords) :: rest =>
      if existsb (tags_hit tags) keywords then Some category
      else scanTags rest tags
  end.

Definition categorizeByKeywords (name : string) (tags : jstags)
  : completion jsval :=
  (* 1. Check explicit name overrides *)
  match truthy (obj_get NAME_OVERRIDES name) with
  | Some v => Normal v
  | None =>
      (* 2. Try keyword matching against icon name *)
      match scanName CATEGORY_KEYWORDS name with
      | Some category => Normal (VStr category)
      | None =>
          (* 3. Fallback: check tags *)
          match tags with
          | TagsInherited _ => Throws "TypeError: tags is not iterable"
          | TagsNullish => Normal (VStr "misc")
          | TagsArray l =>
              match scanTags CATEGORY_KEYWORDS l with
              | Some category => Normal (VStr category)
              | None => Normal (VStr "misc")
              end
          end
      end
  end.

(** ** The installed packages and the adapter monad *)

Inductive node : Type :=
| File (content : string)
| Dir (entries : list string).

(** Parsed metadata, as the adapters use it. *)
Record TablerMeta : Type :=
  { tabler_category : option string; tabler_tags : option (list string) }.

Record PhosphorEntry : Type :=
  { phosphor_name : string;
    phosphor_categories : option (list string);
    phosphor_tags : option (list string);
    (* the other properties of the entry, and whether each is truthy *)
    phosphor_other : list (string * bool) }.

Record MdiEntry : Type :=
  { mdi_name : string;
    mdi_tags : list string;
    mdi_aliases : option (list string);
    mdi_deprecated : bool;
    (* the other properties of the entry, and whether each is truthy *)
    mdi_other : list (string * bool) }.

Record IconParkMeta : Type :=
  { iconpark_name : string; iconpark_category : string }.

(** What a call of an IconPark export gives for a theme. *)
Inductive rendered : Type :=
| RenderString (svg : string)
| RenderOther
| RenderThrows.

Inductive export : Type :=
| ExportFunction (render : string -> rendered)
| ExportOther.

(** Everything a run reads.  [fs] maps a path to what is there when the
    run starts, in the output tree too; a metadata field is [None] when
    reading or parsing the file throws.  Tags are held as the strings
    [String(tag)] gives. *)
Record World : Type :=
  { fs : string -> option node;
    lucide_tags_json : option (list (string * list string));
    tabler_icons_json : option (list (string * TablerMeta));
    phosphor_module : option (list PhosphorEntry);
    mdi_meta_json : option (list MdiEntry);
    iconpark_icons_json : option (list IconParkMeta);
    iconpark_lib : option (list (string * export)) }.

(** An SVG file written: its path and its text. *)
Record FileWrite : Type := { write_path : string; write_data : string }.

(** The three documents [main] writes. *)
Inductive JsonFile : Type :=
| ManifestJson
| LibrariesJson
| ReportJson.

(** What a run does to the disk. *)
Inductive effect : Type :=
| MadeDir (path : string)
| Wrote (wr : FileWrite)
| WroteJson (path : string) (doc : JsonFile).

(** An adapter reads the world and appends to the log of what it did to
    the disk. *)
Definition Run (A : Type) : Type :=
  World -> list effect -> completion (A * list effect).

Definition ret {A : Type} (a : A) : Run A := fun _ log => Normal (a, log).

Definition bind {A B : Type} (m : Run A) (k : A -> Run B) : Run B :=
  fun w log =>
    match m w log with
    | Normal (a, log') => k a w log'
    | Throws e => Throws e
    end.

Notation "x <- m ;; k" := (bind m (fun x => k))
  (at level 61, m at next level, right associativity).
Notation "m ;;; k" := (bind m (fun _ => k))
  (at level 61, right associativity).

Definition throw {A : Type} (e : string) : Run A := fun _ _ => Throws e.

Definition lift {A : Type} (c : completion A) : Run A :=
  match c with
  | Normal a => ret a
  | Throws e => throw e
  end.

(** [try { body } catch (e) {}] around a step of a loop with state [s]:
    when the body throws, the loop goes on with the state [s].  No body
    in the program throws after it has changed the disk. *)
Definition try_catch {S : Type} (body : Run S) (s : S) : Run S :=
  fun w log =>
    match body w log with
    | Normal r => Normal r
    | Throws _ => Normal (s, log)
    end.

(** The directories made so far, each with the directories on the way
    to it, and the paths written so far. *)
Definition made_dirs (log : list effect) : list string :=
  flat_map (fun e => match e with
                     | MadeDir p => ancestors p
                     | _ => []
                     end) log.

Definition written_paths (log : list effect) : list string :=
  flat_map (fun e => match e with
                     | MadeDir _ => []
                     | Wrote wr => [write_path wr]
                     | WroteJson p _ => [p]
                     end) log.

Definition mem (p : string) (l : list string) : bool := existsb (String.eqb p) l.

(** What stands at a path now: what the run found there, or what it has
    put there since. *)
Definition is_dir (w : World) (log : list effect) (p : string) : bool :=
  match fs w p with
  | Some (Dir _) => true
  | Some (File _) => false
  | None => is_above p || mem p (made_dirs log)
  end.

Definition is_file (w : World) (log : list effect) (p : string) : bool :=
  match fs w p with
  | Some (File _) => true
  | Some (Dir _) => false
  | None => mem p (written_paths log)
  end.

Definition existsSync (p : string) : Run bool :=
  fun w log =>
    Normal (match fs w p with Some _ => true | None => false end, log).

Definition readdirSync (p : string) : Run (list string) :=
  fun w log =>
    match fs w p with
    | Some (Dir entries) => Normal (entries, log)
    | Some (File _) => Throws "ENOTDIR"
    | None => Throws "ENOENT"
    end.

(** [fs.statSync(p).isDirectory()] *)
Definition isDirectory (p : string) : Run bool :=
  fun w log =>
    match fs w p with
    | Some (Dir _) => Normal (true, log)
    | Some (File _) => Normal (false, log)
    | None => Throws "ENOENT"
    end.

Definition readFileSync (p : string) : Run string :=
  fun w log =>
    match fs w p with
    | Some (File content) => Normal (content, log)
    | Some (Dir _) => Throws "EISDIR"
    | None => Throws "ENOENT"
    end.

(** [fs.mkdirSync(p, { recursive: true })]: the directory and those on
    the way to it are made where they are missing; a file at one of
    these paths makes the call throw, and then nothing is made. *)
Definition mkdirSync (p : string) : Run unit :=
  fun w log =>
    if is_file w log p then Throws "EEXIST"
    else if existsb (is_file w log) (ancestors p) then Throws "ENOTDIR"
    else Normal (tt, log ++ [MadeDir p]).

(** Why a file cannot be written at [p], if it cannot. *)
Definition write_error (w : World) (log : list effect) (p : string)
  : option string :=
  if is_dir w log p then Some "EISDIR"
  else if is_dir w log (dirname p) then None
  else if existsb (is_file w log) (ancestors (dirname p)) then Some "ENOTDIR"
  else Some "ENOENT".

Definition writeFileSync (p data : string) : Run unit :=
  fun w log =>
    match write_error w log p with
    | Some e => Throws e
    | None => Normal (tt, log ++ [Wrote {| write_path := p; write_data := data |}])
    end.

(** [fs.writeFileSync(p, JSON.stringify(doc, null, 2))] *)
Definition writeJsonSync (p : string) (doc : JsonFile) : Run unit :=
  fun w log =>
    match write_error w log p with
    | Some e => Throws e
    | None => Normal (tt, log ++ [WroteJson p doc])
    end.

(** [JSON.parse(fs.readFileSync(...))] and [require(...)] of a metadata file *)
Definition load {A : Type} (field : World -> option A) : Run A :=
  fun w log =>
    match field w with
    | Some a => Normal (a, log)
    | None => Throws "cannot load metadata"
    end.

(** [for (const x of xs) body], the loop state threaded through *)
Fixpoint for_of {A S : Type} (xs : list A) (body : A -> S -> Run S) (s : S)
  : Run S :=
  match xs with
  | [] => ret s
  | x :: xs' => s' <- body x s ;; for_of xs' body s'
  end.

(** [xs.filter(p)] with a predicate that reads the file system *)
Fixpoint filterM {A : Type} (p : A -> Run bool) (xs : list A) : Run (list A) :=
  match xs with
  | [] => ret []
  | x :: xs' =>
      keep <- p x ;;
      rest <- filterM p xs' ;;
      ret (if keep then x :: rest else rest)
  end.

(** [xs.sort()] on strings: ascending by code units *)
Fixpoint insert_sorted (x : string) (l : list string) : list string :=
  match l with
  | [] => [x]
  | y :: l' => if String.leb x y then x :: l else y :: insert_sorted x l'
  end.

Definition sort (l : list string) : list string := fold_right insert_sorted [] l.

Definition svgFilesOf (entries : list string) : list string :=
  filter (fun f => endsWith f ".svg") entries.

(** ** Icon records *)

Record Icon : Type :=
  { icon_id : string;
    icon_name : string;
    icon_library : string;
    icon_category : jsval;
    icon_type : string;
    icon_tags : jstags }.

(** Paths, relative to the project directory. *)
Definition NODE_MODULES : string := "node_modules".
Definition OUTPUT_DIR : string := "build/icons".

Definition LUCIDE_ICONS_DIR := "node_modules/lucide-static/icons".
Definition LUCIDE_TAGS_FILE := "node_modules/lucide-static/tags.json".
Definition TABLER_OUTLINE_DIR := "node_modules/@tabler/icons/icons/outline".
Definition TABLER_FILLED_DIR := "node_modules/@tabler/icons/icons/filled".
Definition TABLER_CATEGORIES_DIR := "node_modules/@tabler/icons/categories/outline".
Definition TABLER_META_FILE := "node_modules/@tabler/icons/icons.json".
Definition HEROICONS_OUTLINE_DIR := "node_modules/heroicons/24/outline".
Definition HEROICONS_SOLID_DIR := "node_modules/heroicons/24/solid".
Definition PHOSPHOR_ASSETS_DIR := "node_modules/@phosphor-icons/core/assets".
Definition PHOSPHOR_META_FILE := "node_modules/@phosphor-icons/core/dist/index.umd.js".
Definition BOOTSTRAP_ICONS_DIR := "node_modules/bootstrap-icons/icons".
Definition ICONOIR_REGULAR_DIR := "node_modules/iconoir/icons/regular".
Definition ICONOIR_SOLID_DIR := "node_modules/iconoir/icons/solid".
Definition REMIX_ICONS_DIR := "node_modules/remixicon/icons".
Definition FLUENT_ICONS_DIR := "node_modules/@fluentui/svg-icons/icons".
Definition MDI_SVG_DIR := "node_modules/@mdi/svg/svg".
Definition MDI_META_FILE := "node_modules/@mdi/svg/meta.json".
Definition IONICONS_SVG_DIR := "node_modules/ionicons/dist/svg".
Definition ICONPARK_META_FILE := "node_modules/@icon-park/svg/icons.json".

(** The string a property key becomes when the key is an inherited member. *)
Definition inherited_to_string (key : string) : string :=
  if String.eqb key "__proto__" then "[object Object]"
  else if String.eqb key "constructor" then "function Object() { [native code] }"
  else "function " ++ key ++ "() { [native code] }".

Definition property_key (v : jsval) : string :=
  match v with
  | VStr s => s
  | VInherited k => inherited_to_string k
  end.

(** [table[v] || 'misc'] *)
Definition mapped_or_misc (table : list (string * string)) (key : string) : jsval :=
  match truthy (obj_get table key) with
  | Some v => v
  | None => VStr "misc"
  end.

(** [for (const c of keys) if (table[c]) { category = table[c]; break; }] *)
Fixpoint firstMapped (table : list (string * string)) (keys : list string)
  : option jsval :=
  match keys with
  | [] => None
  | c :: rest =>
      match truthy (obj_get table c) with
      | Some v => Some v
      | None => firstMapped table rest
      end
  end.

Definition is_misc (v : jsval) : bool :=
  match v with
  | VStr s => String.eqb s "misc"
  | VInherited _ => false
  end.

Definition or_empty (l : option (list string)) : list string :=
  match l with Some x => x | None => [] end.

(** [lookup[entry.name] = entry] for every entry, in order *)
Definition index_by {E : Type} (key : E -> string) (entries : list E)
  : table E :=
  fold_left (fun o e => table_set o (key e) e) entries empty_table.

(** The properties of a Phosphor entry and of a Material Design entry:
    the name, a string, is truthy unless empty; an array is truthy. *)
Definition phosphor_property (e : PhosphorEntry) (k : string) : option bool :=
  if String.eqb k "name" then Some (negb (String.eqb (phosphor_name e) ""))
  else if String.eqb k "categories"
       then option_map (fun _ => true) (phosphor_categories e)
  else if String.eqb k "tags" then option_map (fun _ => true) (phosphor_tags e)
  else own_get (phosphor_other e) k.

Definition mdi_property (e : MdiEntry) (k : string) : option bool :=
  if String.eqb k "name" then Some (negb (String.eqb (mdi_name e) ""))
  else if String.eqb k "tags" then Some true
  else if String.eqb k "aliases" then option_map (fun _ => true) (mdi_aliases e)
  else if String.eqb k "deprecated" then Some (mdi_deprecated e)
  else own_get (mdi_other e) k.

(** ** Style suffixes *)

(** Bootstrap: [name.replace(/-fill$/, '')] *)
Definition bootstrapBaseName (name : string) : string := stripSuffix "-fill" name.

(** Phosphor: [.replace(style.suffix, '')], the first occurrence *)
Definition phosphorStrip (suffix name : string) : string :=
  replaceFirst suffix "" name.

(** Remix Icon: style and logical name of a raw file name *)
Definition remixSplit (rawName : string) : string * string :=
  if endsWith rawName "-fill" then ("filled", stripSuffix "-fill" rawName)
  else if endsWith rawName "-line" then ("outline", stripSuffix "-line" rawName)
  else ("outline", rawName).

(** Material Design Icons: [isOutline ? name.replace(/-outline$/, '') : name] *)
Definition mdiBaseName (name : string) : string :=
  if endsWith name "-outline" then stripSuffix "-outline" name else name.

(** Ionicons: style and logical name of a raw file name *)
Definition ioniconsSplit (rawName : string) : string * string :=
  if endsWith rawName "-outline" then ("outline", stripSuffix "-outline" rawName)
  else if endsWith rawName "-sharp" then ("sharp", stripSuffix "-sharp" rawName)
  else ("filled", rawName).

(** ** Library processors *)

Definition processLucide : Run (list Icon) :=
  installed <- existsSync LUCIDE_ICONS_DIR ;;
  if negb installed then ret []
  else
    tagsData <- load lucide_tags_json ;;
    entries <- readdirSync LUCIDE_ICONS_DIR ;;
    let svgFiles := sort (svgFilesOf entries) in
    let outDir := path_join OUTPUT_DIR "lucide" in
    mkdirSync outDir ;;;
    for_of svgFiles (fun file icons =>
      let name := replaceFirst ".svg" "" file in
      svgContent <- readFileSync (path_join LUCIDE_ICONS_DIR file) ;;
      (* tagsData[name] || [] *)
      let tags := match obj_get tagsData name with
                  | Own l => TagsArray l
                  | Inherited k => TagsInherited k
                  | Undefined => TagsArray []
                  end in
      category <- lift (categorizeByKeywords name tags) ;;
      let icons' := icons ++
        [ {| icon_id := "lucide/" ++ name;
             icon_name := toDisplayName name;
             icon_library := "lucide";
             icon_category := category;
             icon_type := "outline";
             icon_tags := tags |} ] in
      writeFileSync (path_join outDir file) (cleanSvg svgContent) ;;;
      ret icons') [].

(** One pass of [processTabler] over a style directory; the outline and
    the filled pass differ in the directory and the style only. *)
Definition tablerPass (tablerMeta : list (string * TablerMeta))
  (tablerCategoryLookup : list (string * string)) (srcDir style : string)
  (icons : list Icon) : Run (list Icon) :=
  entries <- readdirSync srcDir ;;
  let files := sort (svgFilesOf entries) in
  let outDir := path_join (path_join OUTPUT_DIR "tabler") style in
  mkdirSync outDir ;;;
  for_of files (fun file icons =>
    let name := replaceFirst ".svg" "" file in
    let meta := obj_get tablerMeta name in
    (* tablerCategoryLookup[name] || (meta && meta.category) || '' *)
    let tablerCat :=
      match truthy (obj_get tablerCategoryLookup name) with
      | Some v => v
      | None =>
          match meta with
          | Own m => VStr (match tabler_category m with Some c => c | None => "" end)
          | _ => VStr ""
          end
      end in
    (* meta?.tags *)
    let metaTags :=
      match meta with
      | Own m => match tabler_tags m with Some l => TagsArray l | None => TagsNullish end
      | _ => TagsNullish
      end in
    category <-
      match truthy (obj_get TABLER_CATEGORY_MAP (property_key tablerCat)) with
      | Some v => ret v
      | None => lift (categorizeByKeywords name metaTags)
      end ;;
    (* meta?.tags?.map(t => String(t)) || [] *)
    let tags := match metaTags with TagsArray l => l | _ => [] end in
    let icons' := icons ++
      [ {| icon_id := "tabler/" ++ style ++ "/" ++ name;
           icon_name := toDisplayName name;
           icon_library := "tabler";
           icon_category := category;
           icon_type := style;
           icon_tags := TagsArray tags |} ] in
    svgContent <- readFileSync (path_join srcDir file) ;;
    writeFileSync (path_join outDir file) (cleanSvg svgContent) ;;;
    ret icons') icons.

Definition processTabler : Run (list Icon) :=
  installed <- existsSync TABLER_OUTLINE_DIR ;;
  if negb installed then ret []
  else
    tablerMeta <- load tabler_icons_json ;;
    (* reverse category lookup from the categories/ folder structure *)
    hasCategories <- existsSync TABLER_CATEGORIES_DIR ;;
    tablerCategoryLookup <-
      (if hasCategories then
         entries <- readdirSync TABLER_CATEGORIES_DIR ;;
         catFolders <-
           filterM (fun f => isDirectory (path_join TABLER_CATEGORIES_DIR f)) entries ;;
         for_of catFolders (fun folder lookup =>
           inFolder <- readdirSync (path_join TABLER_CATEGORIES_DIR folder) ;;
           ret (fold_left
                  (fun lk svg => obj_set lk (replaceFirst ".svg" "" svg) folder)
                  (svgFilesOf inFolder) lookup)) []
       else ret []) ;;
    icons <- tablerPass tablerMeta tablerCategoryLookup TABLER_OUTLINE_DIR "outline" [] ;;
    tablerPass tablerMeta tablerCategoryLookup TABLER_FILLED_DIR "filled" icons.

(** One pass over a directory of a library without metadata
    ([processHeroicons], [processIconoir]): the icon is categorised by
    its file name and the file is copied under [library/outSub]. *)
Definition plainPass (library srcDir outSub style : string)
  (icons : list Icon) : Run (list Icon) :=
  entries <- readdirSync srcDir ;;
  let files := sort (svgFilesOf entries) in
  let outDir := path_join (path_join OUTPUT_DIR library) outSub in
  mkdirSync outDir ;;;
  for_of files (fun file icons =>
    let name := replaceFirst ".svg" "" file in
    category <- lift (categorizeByKeywords name (TagsArray [])) ;;
    let icons' := icons ++
      [ {| icon_id := library ++ "/" ++ outSub ++ "/" ++ name;
           icon_name := toDisplayName name;
           icon_library := library;
           icon_category := category;
           icon_type := style;
           icon_tags := TagsArray [] |} ] in
    svgContent <- readFileSync (path_join srcDir file) ;;
    writeFileSync (path_join outDir file) (cleanSvg svgContent) ;;;
    ret icons') icons.

Definition processHeroicons : Run (list Icon) :=
  installed <- existsSync HEROICONS_OUTLINE_DIR ;;
  if negb installed then ret []
  else
    icons <- plainPass "heroicons" HEROICONS_OUTLINE_DIR "outline" "outline" [] ;;
    plainPass "heroicons" HEROICONS_SOLID_DIR "solid" "solid" icons.

Record PhosphorStyle : Type :=
  { style_dir : string; style_type : string; style_suffix : string }.

Definition phosphor_styles : list PhosphorStyle :=
  [ {| style_dir := "regular"; style_type := "outline"; style_suffix := "" |};
    {| style_dir := "bold"; style_type := "bold"; style_suffix := "-bold" |};
    {| style_dir := "fill"; style_type := "filled"; style_suffix := "-fill" |} ].

Definition processPhosphor : Run (list Icon) :=
  installed <- existsSync PHOSPHOR_ASSETS_DIR ;;
  if negb installed then ret []
  else
    phosphorIcons <- load phosphor_module ;;
    let metaLookup := index_by phosphor_name phosphorIcons in
    for_of phosphor_styles (fun style icons =>
      let srcDir := path_join PHOSPHOR_ASSETS_DIR (style_dir style) in
      present <- existsSync srcDir ;;
      if negb present then ret icons
      else
        entries <- readdirSync srcDir ;;
        let svgFiles := sort (svgFilesOf entries) in
        let outDir := path_join (path_join OUTPUT_DIR "phosphor") (style_dir style) in
        mkdirSync outDir ;;;
        for_of svgFiles (fun file icons =>
          let name :=
            phosphorStrip (style_suffix style) (replaceFirst ".svg" "" file) in
          let meta := table_get phosphor_property metaLookup name in
          (* meta?.categories || [] *)
          let cats := match meta with
                      | Entry e => or_empty (phosphor_categories e)
                      | _ => []
                      end in
          (* (meta?.tags || []).filter(t => t !== '*new*') *)
          let tags := filter (fun t => negb (String.eqb t "*new*"))
                        (match meta with
                         | Entry e => or_empty (phosphor_tags e)
                         | _ => []
                         end) in
          let mapped := match firstMapped PHOSPHOR_CATEGORY_MAP cats with
                        | Some v => v
                        | None => VStr "misc"
                        end in
          category <-
            (if is_misc mapped && (Nat.eqb (List.length cats) 0)
             then lift (categorizeByKeywords name (TagsArray tags))
             else ret mapped) ;;
          let icons' := icons ++
            [ {| icon_id := "phosphor/" ++ style_dir style ++ "/" ++ name;
                 icon_name := toDisplayName name;
                 icon_library := "phosphor";
                 icon_category := category;
                 icon_type := style_type style;
                 icon_tags := TagsArray tags |} ] in
          svgContent <- readFileSync (path_join srcDir file) ;;
          writeFileSync (path_join outDir (name ++ ".svg")) (cleanSvg svgContent) ;;;
          ret icons') icons) [].

Definition processBootstrap : Run (list Icon) :=
  installed <- existsSync BOOTSTRAP_ICONS_DIR ;;
  if negb installed then ret []
  else
    entries <- readdirSync BOOTSTRAP_ICONS_DIR ;;
    let allFiles := sort (svgFilesOf entries) in
    let outlineFiles := filter (fun f => negb (endsWith f "-fill.svg")) allFiles in
    let fillFiles := filter (fun f => endsWith f "-fill.svg") allFiles in
    let pass (files : list string) (outSub style : string) (strip : string -> string)
          (icons : list Icon) : Run (list Icon) :=
      mkdirSync (path_join (path_join OUTPUT_DIR "bootstrap") outSub) ;;;
      for_of files (fun file icons =>
        let name := replaceFirst ".svg" "" file in
        category <- lift (categorizeByKeywords (strip name) (TagsArray [])) ;;
        let icons' := icons ++
          [ {| icon_id := "bootstrap/" ++ outSub ++ "/" ++ name;
               icon_name := toDisplayName name;
               icon_library := "bootstrap";
               icon_category := category;
               icon_type := style;
               icon_tags := TagsArray [] |} ] in
        svgContent <- readFileSync (path_join BOOTSTRAP_ICONS_DIR file) ;;
        writeFileSync
          (path_join (path_join (path_join OUTPUT_DIR "bootstrap") outSub) file)
          (cleanSvg svgContent) ;;;
        ret icons') icons in
    icons <- pass outlineFiles "outline" "outline" (fun name => name) [] ;;
    (* Strip -fill suffix for categorization *)
    pass fillFiles "filled" "filled" bootstrapBaseName icons.

Definition processIconoir : Run (list Icon) :=
  installed <- existsSync ICONOIR_REGULAR_DIR ;;
  if negb installed then ret []
  else
    icons <- plainPass "iconoir" ICONOIR_REGULAR_DIR "regular" "outline" [] ;;
    hasSolid <- existsSync ICONOIR_SOLID_DIR ;;
    if hasSolid then plainPass "iconoir" ICONOIR_SOLID_DIR "solid" "solid" icons
    else ret icons.

Definition processRemixIcon : Run (list Icon) :=
  installed <- existsSync REMIX_ICONS_DIR ;;
  if negb installed then ret []
  else
    entries <- readdirSync REMIX_ICONS_DIR ;;
    categoryDirs <- filterM (fun f => isDirectory (path_join REMIX_ICONS_DIR f)) entries ;;
    for_of categoryDirs (fun catDir icons =>
      let ourCategory := mapped_or_misc REMIX_CATEGORY_MAP catDir in
      let catPath := path_join REMIX_ICONS_DIR catDir in
      inDir <- readdirSync catPath ;;
      for_of (svgFilesOf inDir) (fun file icons =>
        let rawName := replaceFirst ".svg" "" file in
        let '(type, name) := remixSplit rawName in
        let outDir := path_join (path_join OUTPUT_DIR "remix") type in
        mkdirSync outDir ;;;
        let icons' := icons ++
          [ {| icon_id := "remix/" ++ type ++ "/" ++ name;
               icon_name := toDisplayName name;
               icon_library := "remix";
               icon_category := ourCategory;
               icon_type := type;
               icon_tags := TagsArray [] |} ] in
        svgContent <- readFileSync (path_join catPath file) ;;
        writeFileSync (path_join outDir (name ++ ".svg")) (cleanSvg svgContent) ;;;
        ret icons') icons) [].

Definition processFluent : Run (list Icon) :=
  installed <- existsSync FLUENT_ICONS_DIR ;;
  if negb installed then ret []
  else
    entries <- readdirSync FLUENT_ICONS_DIR ;;
    let allFiles := svgFilesOf entries in
    (* Only process 24px icons in regular and filled styles *)
    let regularFiles := filter (fun f => endsWith f "_24_regular.svg") allFiles in
    let filledFiles := filter (fun f => endsWith f "_24_filled.svg") allFiles in
    let pass (files : list string) (ending style : string) (icons : list Icon)
          : Run (list Icon) :=
      mkdirSync (path_join (path_join OUTPUT_DIR "fluent") style) ;;;
      for_of files (fun file icons =>
        let name := replaceChar "_"%char "-"%char (replaceFirst ending "" file) in
        category <- lift (categorizeByKeywords name (TagsArray [])) ;;
        let icons' := icons ++
          [ {| icon_id := "fluent/" ++ style ++ "/" ++ name;
               icon_name := toDisplayName name;
               icon_library := "fluent";
               icon_category := category;
               icon_type := style;
               icon_tags := TagsArray [] |} ] in
        svgContent <- readFileSync (path_join FLUENT_ICONS_DIR file) ;;
        writeFileSync
          (path_join (path_join (path_join OUTPUT_DIR "fluent") style) (name ++ ".svg"))
          (cleanSvg svgContent) ;;;
        ret icons') icons in
    icons <- pass regularFiles "_24_regular.svg" "outline" [] ;;
    pass filledFiles "_24_filled.svg" "filled" icons.

Definition processMdi : Run (list Icon) :=
  installed <- existsSync MDI_SVG_DIR ;;
  if negb installed then ret []
  else
    meta <- load mdi_meta_json ;;
    let metaLookup := index_by mdi_name meta in
    entries <- readdirSync MDI_SVG_DIR ;;
    let allFiles := sort (svgFilesOf entries) in
    for_of allFiles (fun file icons =>
      let name := replaceFirst ".svg" "" file in
      let isOutline := endsWith name "-outline" in
      let type := if isOutline then "outline" else "filled" in
      let baseName := mdiBaseName name in
      let emit (category : jsval) (tags : list string) : Run (list Icon) :=
        let outDir := path_join (path_join OUTPUT_DIR "mdi") type in
        mkdirSync outDir ;;;
        let icons' := icons ++
          [ {| icon_id := "mdi/" ++ type ++ "/" ++ name;
               icon_name := toDisplayName name;
               icon_library := "mdi";
               icon_category := category;
               icon_type := type;
               icon_tags := TagsArray tags |} ] in
        svgContent <- readFileSync (path_join MDI_SVG_DIR file) ;;
        writeFileSync (path_join outDir (name ++ ".svg")) (cleanSvg svgContent) ;;;
        ret icons' in
      match table_get mdi_property metaLookup name with
      | Entry entry =>
          (* Skip deprecated icons *)
          if mdi_deprecated entry then ret icons
          else
            (* Map first MDI tag to our category *)
            let mapped := match firstMapped MDI_CATEGORY_MAP (mdi_tags entry) with
                          | Some v => v
                          | None => VStr "misc"
                          end in
            category <-
              (if is_misc mapped
               then lift (categorizeByKeywords baseName
                            (TagsArray (or_empty (mdi_aliases entry))))
               else ret mapped) ;;
            emit category (mdi_tags entry)
      | OtherValue =>
          (* entry is truthy and no entry: entry.tags is undefined *)
          throw "TypeError: Cannot read properties of undefined (reading 'length')"
      | Nothing =>
          category <- lift (categorizeByKeywords baseName (TagsArray [])) ;;
          emit category []
      end) [].

Definition processIonicons : Run (list Icon) :=
  installed <- existsSync IONICONS_SVG_DIR ;;
  if negb installed then ret []
  else
    entries <- readdirSync IONICONS_SVG_DIR ;;
    let allFiles := sort (svgFilesOf entries) in
    for_of allFiles (fun file icons =>
      let rawName := replaceFirst ".svg" "" file in
      (* Skip brand logos *)
      if startsWith rawName "logo-" then ret icons
      else
        let '(type, name) := ioniconsSplit rawName in
        category <- lift (categorizeByKeywords name (TagsArray [])) ;;
        let outDir := path_join (path_join OUTPUT_DIR "ionicons") type in
        mkdirSync outDir ;;;
        let icons' := icons ++
          [ {| icon_id := "ionicons/" ++ type ++ "/" ++ name;
               icon_name := toDisplayName name;
               icon_library := "ionicons";
               icon_category := category;
               icon_type := type;
               icon_tags := TagsArray [] |} ] in
        svgContent <- readFileSync (path_join IONICONS_SVG_DIR file) ;;
        writeFileSync (path_join outDir (name ++ ".svg")) (cleanSvg svgContent) ;;;
        ret icons') [].

(** [s.replace(/([a-z0-9])([A-Z])/g, '$1-$2')] *)
Fixpoint hyphenateLowerUpper (s : string) : string :=
  match s with
  | "" => ""
  | String a s' =>
      match s' with
      | String b s'' =>
          if (is_lower a || is_digit a) && is_upper b
          then String a (String "-" (String b (hyphenateLowerUpper s'')))
          else String a (hyphenateLowerUpper s')
      | "" => String a ""
      end
  end.

(** [s.replace(/([A-Z])([A-Z][a-z])/g, '$1-$2')] *)
Fixpoint hyphenateAcronym (s : string) : string :=
  match s with
  | "" => ""
  | String a s' =>
      match s' with
      | String b (String c s''') =>
          if is_upper a && is_upper b && is_lower c
          then String a (String "-" (String b (String c (hyphenateAcronym s'''))))
          else String a (hyphenateAcronym s')
      | _ => String a (hyphenateAcronym s')
      end
  end.

(** PascalCase to kebab-case *)
Definition kebab (key : string) : string :=
  toLowerCase (hyphenateAcronym (hyphenateLowerUpper key)).

(** Length of the longest prefix of [s] whose characters satisfy [p]. *)
Fixpoint span (p : ascii -> bool) (s : string) : nat :=
  match s with
  | "" => 0
  | String c s' => if p c then S (span p s') else 0
  end.

(** Match of [/<\?xml[^?]*\?>\s*/] at the head of [s]. *)
Definition preamble_match (s : string) : option nat :=
  if prefix "<?xml" s then
    let k := span (fun c => negb (Ascii.eqb c "?"%char)) (drop 5 s) in
    if prefix "?>" (drop (5 + k) s) then
      let n := 5 + k + 2 in
      Some (n + span is_space (drop n s))
    else None
  else None.

Definition iconpark_themes : list (string * string) :=
  [ ("outline", "outline"); ("filled", "filled") ].

Definition processIconPark : Run (list Icon) :=
  installed <- existsSync ICONPARK_META_FILE ;;
  if negb installed then ret []
  else
    iconsMeta <- load iconpark_icons_json ;;
    iconParkLib <- load iconpark_lib ;;
    (* name -> PascalCase export lookup *)
    let exportKeys :=
      filter (fun k => negb (String.eqb k "DEFAULT_ICON_CONFIGS")
                       && negb (String.eqb k "setConfig"))
             (map fst iconParkLib) in
    let pascalLookup :=
      fold_left (fun o key => obj_set o (kebab key) key) exportKeys [] in
    for_of iconsMeta (fun meta icons =>
      let name := iconpark_name meta in
      let category := mapped_or_misc ICONPARK_CATEGORY_MAP (iconpark_category meta) in
      (* the export function; a key that the library does not hold as an
         own property is skipped *)
      match truthy (obj_get pascalLookup name) with
      | None => ret icons
      | Some exportKey =>
          match own_get iconParkLib (property_key exportKey) with
          | Some (ExportFunction render) =>
              for_of iconpark_themes (fun '(theme, type) icons =>
                try_catch
                  match render theme with
                  | RenderThrows =>
                      (* Some icons may fail to render in certain themes *)
                      throw "render failed"
                  | RenderOther => ret icons
                  | RenderString raw =>
                      if String.eqb raw "" then ret icons
                      else
                        (* Strip XML preamble *)
                        let svg := cleanSvg (removeMatches preamble_match 0 raw) in
                        let outDir :=
                          path_join (path_join OUTPUT_DIR "iconpark") type in
                        mkdirSync outDir ;;;
                        let icons' := icons ++
                          [ {| icon_id := "iconpark/" ++ type ++ "/" ++ name;
                               icon_name := toDisplayName name;
                               icon_library := "iconpark";
                               icon_category := category;
                               icon_type := type;
                               icon_tags := TagsArray [] |} ] in
                        (* the icon is pushed before the file is written: when
                           the write throws, the catch is reached with it *)
                        try_catch
                          (writeFileSync (path_join outDir (name ++ ".svg")) svg ;;;
                           ret icons')
                          icons'
                  end
                  icons) icons
          | _ => ret icons
          end
      end) [].

(** ** Main pipeline *)

Definition processors : list (Run (list Icon)) :=
  [ processLucide; processTabler; processHeroicons; processPhosphor;
    processBootstrap; processIconoir; processRemixIcon; processFluent;
    processMdi; processIonicons; processIconPark ].

(** [[...p1(), ...p2(), ...]]: the processors run in order and their
    results are concatenated. *)
Definition runAll (ps : list (Run (list Icon))) : Run (list Icon) :=
  for_of ps (fun p icons => more <- p ;; ret (icons ++ more)) [].

(** Statistics objects, keyed by what the adapters write into the icon
    records.  None of these keys is an array index or the name of an
    inherited member, and on such keys an object behaves as the
    association list of its own properties in insertion order. *)
Definition count_of (stats : list (string * nat)) (k : string) : nat :=
  match own_get stats k with
  | Some n => n
  | None => 0
  end.

(** [stats[k] = (stats[k] || 0) + 1] *)
Definition bump (stats : list (string * nat)) (k : string) : list (string * nat) :=
  own_set stats k (count_of stats k + 1).

Record Uncategorized : Type :=
  { unc_id : string; unc_name : string; unc_tags : jstags }.

Record Stats : Type :=
  { categoryStats : list (string * nat);
    libraryStats : list (string * nat);
    typeStats : list (string * nat);
    uncategorized : list Uncategorized }.

Definition stats_step (st : Stats) (icon : Icon) : Stats :=
  {| categoryStats := bump (categoryStats st) (property_key (icon_category icon));
     libraryStats := bump (libraryStats st) (icon_library icon);
     typeStats := bump (typeStats st) (icon_type icon);
     uncategorized :=
       if is_misc (icon_category icon)
       then uncategorized st ++
              [ {| unc_id := icon_id icon;
                   unc_name := icon_name icon;
                   unc_tags := icon_tags icon |} ]
       else uncategorized st |}.

Definition calculateStats (allIcons : list Icon) : Stats :=
  fold_left stats_step allIcons
    {| categoryStats := []; libraryStats := []; typeStats := [];
       uncategorized := [] |}.

Record CategoryEntry : Type :=
  { entry_id : string; entry_label : string; entry_count : nat }.

Record LibraryEntry : Type :=
  { lib_id : string;
    lib_name : string;
    lib_version : string;
    lib_url : string;
    lib_license : string;
    lib_licenseUrl : string;
    lib_attribution : string;
    lib_iconCount : nat;
    lib_description : string }.

Record Manifest : Type :=
  { version : nat;
    generated : string;
    icons : list Icon;
    categories : list CategoryEntry;
    libraries : list LibraryEntry }.

Definition libraryEntries (libraryStats : list (string * nat)) : list LibraryEntry :=
  [
    {| lib_id := "lucide";
       lib_name := "Lucide";
       lib_version := "0.574.0";
       lib_url := "https://lucide.dev";
       lib_license := "ISC";
       lib_licenseUrl := "https://github.com/lucide-icons/lucide/blob/main/LICENSE";
       lib_attribution := "Lucide Contributors";
       lib_iconCount := count_of libraryStats "lucide";
       lib_description := "Beautiful & consistent icon toolkit made by the community" |};
    {| lib_id := "tabler";
       lib_name := "Tabler Icons";
       lib_version := "3.36.1";
       lib_url := "https://tabler.io/icons";
       lib_license := "MIT";
       lib_licenseUrl := "https://github.com/tabler/tabler-icons/blob/main/LICENSE";
       lib_attribution := "Tabler Icons Contributors";
       lib_iconCount := count_of libraryStats "tabler";
       lib_description := "Free and open source icons designed for everyday use" |};
    {| lib_id := "heroicons";
       lib_name := "Heroicons";
       lib_version := "2.2.0";
       lib_url := "https://heroicons.com";
       lib_license := "MIT";
       lib_licenseUrl := "https://github.com/tailwindlabs/heroicons/blob/master/LICENSE";
       lib_attribution := "Tailwind Labs";
       lib_iconCount := count_of libraryStats "heroicons";
       lib_description := "Beautiful hand-crafted SVG icons by the makers of Tailwind CSS" |};
    {| lib_id := "phosphor";
       lib_name := "Phosphor Icons";
       lib_version := "2.1.1";
       lib_url := "https://phosphoricons.com";
       lib_license := "MIT";
       lib_licenseUrl := "https://github.com/phosphor-icons/core/blob/main/LICENSE";
       lib_attribution := "Phosphor Icons Contributors";
       lib_iconCount := count_of libraryStats "phosphor";
       lib_description := "A flexible icon family for interfaces, diagrams, and presentations" |};
    {| lib_id := "bootstrap";
       lib_name := "Bootstrap Icons";
       lib_version := "1.13.1";
       lib_url := "https://icons.getbootstrap.com";
       lib_license := "MIT";
       lib_licenseUrl := "https://github.com/twbs/icons/blob/main/LICENSE";
       lib_attribution := "The Bootstrap Authors";
       lib_iconCount := count_of libraryStats "bootstrap";
       lib_description := "Official open source SVG icon library for Bootstrap" |};
    {| lib_id := "iconoir";
       lib_name := "Iconoir";
       lib_version := "7.11.0";
       lib_url := "https://iconoir.com";
       lib_license := "MIT";
       lib_licenseUrl := "https://github.com/iconoir-icons/iconoir/blob/main/LICENSE";
       lib_attribution := "Luca Burgio";
       lib_iconCount := count_of libraryStats "iconoir";
       lib_description := "A high-quality selection of free icons with no premium options" |};
    {| lib_id := "remix";
       lib_name := "Remix Icon";
       lib_version := "4.9.1";
       lib_url := "https://remixicon.com";
       lib_license := "Apache-2.0";
       lib_licenseUrl := "https://github.com/Remix-Design/RemixIcon/blob/master/License";
       lib_attribution := "Remix Design";
       lib_iconCount := count_of libraryStats "remix";
       lib_description := "Open-source neutral-style system symbols elaborately crafted for designers and developers" |};
    {| lib_id := "fluent";
       lib_name := "Fluent UI Icons";
       lib_version := "1.1.319";
       lib_url := "https://github.com/microsoft/fluentui-system-icons";
       lib_license := "MIT";
       lib_licenseUrl := "https://github.com/microsoft/fluentui-system-icons/blob/main/LICENSE";
       lib_attribution := "Microsoft";
       lib_iconCount := count_of libraryStats "fluent";
       lib_description := "Fluent System Icons by Microsoft — a collection of familiar, friendly icons" |};
    {| lib_id := "mdi";
       lib_name := "Material Design Icons";
       lib_version := "7.4.47";
       lib_url := "https://materialdesignicons.com";
       lib_license := "Apache-2.0";
       lib_licenseUrl := "https://github.com/Templarian/MaterialDesign/blob/master/LICENSE";
       lib_attribution := "Austin Andrews & Contributors";
       lib_iconCount := count_of libraryStats "mdi";
       lib_description := "Community-led icon collection with 7000+ icons for Material Design" |};
    {| lib_id := "ionicons";
       lib_name := "Ionicons";
       lib_version := "8.0.13";
       lib_url := "https://ionic.io/ionicons";
       lib_license := "MIT";
       lib_licenseUrl := "https://github.com/ionic-team/ionicons/blob/main/LICENSE";
       lib_attribution := "Ionic Team";
       lib_iconCount := count_of libraryStats "ionicons";
       lib_description := "Premium designed icons for use in web, iOS, Android, and desktop apps" |};
    {| lib_id := "iconpark";
       lib_name := "IconPark";
       lib_version := "1.4.2";
       lib_url := "https://iconpark.oceanengine.com";
       lib_license := "Apache-2.0";
       lib_licenseUrl := "https://github.com/nicedoc/icon-park/blob/master/LICENSE";
       lib_attribution := "ByteDance";
       lib_iconCount := count_of libraryStats "iconpark";
       lib_description := "Over 2600 high-quality icons by ByteDance with multiple themes" |}
  ].

(** [entries.sort((a, b) => b[1] - a[1])]: stable, descending by count *)
Fixpoint insert_by_count (x : string * nat) (l : list (string * nat))
  : list (string * nat) :=
  match l with
  | [] => [x]
  | y :: l' => if (snd y <=? snd x)%nat then x :: l else y :: insert_by_count x l'
  end.

Definition sortByCount (entries : list (string * nat)) : list (string * nat) :=
  fold_right insert_by_count [] entries.

Record Report : Type :=
  { totalIcons : nat;
    categorized : nat;
    uncategorizedCount : nat;
    libraryBreakdown : list (string * nat);
    typeBreakdown : list (string * nat);
    categoryBreakdown : list (string * nat);
    uncategorizedIcons : list Uncategorized }.

(** The values handed to [JSON.stringify] for manifest.json,
    libraries.json and report.json. *)
Record Outputs : Type :=
  { manifest_json : Manifest;
    libraries_json : list LibraryEntry;
    report_json : Report }.

(** The manifest builder: the part of [main] after the processors.
    [now] is the reading of [new Date().toISOString()]. *)
Definition buildOutputs (now : string) (allIcons : list Icon) : Outputs :=
  let st := calculateStats allIcons in
  let manifest :=
    {| version := 3;
       generated := now;
       icons := allIcons;
       categories :=
         map (fun cat => {| entry_id := cat_id cat;
                            entry_label := cat_label cat;
                            entry_count := count_of (categoryStats st) (cat_id cat) |})
             CATEGORIES;
       libraries := libraryEntries (libraryStats st) |} in
  {| manifest_json := manifest;
     libraries_json := libraries manifest;
     report_json :=
       {| totalIcons := List.length allIcons;
          categorized := List.length allIcons - List.length (uncategorized st);
          uncategorizedCount := List.length (uncategorized st);
          libraryBreakdown := sortByCount (libraryStats st);
          typeBreakdown := sortByCount (typeStats st);
          categoryBreakdown := sortByCount (categoryStats st);
          uncategorizedIcons := uncategorized st |} |}.

(** [main]: the three documents are written into [OUTPUT_DIR], which
    the run does not make itself; [WroteJson] names the document of the
    outputs whose text is written. *)
Definition main (now : string) : Run Outputs :=
  allIcons <- runAll processors ;;
  let outputs := buildOutputs now allIcons in
  (* Write manifest *)
  writeJsonSync (path_join OUTPUT_DIR "manifest.json") ManifestJson ;;;
  (* Write libraries.json separately *)
  writeJsonSync (path_join OUTPUT_DIR "libraries.json") LibrariesJson ;;;
  (* Write report *)
  writeJsonSync (path_join OUTPUT_DIR "report.json") ReportJson ;;;
  ret outputs.

(** A run from a disk the run has not touched yet. *)
Definition run_main (now : string) (w : World) : completion (Outputs * list effect) :=
  main now w [].

End ProcessIcons.

(** ** The publisher, [scripts/upload-icons.js] *)

Module UploadIcons.

Definition BUILD_DIR : string := "build/icons".
Definition MANIFEST_FILE : string := "build/icons/manifest.json".
Definition KV_NAMESPACE_ID : string := "6f0078578b6e45cd9fe6460d04dba158".
Definition R2_BUCKET : string := "elemental-icons".
Definition CONCURRENCY : nat := 15.

(** *** Command line *)

Definition args_includes (args : list string) (flag : string) : bool :=
  existsb (String.eqb flag) args.

Fixpoint args_indexOf (args : list string) (flag : string) : option nat :=
  match args with
  | [] => None
  | a :: rest => if String.eqb a flag then Some 0
                 else option_map S (args_indexOf rest flag)
  end.

Definition uploadManifest (args : list string) : bool :=
  Nat.eqb (List.length args) 0 || args_includes args "--manifest".

Definition uploadSvgs (args : list string) : bool :=
  Nat.eqb (List.length args) 0 || args_includes args "--svgs".

(** [args.includes('--lib') ? args[args.indexOf('--lib') + 1] : null];
    [None] stands for [null] and [undefined]. *)
Definition libFilter (args : list string) : option string :=
  match args_indexOf args "--lib" with
  | Some i => nth_error args (i + 1)
  | None => None
  end.

(** *** The worker pool *)

Section ParallelMap.

Context {Item : Type}.
Variable items : list Item.
(** what the promise [fn(item)] resolves to *)
Variable fn : Item -> bool.

(** Where a worker stands: about to test [index < total], suspended at
    [await fn(items[i])], or returned. *)
Inductive worker : Type :=
| LoopHead
| Awaiting (item : Item)
| Returned.

(** The variables the workers share, and [calls]: the indices handed
    to [fn] so far, in call order. *)
Record pool : Type :=
  { index : nat;
    completed : nat;
    failed : nat;
    workers : list worker;
    calls : list nat }.

Fixpoint set_nth {A : Type} (k : nat) (x : A) (l : list A) : list A :=
  match l, k with
  | [], _ => []
  | _ :: l', O => x :: l'
  | y :: l', S k' => y :: set_nth k' x l'
  end.

(** [Promise.all(Array.from({ length: concurrency }, () => worker()))] *)
Definition start (concurrency : nat) : pool :=
  {| index := 0; completed := 0; failed := 0;
     workers := repeat LoopHead concurrency; calls := [] |}.

(** Worker [k] runs to its next suspension point.  At the loop head
    [items[index]] exists exactly when [index < total]. *)
Definition step_worker (k : nat) (s : pool) : option pool :=
  match nth_error (workers s) k with
  | Some LoopHead =>
      match nth_error items (index s) with
      | Some item =>
          (* const i = index++; await fn(items[i]) *)
          Some {| index := S (index s);
                  completed := completed s;
                  failed := failed s;
                  workers := set_nth k (Awaiting item) (workers s);
                  calls := calls s ++ [index s] |}
      | None =>
          Some {| index := index s;
                  completed := completed s;
                  failed := failed s;
                  workers := set_nth k Returned (workers s);
                  calls := calls s |}
      end
  | Some (Awaiting item) =>
      (* if (ok) completed++; else failed++; *)
      let ok := fn item in
      Some {| index := index s;
              completed := if ok then S (completed s) else completed s;
              failed := if ok then failed s else S (failed s);
              workers := set_nth k LoopHead (workers s);
              calls := calls s |}
  | Some Returned => None
  | None => None
  end.

Definition is_returned (w : worker) : bool :=
  match w with Returned => true | _ => false end.

(** every worker has returned: [Promise.all] resolves *)
Definition settled (s : pool) : bool := forallb is_returned (workers s).

(** the first worker that has not returned *)
Fixpoint next_worker (ws : list worker) : option nat :=
  match ws with
  | [] => None
  | Returned :: ws' => option_map S (next_worker ws')
  | _ :: _ => Some 0
  end.

(** One schedule, run to the end: always the first worker that can move. *)
Fixpoint drain (fuel : nat) (s : pool) : pool :=
  match fuel with
  | O => s
  | S fuel' =>
      match next_worker (workers s) with
      | Some k =>
          match step_worker k s with
          | Some s' => drain fuel' s'
          | None => s
          end
      | None => s
      end
  end.

(** a given schedule: the workers to move, in order *)
Fixpoint run (schedule : list nat) (s : pool) : pool :=
  match schedule with
  | [] => s
  | k :: rest =>
      match step_worker k s with
      | Some s' => run rest s'
      | None => run rest s
      end
  end.

Record Tally : Type := { tally_completed : nat; tally_failed : nat }.

Definition tally_of (s : pool) : Tally :=
  {| tally_completed := completed s; tally_failed := failed s |}.

(** The pool when [Promise.all] has resolved. *)
Definition pool_run (concurrency : nat) : pool :=
  drain (2 * List.length items + concurrency) (start concurrency).

Definition parallelMap (concurrency : nat) : Tally :=
  tally_of (pool_run concurrency).

(** *** Schedules, and what every reachable pool satisfies *)

(** Some worker moves. *)
Definition step (s s' : pool) : Prop :=
  exists k, step_worker k s = Some s'.

(** [s'] is reached from [s] under some schedule. *)
Inductive steps (s : pool) : pool -> Prop :=
| steps_refl : steps s s
| steps_next (s1 s2 : pool) : steps s s1 -> step s1 s2 -> steps s s2.

Definition succeeded (l : list Item) : nat := List.length (filter fn l).
Definition rejected (l : list Item) : nat :=
  List.length (filter (fun x => negb (fn x)) l).

(** uploads in flight that will succeed, or fail *)
Definition in_flight (ok : bool) (w : worker) : nat :=
  match w with
  | Awaiting item => if Bool.eqb (fn item) ok then 1 else 0
  | _ => 0
  end.

Definition total_of (f : worker -> nat) (ws : list (worker)) : nat :=
  list_sum (map f ws).

Record pool_inv (s : pool) : Prop :=
  { inv_calls : calls s = seq 0 (index s);
    inv_index : index s <= List.length items;
    inv_completed :
      completed s + total_of (in_flight true) (workers s)
      = succeeded (firstn (index s) items);
    inv_failed :
      failed s + total_of (in_flight false) (workers s)
      = rejected (firstn (index s) items);
    inv_returned :
      In Returned (workers s) -> List.length items <= index s }.

Definition weight (w : worker) : nat :=
  match w with
  | LoopHead => 1
  | Awaiting _ => 2
  | Returned => 0
  end.

Definition measure (s : pool) : nat :=
  2 * (List.length items - index s) + total_of weight (workers s).

End ParallelMap.

Arguments worker : clear implicits.
Arguments pool : clear implicits.

(** *** The build directory and the upload run *)

Inductive tree : Type :=
| TFile
| TDir (entries : forest)
with forest : Type :=
| FNil
| FCons (entry : string) (t : tree) (rest : forest).

Record SvgFile : Type := { localPath : string; r2Key : string }.

Definition join_rel (rel entry : string) : string :=
  if String.eqb rel "" then entry else rel ++ "/" ++ entry.

(** [findSvgs(dir, baseDir)] on the entries of [dir]; [rel] is the path
    of [dir] from [baseDir] (empty for [baseDir] itself), so that
    [path.relative(baseDir, fullPath)] is [rel] joined with the entry. *)
Fixpoint findSvgsIn (dir rel : string) (entries : forest) : list SvgFile :=
  match entries with
  | FNil => []
  | FCons entry t rest =>
      let fullPath := (dir ++ "/" ++ entry)%string in
      match t with
      | TDir sub => findSvgsIn fullPath (join_rel rel entry) sub
      | TFile =>
          if endsWith entry ".svg"
          then [ {| localPath := fullPath; r2Key := join_rel rel entry |} ]
          else []
      end ++ findSvgsIn dir rel rest
  end.

Definition findSvgs (dir : string) (entries : forest) : list SvgFile :=
  findSvgsIn dir "" entries.

(** What the run finds: whether manifest.json is there and parses, the
    tree under the build directory, and which uploads succeed. *)
Record Site : Type :=
  { manifest_exists : bool;
    manifest_parses : bool;
    build_dir : forest;
    upload_ok : SvgFile -> bool }.

(** The uploads a run attempts, in the order they are started. *)
Inductive upload : Type :=
| KvPut (key path : string)
| R2Put (key file : string).

Inductive outcome : Type :=
| Exit1
| Threw
| Finished (uploads : list upload) (tally : option Tally).

Definition main (args : list string) (site : Site) : outcome :=
  if negb (manifest_exists site) then Exit1
  else if negb (manifest_parses site) then Threw
  else
    (* Upload manifest to KV *)
    let phase1 :=
      if uploadManifest args
      then [ KvPut "icon-manifest" MANIFEST_FILE;
             KvPut "icon-libraries" (BUILD_DIR ++ "/libraries.json") ]
      else [] in
    (* Upload SVGs to R2 *)
    if uploadSvgs args then
      let allSvgs := findSvgs BUILD_DIR (build_dir site) in
      let allSvgs :=
        match libFilter args with
        | Some lib =>
            if String.eqb lib "" then allSvgs
            else filter (fun s => startsWith (r2Key s) (lib ++ "/")) allSvgs
        | None => allSvgs
        end in
      (* one [wrangler r2 object put] for every call of [fn] by the pool *)
      let put (i : nat) : list upload :=
        match nth_error allSvgs i with
        | Some s => [ R2Put (R2_BUCKET ++ "/" ++ r2Key s) (localPath s) ]
        | None => []
        end in
      Finished
        (phase1 ++ flat_map put (calls (pool_run allSvgs (upload_ok site) CONCURRENCY)))
        (Some (parallelMap allSvgs (upload_ok site) CONCURRENCY))
    else Finished phase1 None.

End UploadIcons.

(** * Specification vocabulary *)

Import ProcessIcons.
Import UploadIcons.

Definition is_category_id (c : string) : bool :=
  existsb (String.eqb c) category_ids.

(** Every value of a vendor or override table is a category id, and none
    is empty. *)
Definition table_ok (table : list (string * string)) : bool :=
  forallb (fun kv => is_category_id (snd kv) && negb (String.eqb (snd kv) "")) table.

Fixpoint last_char (s : string) : option ascii :=
  match s with
  | "" => None
  | String c s' => match last_char s' with Some d => Some d | None => Some c end
  end.

(** A pattern no occurrence of which can start inside [x] and end
    inside a copy of the pattern appended to [x]. *)
Definition unbordered (p : string) : Prop :=
  forall x, x <> "" -> prefix p x = false -> prefix p (x ++ p) = false.

(** [t] contains a complete comment: the pattern of [cleanSvg] matches
    somewhere in it. *)
Fixpoint has_comment (t : string) : bool :=
  match comment_match t with
  | Some _ => true
  | None => match t with
            | "" => false
            | String _ t' => has_comment t'
            end
  end.


Definition stripComments (s : string) : string := removeMatches comment_match 0 s.





Inductive Library : Type :=
| Lucide | Tabler | Heroicons | Phosphor | Bootstrap | Iconoir
| RemixIcon | Fluent | Mdi | Ionicons | IconPark.

Definition all_libraries : list Library :=
  [ Lucide; Tabler; Heroicons; Phosphor; Bootstrap; Iconoir;
    RemixIcon; Fluent; Mdi; Ionicons; IconPark ].

Definition processor (l : Library) : Run (list Icon) :=
  match l with
  | Lucide => processLucide
  | Tabler => processTabler
  | Heroicons => processHeroicons
  | Phosphor => processPhosphor
  | Bootstrap => processBootstrap
  | Iconoir => processIconoir
  | RemixIcon => processRemixIcon
  | Fluent => processFluent
  | Mdi => processMdi
  | Ionicons => processIonicons
  | IconPark => processIconPark
  end.

(** The path an adapter probes before anything else: its source
    directory, and for IconPark, whose SVGs are rendered by the package,
    the metadata file of the package. *)
Definition source_path (l : Library) : string :=
  match l with
  | Lucide => LUCIDE_ICONS_DIR
  | Tabler => TABLER_OUTLINE_DIR
  | Heroicons => HEROICONS_OUTLINE_DIR
  | Phosphor => PHOSPHOR_ASSETS_DIR
  | Bootstrap => BOOTSTRAP_ICONS_DIR
  | Iconoir => ICONOIR_REGULAR_DIR
  | RemixIcon => REMIX_ICONS_DIR
  | Fluent => FLUENT_ICONS_DIR
  | Mdi => MDI_SVG_DIR
  | Ionicons => IONICONS_SVG_DIR
  | IconPark => ICONPARK_META_FILE
  end.

(** The adapters of the list, called one after the other from the disk
    as [log] left it, all return: together they return [icons], and
    leave the disk as [log'] tells. *)
Inductive runs_in_order (w : World)
  : list (Run (list Icon)) -> list effect -> list Icon -> list effect -> Prop :=
| runs_none (log : list effect) : runs_in_order w [] log [] log
| runs_next (p : Run (list Icon)) (ps : list (Run (list Icon)))
    (log log1 log2 : list effect) (icons1 icons2 : list Icon) :
    p w log = Normal (icons1, log1) ->
    runs_in_order w ps log1 icons2 log2 ->
    runs_in_order w (p :: ps) log (icons1 ++ icons2) log2.

(** The three documents [main] writes at its end. *)
Definition json_writes : list effect :=
  [ WroteJson (path_join OUTPUT_DIR "manifest.json") ManifestJson;
    WroteJson (path_join OUTPUT_DIR "libraries.json") LibrariesJson;
    WroteJson (path_join OUTPUT_DIR "report.json") ReportJson ].

(** The output directory is there and no directory has the name of one
    of the three documents. *)
Definition outputs_writable (w : World) (log : list effect) : Prop :=
  forall p doc, In (WroteJson p doc) json_writes -> write_error w log p = None.

(** [Q] holds of every result [m] can return. *)
Definition post {A : Type} (m : Run A) (Q : A -> Prop) : Prop :=
  forall w log a log', m w log = Normal (a, log') -> Q a.

Definition library_ids : list string := map lib_id (libraryEntries []).

(** A category value is in order when, if it is a string, it is one of
    the twenty ids. *)
Definition cat_ok (v : jsval) : Prop := forall c, v = VStr c -> In c category_ids.

Definition icon_ok (icon : Icon) : Prop :=
  In (icon_library icon) library_ids /\ cat_ok (icon_category icon).

(** the category of the icon is a string *)
Definition has_string_category (icon : Icon) : bool :=
  match icon_category icon with
  | VStr _ => true
  | VInherited _ => false
  end.

(** The manifest invariant of the data model. *)
Definition manifest_invariant (m : Manifest) : Prop :=
  forall icon, In icon (icons m) ->
    (exists e, In e (categories m) /\ icon_category icon = VStr (entry_id e))
    /\ (exists l, In l (libraries m) /\ icon_library icon = lib_id l).

(** Heroicons is installed and its outline directory holds one icon,
    constructor.svg. *)
Definition world_with_constructor_icon : World :=
  {| fs := fun p =>
       if String.eqb p HEROICONS_OUTLINE_DIR then Some (Dir ["constructor.svg"])
       else if String.eqb p HEROICONS_SOLID_DIR then Some (Dir [])
       else if String.eqb p (path_join HEROICONS_OUTLINE_DIR "constructor.svg")
            then Some (File "<svg/>")
       else None;
     lucide_tags_json := None;
     tabler_icons_json := None;
     phosphor_module := None;
     mdi_meta_json := None;
     iconpark_icons_json := None;
     iconpark_lib := None |}.

Definition category_total (m : Manifest) : nat :=
  list_sum (map entry_count (categories m)).

Definition library_total (m : Manifest) : nat :=
  list_sum (map lib_iconCount (libraries m)).

(** number of occurrences of [k] among [keys] *)
Definition occurrences (keys : list string) (k : string) : nat :=
  List.length (filter (String.eqb k) keys).

(** Three icons across two libraries. *)
Definition three_icons : list Icon :=
  [ {| icon_id := "lucide/arrow-up"; icon_name := "Arrow Up";
       icon_library := "lucide"; icon_category := VStr "arrows";
       icon_type := "outline"; icon_tags := TagsArray ["direction"] |};
    {| icon_id := "lucide/zebra"; icon_name := "Zebra";
       icon_library := "lucide"; icon_category := VStr "misc";
       icon_type := "outline"; icon_tags := TagsArray [] |};
    {| icon_id := "tabler/filled/home"; icon_name := "Home";
       icon_library := "tabler"; icon_category := VStr "navigation";
       icon_type := "filled"; icon_tags := TagsArray [] |} ].

(** Ten pending files, the fourth and the seventh fail, three workers. *)
Definition ten_items : list nat := seq 1 10.
Definition fails_4_and_7 (item : nat) : bool :=
  negb (Nat.eqb item 4 || Nat.eqb item 7).

Definition uploads_of (o : outcome) : list upload :=
  match o with
  | Finished uploads _ => uploads
  | Exit1 => []
  | Threw => []
  end.

Definition site_with_one_svg : Site :=
  {| manifest_exists := true;
     manifest_parses := true;
     build_dir := FCons "tabler" (TDir (FCons "home.svg" TFile FNil)) FNil;
     upload_ok := fun _ => true |}.

(** A file system given by the list of what is there. *)
Definition assoc_fs (files : list (string * node)) : string -> option node :=
  fun p => own_get files p.

(** Remix Icon alone is installed, with two category directories. *)
Definition remix_world : World :=
  {| fs := assoc_fs
       [ (REMIX_ICONS_DIR, Dir ["Arrows"; "Others"; "README.md"]);
         (path_join REMIX_ICONS_DIR "Arrows",
          Dir ["arrow-up-fill.svg"; "arrow-up-line.svg"]);
         (path_join REMIX_ICONS_DIR "Others", Dir ["seedling.svg"; "notes.txt"]);
         (path_join REMIX_ICONS_DIR "README.md", File "");
         (path_join (path_join REMIX_ICONS_DIR "Arrows") "arrow-up-fill.svg",
          File ("<!-- fill -->" ++ newline ++ "<svg><path/></svg>" ++ newline));
         (path_join (path_join REMIX_ICONS_DIR "Arrows") "arrow-up-line.svg",
          File "<svg><line/></svg>");
         (path_join (path_join REMIX_ICONS_DIR "Others") "seedling.svg",
          File "<svg/>") ];
     lucide_tags_json := None;
     tabler_icons_json := None;
     phosphor_module := None;
     mdi_meta_json := None;
     iconpark_icons_json := None;
     iconpark_lib := None |}.

(** Tabler alone is installed: three outline icons, one of them also
    filled, a category folder, and metadata for two of the icons. *)
Definition tabler_world : World :=
  {| fs := assoc_fs
       [ (TABLER_OUTLINE_DIR, Dir ["sun.svg"; "a-home.svg"; "toString.svg"]);
         (TABLER_FILLED_DIR, Dir ["a-home.svg"]);
         (TABLER_CATEGORIES_DIR, Dir ["Map"; "notes.txt"]);
         (path_join TABLER_CATEGORIES_DIR "Map", Dir ["a-home.svg"]);
         (path_join TABLER_CATEGORIES_DIR "notes.txt", File "");
         (path_join TABLER_OUTLINE_DIR "sun.svg", File "<svg/>");
         (path_join TABLER_OUTLINE_DIR "a-home.svg", File "<svg/>");
         (path_join TABLER_OUTLINE_DIR "toString.svg", File "<svg/>");
         (path_join TABLER_FILLED_DIR "a-home.svg", File "<svg/>") ];
     lucide_tags_json := None;
     tabler_icons_json :=
       Some [ ("sun", {| tabler_category := Some "Weather";
                         tabler_tags := Some ["1"; "day"] |});
              ("a-home", {| tabler_category := Some "Buildings";
                            tabler_tags := None |}) ];
     phosphor_module := None;
     mdi_meta_json := None;
     iconpark_icons_json := None;
     iconpark_lib := None |}.

(** Heroicons with its outline directory, but without the solid one. *)
Definition world_heroicons_outline_only : World :=
  {| fs := assoc_fs [ (HEROICONS_OUTLINE_DIR, Dir []) ];
     lucide_tags_json := None;
     tabler_icons_json := None;
     phosphor_module := None;
     mdi_meta_json := None;
     iconpark_icons_json := None;
     iconpark_lib := None |}.






Definition first_char (s : string) : option ascii :=
  match s with
  | "" => None
  | String c _ => Some c
  end.

(** No white space at either end. *)
Definition trimmed (s : string) : Prop :=
  (forall c, first_char s = Some c -> is_space c = false)
  /\ (forall c, last_char s = Some c -> is_space c = false).



(** [b] tells, by descending count, how many of [icons] carry each key. *)
Record breakdown_of (key : Icon -> string) (icons : list Icon)
  (b : list (string * nat)) : Prop :=
  { bd_keys : NoDup (map fst b);
    bd_counts :
      forall k n, In (k, n) b <->
        0 < n /\ n = List.length (filter (fun i => String.eqb (key i) k) icons);
    bd_sorted : StronglySorted (fun x y => snd y <= snd x) b;
    bd_total : list_sum (map snd b) = List.length icons }.

(** the record of an icon in the list of uncategorized icons *)
Definition uncategorized_entry (i : Icon) : Uncategorized :=
  {| unc_id := icon_id i; unc_name := icon_name i; unc_tags := icon_tags i |}.

(** the category of the icon is the string [c] *)
Definition in_category (c : string) (i : Icon) : bool :=
  match icon_category i with
  | VStr s => String.eqb s c
  | VInherited _ => false
  end.

Definition icon_styles : list string :=
  [ "outline"; "filled"; "solid"; "bold"; "sharp" ].

(** The style of the icon is one of the five styles, and its id starts
    with the id of its library. *)
Definition icon_shape (i : Icon) : Prop :=
  In (icon_type i) icon_styles
  /\ startsWith (icon_id i) (icon_library i ++ "/")%string = true.

(** The libraries whose files are copied under their own file names,
    and where they are read and written: the source directory, the
    start of the icon ids, and the output directory. *)
Definition mirrored_libraries : list string :=
  [ "lucide"; "tabler"; "heroicons"; "bootstrap"; "iconoir"; "mdi" ].

Definition mirrored_dirs : list (string * string * string) :=
  [ (LUCIDE_ICONS_DIR, "lucide", "build/icons/lucide");
    (TABLER_OUTLINE_DIR, "tabler/outline", "build/icons/tabler/outline");
    (TABLER_FILLED_DIR, "tabler/filled", "build/icons/tabler/filled");
    (HEROICONS_OUTLINE_DIR, "heroicons/outline", "build/icons/heroicons/outline");
    (HEROICONS_SOLID_DIR, "heroicons/solid", "build/icons/heroicons/solid");
    (BOOTSTRAP_ICONS_DIR, "bootstrap/outline", "build/icons/bootstrap/outline");
    (BOOTSTRAP_ICONS_DIR, "bootstrap/filled", "build/icons/bootstrap/filled");
    (ICONOIR_REGULAR_DIR, "iconoir/regular", "build/icons/iconoir/regular");
    (ICONOIR_SOLID_DIR, "iconoir/solid", "build/icons/iconoir/solid");
    (MDI_SVG_DIR, "mdi/outline", "build/icons/mdi/outline");
    (MDI_SVG_DIR, "mdi/filled", "build/icons/mdi/filled") ].

Definition copied_dirs : list string :=
  map (fun d => fst (fst d)) mirrored_dirs.

(** In those directories no SVG file has ".svg" inside its name, before
    the extension. *)
Definition plain_names (w : World) : Prop :=
  forall dir entries file,
    In dir copied_dirs -> fs w dir = Some (Dir entries) -> In file entries ->
    endsWith file ".svg" = true ->
    includes (stripSuffix ".svg" file) ".svg" = false.

(** The icon has been filed: if it is of one of those libraries, its id
    is the start the table gives with the name of the icon, and the run
    has written the cleaned copy of the source file of that name to the
    file of that name in the output directory. *)
Definition filed (w : World) (log : list effect) (i : Icon) : Prop :=
  In (icon_library i) mirrored_libraries ->
  exists src sub out name content,
    In (src, sub, out) mirrored_dirs
    /\ icon_id i = (sub ++ "/" ++ name)%string
    /\ fs w (path_join src (name ++ ".svg")) = Some (File content)
    /\ In (Wrote {| write_path := path_join out (name ++ ".svg");
                    write_data := cleanSvg content |}) log.

(** The icons collected before and the icons collected now have all
    been filed. *)
Definition all_filed (w : World) (acc icons : list Icon) (log : list effect) : Prop :=
  Forall (filed w log) (acc ++ icons).

(** The table yields [e] under [n] as one of its entries. *)
Definition yields {E : Type} (t : table E) (n : string) (e : E) : Prop :=
  own_get (own_entries t) "__proto__" = None
  /\ if String.eqb n "__proto__" then prototype t = Some e
     else own_get (own_entries t) n = Some e.

(** [m] writes nothing, and [F] holds of what it returns. *)
Definition pure {A : Type} (w : World) (m : Run A) (F : A -> Prop) : Prop :=
  forall log a log', m w log = Normal (a, log') -> log' = log /\ F a.

(** Started on a log that satisfies [P], [m] returns a result and a log
    that satisfy [Q]. *)
Definition triple {A : Type} (w : World) (P : list effect -> Prop)
  (m : Run A) (Q : A -> list effect -> Prop) : Prop :=
  forall log a log', P log -> m w log = Normal (a, log') -> Q a log'.


(** [F] holds of whatever [m] returns in the world [w]. *)
Definition result {A : Type} (w : World) (m : Run A) (F : A -> Prop) : Prop :=
  forall log a log', m w log = Normal (a, log') -> F a.

(** Every entry of the directory tree has a name. *)
Fixpoint named_tree (t : tree) : bool :=
  match t with
  | TFile => true
  | TDir sub => named_forest sub
  end
with named_forest (f : forest) : bool :=
  match f with
  | FNil => true
  | FCons entry t rest =>
      negb (String.eqb entry "") && named_tree t && named_forest rest
  end.

(** the R2 uploads of a run: bucket key and local file *)
Definition r2_puts (ups : list upload) : list (string * string) :=
  flat_map (fun u => match u with
                     | R2Put key file => [(key, file)]
                     | KvPut _ _ => []
                     end) ups.

(** The files the publisher is to upload: all of them, or with a
    library named after --lib those whose key starts with that library
    and a slash. *)
Definition wanted (args : list string) (s : SvgFile) : bool :=
  match libFilter args with
  | Some lib => String.eqb lib "" || startsWith (r2Key s) (lib ++ "/")
  | None => true
  end.

(** A build directory with an icon of Lucide, an icon of Tabler and the
    manifest. *)
Definition site_with_two_libraries : Site :=
  {| manifest_exists := true;
     manifest_parses := true;
     build_dir :=
       FCons "lucide" (TDir (FCons "sun.svg" TFile FNil))
         (FCons "manifest.json" TFile
            (FCons "tabler" (TDir (FCons "home.svg" TFile FNil)) FNil));
     upload_ok := fun _ => true |}.

(** What the publisher does with a file it selected. *)
Definition put_of (s : SvgFile) : string * string :=
  ((R2_BUCKET ++ "/" ++ r2Key s)%string, localPath s).

Definition is_awaiting {Item : Type} (w : worker Item) : bool :=
  match w with
  | Awaiting _ => true
  | _ => false
  end.

(** the number of uploads in flight *)
Definition awaiting {Item : Type} (s : pool Item) : nat :=
  List.length (filter is_awaiting (workers s)).

(** [s] holds one of the capital letters A to Z. *)
Fixpoint has_upper (s : string) : bool :=
  match s with
  | "" => false
  | String c s' => is_upper c || has_upper s'
  end.

(** [s] without its hyphens *)
Fixpoint unhyphenated (s : string) : string :=
  match s with
  | "" => ""
  | String c s' =>
      if Ascii.eqb c "-" then unhyphenated s' else String c (unhyphenated s')
  end.

(** [entry] is the last entry of the metadata that carries the name
    [name]. *)
Definition last_named (meta : list MdiEntry) (name : string) (entry : MdiEntry)
  : Prop :=
  exists before after,
    meta = before ++ entry :: after
    /\ mdi_name entry = name
    /\ Forall (fun e => mdi_name e <> name) after.

(** What the guards of three adapters keep out of the icons: brand
    logos of Ionicons, deprecated icons of Material Design Icons, and
    the tag "*new*" of Phosphor. *)
Definition guarded (w : World) (i : Icon) : Prop :=
  (icon_library i = "ionicons" ->
   exists name,
     icon_id i = ("ionicons/" ++ icon_type i ++ "/" ++ name)%string
     /\ startsWith name "logo-" = false)
  /\ (icon_library i = "mdi" ->
      exists name,
        icon_id i = ("mdi/" ++ icon_type i ++ "/" ++ name)%string
        /\ forall meta entry,
             mdi_meta_json w = Some meta ->
             last_named meta name entry ->
             mdi_deprecated entry = false)
  /\ (icon_library i = "phosphor" ->
      exists tags, icon_tags i = TagsArray tags /\ ~ In "*new*" tags).

(** Ionicons alone is installed: a brand logo and one icon. *)
Definition ionicons_world : World :=
  {| fs := assoc_fs
       [ (IONICONS_SVG_DIR, Dir ["logo-github.svg"; "star-outline.svg"]);
         (path_join IONICONS_SVG_DIR "logo-github.svg", File "<svg/>");
         (path_join IONICONS_SVG_DIR "star-outline.svg", File "<svg/>") ];
     lucide_tags_json := None;
     tabler_icons_json := None;
     phosphor_module := None;
     mdi_meta_json := None;
     iconpark_icons_json := None;
     iconpark_lib := None |}.

(** The name alone decides the category: it has an override of its
    own, it is the name of a member every object inherits, or it holds a
    keyword of some category, or starts with one without its final
    hyphen. *)
Definition name_decides (name : string) : Prop :=
  (exists category, In (name, category) NAME_OVERRIDES)
  \/ In name object_prototype_keys
  \/ (exists category keywords keyword,
        In (category, keywords) CATEGORY_KEYWORDS
        /\ In keyword keywords
        /\ (includes name keyword = true
            \/ startsWith name (stripSuffix "-" keyword) = true)).

(** The character before position [i] of [s] is a letter, a digit or
    an underscore. *)
Definition after_word_char (s : string) (i : nat) : bool :=
  match i with
  | O => false
  | S j => match String.get j s with
           | Some c => is_word c
           | None => false
           end
  end.

(** A segment that [path.join] keeps as a name. *)
Definition ordinary (seg : string) : bool :=
  negb (String.eqb seg "" || String.eqb seg "." || String.eqb seg "..").

(** The paths the adapters start from: the source directories they
    probe and list, and the metadata file of IconPark. *)
Definition source_roots : list string :=
  [ LUCIDE_ICONS_DIR;
    TABLER_OUTLINE_DIR; TABLER_FILLED_DIR; TABLER_CATEGORIES_DIR;
    HEROICONS_OUTLINE_DIR; HEROICONS_SOLID_DIR;
    PHOSPHOR_ASSETS_DIR;
    path_join PHOSPHOR_ASSETS_DIR "regular";
    path_join PHOSPHOR_ASSETS_DIR "bold";
    path_join PHOSPHOR_ASSETS_DIR "fill";
    BOOTSTRAP_ICONS_DIR;
    ICONOIR_REGULAR_DIR; ICONOIR_SOLID_DIR;
    REMIX_ICONS_DIR; FLUENT_ICONS_DIR; MDI_SVG_DIR; IONICONS_SVG_DIR;
    ICONPARK_META_FILE ].

(** The paths of the source directories in a world: the paths the
    adapters start from, and the entries of the directories among
    them. *)
Inductive in_sources (w : World) : string -> Prop :=
| source_root (p : string) : In p source_roots -> in_sources w p
| source_entry (dir : string) (entries : list string) (entry : string) :
    in_sources w dir -> fs w dir = Some (Dir entries) -> In entry entries ->
    in_sources w (path_join dir entry).

(** Two worlds with identical source directories and metadata files:
    the same listings, in the same order, the same file contents, the
    same parsed metadata and the same rendering functions.  Elsewhere,
    and so in the output tree, the two may differ. *)
Definition same_sources (w1 w2 : World) : Prop :=
  (forall p, in_sources w1 p -> fs w1 p = fs w2 p)
  /\ lucide_tags_json w1 = lucide_tags_json w2
  /\ tabler_icons_json w1 = tabler_icons_json w2
  /\ phosphor_module w1 = phosphor_module w2
  /\ mdi_meta_json w1 = mdi_meta_json w2
  /\ iconpark_icons_json w1 = iconpark_icons_json w2
  /\ iconpark_lib w1 = iconpark_lib w2.

(** The output directories of IconPark, and a world in which no file
    stands where one of them, or a directory on the way to it, is to be
    made. *)
Definition iconpark_dirs : list string :=
  map (fun th => path_join (path_join OUTPUT_DIR "iconpark") (snd th))
      iconpark_themes.

Definition unobstructed (w : World) : Prop :=
  forall dir p content,
    In dir iconpark_dirs -> In p (ancestors dir) -> fs w p <> Some (File content).

(** The files written so far are SVG files and JSON documents. *)
Definition tidy (log : list effect) : Prop :=
  Forall (fun p => endsWith p ".svg" = true \/ endsWith p ".json" = true)
         (written_paths log).

(** When [m] returns in both worlds it returns the same value, of which
    [F] holds. *)
Definition agree {A : Type} (w1 w2 : World) (m : Run A) (F : A -> Prop) : Prop :=
  forall la lb a b la' lb',
    tidy la -> tidy lb ->
    m w1 la = Normal (a, la') -> m w2 lb = Normal (b, lb') ->
    a = b /\ F a /\ tidy la' /\ tidy lb'.

(** [m] throws in both worlds or returns the same value in both. *)
Definition sync {A : Type} (w1 w2 : World) (m : Run A) : Prop :=
  forall la lb,
    tidy la -> tidy lb ->
    match m w1 la, m w2 lb with
    | Normal (a, la'), Normal (b, lb') => a = b /\ tidy la' /\ tidy lb'
    | Throws _, Throws _ => True
    | _, _ => False
    end.

(** The manifest with another time of generation. *)
Definition at_time (now : string) (m : Manifest) : Manifest :=
  {| version := version m;
     generated := now;
     icons := icons m;
     categories := categories m;
     libraries := libraries m |}.

(** IconPark alone is installed, with one icon.  The text of the
    metadata file stands for the JSON of the array below: a run takes
    from [fs] that the file is there, and its parsed content from
    [iconpark_icons_json]. *)
Definition iconpark_world : World :=
  {| fs := assoc_fs [ (ICONPARK_META_FILE, File "[ home ]") ];
     lucide_tags_json := None;
     tabler_icons_json := None;
     phosphor_module := None;
     mdi_meta_json := None;
     iconpark_icons_json :=
       Some [ {| iconpark_name := "home"; iconpark_category := "Base" |} ];
     iconpark_lib :=
       Some [ ("Home", ExportFunction (fun _ => RenderString "<svg/>")) ] |}.

(** The same sources, and an output directory in which a file has the
    name of the directory of IconPark. *)
Definition iconpark_world_obstructed : World :=
  {| fs := assoc_fs [ (ICONPARK_META_FILE, File "[ home ]");
                      ("build", Dir ["icons"]);
                      ("build/icons", Dir ["iconpark"]);
                      ("build/icons/iconpark", File "") ];
     lucide_tags_json := None;
     tabler_icons_json := None;
     phosphor_module := None;
     mdi_meta_json := None;
     iconpark_icons_json :=
       Some [ {| iconpark_name := "home"; iconpark_category := "Base" |} ];
     iconpark_lib :=
       Some [ ("Home", ExportFunction (fun _ => RenderString "<svg/>")) ] |}.

(** The same sources, and an output directory in which a directory has
    the name of the manifest. *)
Definition iconpark_world_blocked : World :=
  {| fs := assoc_fs [ (ICONPARK_META_FILE, File "[ home ]");
                      ("build", Dir ["icons"]);
                      ("build/icons", Dir ["manifest.json"]);
                      ("build/icons/manifest.json", Dir []) ];
     lucide_tags_json := None;
     tabler_icons_json := None;
     phosphor_module := None;
     mdi_meta_json := None;
     iconpark_icons_json :=
       Some [ {| iconpark_name := "home"; iconpark_category := "Base" |} ];
     iconpark_lib :=
       Some [ ("Home", ExportFunction (fun _ => RenderString "<svg/>")) ] |}.

(** The sources of [remix_world], and the output an earlier build of
    other icons has left. *)
Definition remix_world_rebuilt : World :=
  {| fs := assoc_fs
       [ ("build", Dir ["icons"]);
         ("build/icons", Dir ["remix"; "manifest.json"]);
         ("build/icons/manifest.json", File "{}");
         ("build/icons/remix", Dir ["outline"]);
         ("build/icons/remix/outline", Dir ["seedling.svg"; "old.svg"]);
         ("build/icons/remix/outline/seedling.svg", File "<svg>old</svg>");
         ("build/icons/remix/outline/old.svg", File "<svg/>");
         (REMIX_ICONS_DIR, Dir ["Arrows"; "Others"; "README.md"]);
         (path_join REMIX_ICONS_DIR "Arrows",
          Dir ["arrow-up-fill.svg"; "arrow-up-line.svg"]);
         (path_join REMIX_ICONS_DIR "Others", Dir ["seedling.svg"; "notes.txt"]);
         (path_join REMIX_ICONS_DIR "README.md", File "");
         (path_join (path_join REMIX_ICONS_DIR "Arrows") "arrow-up-fill.svg",
          File ("<!-- fill -->" ++ newline ++ "<svg><path/></svg>" ++ newline));
         (path_join (path_join REMIX_ICONS_DIR "Arrows") "arrow-up-line.svg",
          File "<svg><line/></svg>");
         (path_join (path_join REMIX_ICONS_DIR "Others") "seedling.svg",
          File "<svg/>") ];
     lucide_tags_json := None;
     tabler_icons_json := None;
     phosphor_module := None;
     mdi_meta_json := None;
     iconpark_icons_json := None;
     iconpark_lib := None |}.

(** * Properties *)

(** ** Lookups *)

Lemma own_get_In {V : Type} (o : list (string * V)) (k : string) (v : V) :
  own_get o k = Some v -> In (k, v) o.
Proof.
  induction o as [|[k' v'] o IH]; simpl; [discriminate|].
  destruct (String.eqb_spec k' k) as [->|_].
  - intros [= ->]. now left.
  - intro H. right. auto.
Qed.

Lemma scanName_In (table : list (string * list string)) (name c : string) :
  scanName table name = Some c -> In c (map fst table).
Proof.
  induction table as [|[category keywords] table IH]; simpl; [discriminate|].
  destruct (existsb (name_hit name) keywords).
  - intros [= ->]. now left.
  - intro H. right. auto.
Qed.

Lemma scanTags_In (table : list (string * list string)) (tags : list string)
  (c : string) :
  scanTags table tags = Some c -> In c (map fst table).
Proof.
  induction table as [|[category keywords] table IH]; simpl; [discriminate|].
  destruct (existsb (tags_hit tags) keywords).
  - intros [= ->]. now left.
  - intro H. right. auto.
Qed.

Lemma is_category_id_In (c : string) :
  is_category_id c = true <-> In c category_ids.
Proof.
  unfold is_category_id. rewrite existsb_exists. split.
  - intros (x & Hin & Heq). apply String.eqb_eq in Heq. now subst.
  - intro H. exists c. split; [assumption | apply String.eqb_refl].
Qed.

Lemma table_ok_get (table : list (string * string)) (k v : string) :
  table_ok table = true -> own_get table k = Some v ->
  In v category_ids /\ v <> "".
Proof.
  intros Hok Hget. apply own_get_In in Hget.
  unfold table_ok in Hok. rewrite forallb_forall in Hok.
  specialize (Hok _ Hget). simpl in Hok.
  apply andb_true_iff in Hok as [H1 H2].
  split; [now apply is_category_id_In|].
  intros ->. discriminate.
Qed.

Lemma keyword_categories_ok :
  forall c, In c (map fst CATEGORY_KEYWORDS) -> In c category_ids.
Proof.
  intros c H. apply is_category_id_In.
  assert (Hall : forallb is_category_id (map fst CATEGORY_KEYWORDS) = true)
    by (vm_compute; reflexivity).
  rewrite forallb_forall in Hall. auto.
Qed.

Lemma obj_get_plain {V : Type} (o : list (string * V)) (k : string) :
  is_prototype_key k = false ->
  obj_get o k = match own_get o k with Some v => Own v | None => Undefined end.
Proof. intro H. unfold obj_get. rewrite H. reflexivity. Qed.

(** ** The categorizer *)

(** On a name that is not the name of an inherited member, with a tag
    list that is null, undefined or an array, the categorizer returns one
    of the twenty category ids and does not throw. *)
Lemma categorize_plain_name (name : string) (tags : jstags) :
  is_prototype_key name = false ->
  (forall k, tags <> TagsInherited k) ->
  exists c, In c category_ids /\ categorizeByKeywords name tags = Normal (VStr c).
Proof.
  intros Hname Htags. unfold categorizeByKeywords.
  rewrite (obj_get_plain _ _ Hname).
  destruct (own_get NAME_OVERRIDES name) as [v|] eqn:Hov; cbn [truthy].
  - destruct (table_ok_get NAME_OVERRIDES name v) as [Hin Hne];
      [vm_compute; reflexivity | assumption |].
    apply String.eqb_neq in Hne. rewrite Hne. exists v. split; [assumption | reflexivity].
  - destruct (scanName CATEGORY_KEYWORDS name) as [c|] eqn:Hscan.
    + exists c. split; [|reflexivity].
      apply keyword_categories_ok. eapply scanName_In; eassumption.
    + assert (Hmisc : In "misc" category_ids)
        by (apply is_category_id_In; vm_compute; reflexivity).
      destruct tags as [|l|k].
      * eauto.
      * destruct (scanTags CATEGORY_KEYWORDS l) as [c|] eqn:Htag.
        -- exists c. split; [|reflexivity].
           apply keyword_categories_ok. eapply scanTags_In; eassumption.
        -- eauto.
      * exfalso. now apply (Htags k).
Qed.

(** C1 (evaluation at the failing input): for the icon name
    "constructor" the lookup in NAME_OVERRIDES finds the member that
    every object inherits, so the categorizer returns that member, which
    is none of the twenty category ids; the same happens, whatever the
    tags, for each of the twelve member names of [Object.prototype]. *)
Theorem categorize_returns_inherited_member :
  categorizeByKeywords "constructor" (TagsArray []) = Normal (VInherited "constructor")
  /\ ~ (exists c, In c category_ids /\
                  categorizeByKeywords "constructor" (TagsArray []) = Normal (VStr c))
  /\ Forall (fun key => forall tags,
                categorizeByKeywords key tags = Normal (VInherited key))
            object_prototype_keys.
Proof.
  split; [reflexivity|]. split.
  - intros (c & _ & H). vm_compute in H. discriminate.
  - repeat constructor.
Qed.

(** C3: [categorizeByKeywords('cloud-download', [])] is 'infrastructure'
    and [categorizeByKeywords('eye-off', [])] is 'actions', although the
    keyword scan alone gives 'files' and 'people'; and whenever a name
    has an entry of its own in NAME_OVERRIDES, that entry is the result,
    whatever the tags and the keyword tables say. *)
Theorem name_overrides_take_precedence :
  categorizeByKeywords "cloud-download" (TagsArray []) = Normal (VStr "infrastructure")
  /\ categorizeByKeywords "eye-off" (TagsArray []) = Normal (VStr "actions")
  /\ scanName CATEGORY_KEYWORDS "cloud-download" = Some "files"
  /\ scanName CATEGORY_KEYWORDS "eye-off" = Some "people"
  /\ (forall name tags category,
        own_get NAME_OVERRIDES name = Some category ->
        categorizeByKeywords name tags = Normal (VStr category)).
Proof.
  split; [vm_compute; reflexivity|].
  split; [vm_compute; reflexivity|].
  split; [vm_compute; reflexivity|].
  split; [vm_compute; reflexivity|].
  intros name tags category Hget.
  destruct (table_ok_get NAME_OVERRIDES name category) as [_ Hne];
    [vm_compute; reflexivity | assumption |].
  unfold categorizeByKeywords, obj_get. rewrite Hget. cbn [truthy].
  apply String.eqb_neq in Hne. rewrite Hne. reflexivity.
Qed.

Lemma name_overrides_take_precedence_witness :
  own_get NAME_OVERRIDES "scan-barcode" = Some "commerce"
  /\ categorizeByKeywords "scan-barcode" (TagsArray ["security"]) = Normal (VStr "commerce").
Proof.
  split; [reflexivity|].
  apply (proj2 (proj2 (proj2 (proj2 name_overrides_take_precedence)))).
  reflexivity.
Defined.

(** ** Strings *)

Lemma length_append (a b : string) :
  String.length (a ++ b) = String.length a + String.length b.
Proof. induction a; simpl; congruence. Qed.

Lemma eqb_cons_append_false (c : ascii) (n p : string) :
  String.eqb (String c (n ++ p)) p = false.
Proof.
  apply String.eqb_neq. intro H.
  apply (f_equal String.length) in H. simpl in H.
  rewrite length_append in H. lia.
Qed.

(** An anchored strip undoes the appending of its suffix. *)
Lemma stripSuffix_append (p name : string) :
  stripSuffix p (name ++ p) = name.
Proof.
  induction name as [|c n IH]; cbn [stripSuffix append].
  - destruct p; cbn [stripSuffix]; now rewrite String.eqb_refl.
  - rewrite eqb_cons_append_false. now rewrite IH.
Qed.

Lemma endsWith_append (p name : string) : endsWith (name ++ p) p = true.
Proof.
  induction name as [|c n IH]; cbn [endsWith append].
  - destruct p; cbn [endsWith]; now rewrite String.eqb_refl.
  - rewrite eqb_cons_append_false. exact IH.
Qed.

Lemma endsWith_split (s p : string) :
  endsWith s p = true -> exists pre, s = (pre ++ p)%string.
Proof.
  induction s as [|c s IH]; cbn [endsWith].
  - destruct (String.eqb_spec "" p) as [<-|]; [|discriminate].
    intros _. now exists "".
  - destruct (String.eqb_spec (String c s) p) as [<-|_].
    + intros _. now exists "".
    + intro H. destruct (IH H) as [pre ->]. now exists (String c pre).
Qed.

(** A string that does not end with the suffix is left as it is. *)
Lemma stripSuffix_no_suffix (p s : string) :
  p <> "" -> endsWith s p = false -> stripSuffix p s = s.
Proof.
  intro Hp. induction s as [|c s IH]; cbn [stripSuffix endsWith].
  - now destruct (String.eqb "" p).
  - destruct (String.eqb (String c s) p); [discriminate|].
    intro H. now rewrite IH.
Qed.

Lemma last_char_append (a s : string) :
  s <> "" -> last_char (a ++ s) = last_char s.
Proof.
  intro Hs. induction a as [|c a IH]; simpl; [reflexivity|].
  rewrite IH. destruct s as [|d s]; [congruence|].
  simpl. now destruct (last_char s).
Qed.

(** Two suffixes with different last characters exclude each other. *)
Lemma endsWith_other_suffix (name s p : string) :
  s <> "" -> p <> "" -> last_char s <> last_char p ->
  endsWith (name ++ s) p = false.
Proof.
  intros Hs Hp Hlast.
  destruct (endsWith (name ++ s) p) eqn:E; [|reflexivity].
  apply endsWith_split in E as [pre E].
  apply (f_equal last_char) in E.
  rewrite !last_char_append in E by assumption. contradiction.
Qed.

Lemma prefix_refl (p : string) : prefix p p = true.
Proof.
  induction p as [|c p IH]; simpl; [reflexivity|].
  destruct (ascii_dec c c); [assumption | congruence].
Qed.

Lemma drop_length (p : string) : drop (String.length p) p = "".
Proof. induction p; simpl; auto. Qed.

Lemma replaceFirst_unfold (p r s : string) :
  replaceFirst p r s =
  if prefix p s then (r ++ drop (String.length p) s)%string
  else match s with
       | "" => ""
       | String c s' => String c (replaceFirst p r s')
       end.
Proof. destruct s; reflexivity. Qed.

Lemma includes_unfold (s p : string) :
  includes s p =
  if prefix p s then true
  else match s with
       | "" => false
       | String _ s' => includes s' p
       end.
Proof. destruct s; reflexivity. Qed.

Ltac prefix_cases :=
  repeat match goal with
    | H : context [ascii_dec ?a ?b] |- _ =>
        destruct (ascii_dec a b); subst; try discriminate
    | |- context [ascii_dec ?a ?b] =>
        destruct (ascii_dec a b); subst; try discriminate
    end.

Lemma unbordered_bold : unbordered "-bold".
Proof.
  intros x Hne H.
  destruct x as [|c1 [|c2 [|c3 [|c4 [|c5 x]]]]]; try congruence;
    cbn [prefix append] in *; prefix_cases; try reflexivity; try congruence.
  destruct x; discriminate.
Qed.

Lemma unbordered_fill : unbordered "-fill".
Proof.
  intros x Hne H.
  destruct x as [|c1 [|c2 [|c3 [|c4 [|c5 x]]]]]; try congruence;
    cbn [prefix append] in *; prefix_cases; try reflexivity; try congruence.
  destruct x; discriminate.
Qed.

(** Removing the first occurrence undoes the appending when the name
    holds no occurrence of its own. *)
Lemma replaceFirst_append (p name : string) :
  unbordered p -> includes name p = false ->
  replaceFirst p "" (name ++ p) = name.
Proof.
  intros Hp. induction name as [|c n IH]; intro Hinc.
  - cbn [append]. rewrite replaceFirst_unfold, prefix_refl, drop_length.
    reflexivity.
  - rewrite includes_unfold in Hinc.
    destruct (prefix p (String c n)) eqn:Hpre; [discriminate|].
    rewrite replaceFirst_unfold.
    rewrite (Hp (String c n)) by (assumption || discriminate).
    cbn [append]. now rewrite (IH Hinc).
Qed.

Lemma replaceFirst_absent (p r s : string) :
  includes s p = false -> replaceFirst p r s = s.
Proof.
  induction s as [|c s IH]; intro H; rewrite includes_unfold in H;
    rewrite replaceFirst_unfold;
    destruct (prefix p _); try discriminate; [reflexivity|].
  now rewrite (IH H).
Qed.

(** ** Style suffixes *)

(** C4 (counterexample): with the base name "star-fill", the Bootstrap
    strip applied twice to "star-fill-fill" gives "star", not what one
    application gives; and the Phosphor strip of
    "text-bold-italic-bold" is not "text-bold-italic". *)
Lemma strip_suffix_counterexample :
  bootstrapBaseName (bootstrapBaseName ("star-fill" ++ "-fill"))
    <> bootstrapBaseName ("star-fill" ++ "-fill")
  /\ phosphorStrip "-bold" ("text-bold-italic" ++ "-bold") <> "text-bold-italic".
Proof. split; vm_compute; discriminate. Qed.

(** C4 (amended): for every base name, appending a style suffix and
    applying the strip of Bootstrap (-fill), Remix Icon (-fill, -line),
    Material Design Icons (-outline) or Ionicons (-outline, -sharp)
    gives the base name back, and so does Phosphor's removal of -bold or
    -fill when the base name holds no occurrence of that suffix; a
    second application changes nothing when the base name does not
    itself end with (for Phosphor: hold) a suffix the adapter strips. *)
Theorem strip_suffix_round_trip (name : string) :
  (bootstrapBaseName (name ++ "-fill") = name
   /\ remixSplit (name ++ "-fill") = ("filled", name)
   /\ remixSplit (name ++ "-line") = ("outline", name)
   /\ mdiBaseName (name ++ "-outline") = name
   /\ ioniconsSplit (name ++ "-outline") = ("outline", name)
   /\ ioniconsSplit (name ++ "-sharp") = ("sharp", name))
  /\ ((includes name "-bold" = false ->
       phosphorStrip "-bold" (name ++ "-bold") = name
       /\ phosphorStrip "-bold" (phosphorStrip "-bold" (name ++ "-bold")) = name)
      /\ (includes name "-fill" = false ->
          phosphorStrip "-fill" (name ++ "-fill") = name
          /\ phosphorStrip "-fill" (phosphorStrip "-fill" (name ++ "-fill")) = name))
  /\ ((endsWith name "-fill" = false ->
       bootstrapBaseName (bootstrapBaseName (name ++ "-fill")) = name)
      /\ (endsWith name "-fill" = false -> endsWith name "-line" = false ->
          snd (remixSplit (snd (remixSplit (name ++ "-fill")))) = name
          /\ snd (remixSplit (snd (remixSplit (name ++ "-line")))) = name)
      /\ (endsWith name "-outline" = false ->
          mdiBaseName (mdiBaseName (name ++ "-outline")) = name)
      /\ (endsWith name "-outline" = false -> endsWith name "-sharp" = false ->
          snd (ioniconsSplit (snd (ioniconsSplit (name ++ "-outline")))) = name
          /\ snd (ioniconsSplit (snd (ioniconsSplit (name ++ "-sharp")))) = name)).
Proof.
  assert (Hbf : bootstrapBaseName (name ++ "-fill") = name)
    by apply stripSuffix_append.
  assert (Hrf : remixSplit (name ++ "-fill") = ("filled", name)).
  { unfold remixSplit. now rewrite endsWith_append, stripSuffix_append. }
  assert (Hrl : remixSplit (name ++ "-line") = ("outline", name)).
  { unfold remixSplit.
    rewrite (endsWith_other_suffix name "-line" "-fill")
      by (cbn; congruence).
    now rewrite endsWith_append, stripSuffix_append. }
  assert (Hmo : mdiBaseName (name ++ "-outline") = name).
  { unfold mdiBaseName. now rewrite endsWith_append, stripSuffix_append. }
  assert (Hio : ioniconsSplit (name ++ "-outline") = ("outline", name)).
  { unfold ioniconsSplit. now rewrite endsWith_append, stripSuffix_append. }
  assert (His : ioniconsSplit (name ++ "-sharp") = ("sharp", name)).
  { unfold ioniconsSplit.
    rewrite (endsWith_other_suffix name "-sharp" "-outline")
      by (cbn; congruence).
    now rewrite endsWith_append, stripSuffix_append. }
  split; [tauto|]. split; [split|].
  - intro H. unfold phosphorStrip.
    rewrite (replaceFirst_append "-bold" name unbordered_bold H).
    split; [reflexivity | now apply replaceFirst_absent].
  - intro H. unfold phosphorStrip.
    rewrite (replaceFirst_append "-fill" name unbordered_fill H).
    split; [reflexivity | now apply replaceFirst_absent].
  - repeat split.
    + intro H. rewrite Hbf. apply stripSuffix_no_suffix; [discriminate | assumption].
    + rewrite Hrf. cbn [snd]. unfold remixSplit. now rewrite H, H0.
    + rewrite Hrl. cbn [snd]. unfold remixSplit. now rewrite H, H0.
    + intro H. rewrite Hmo. unfold mdiBaseName. now rewrite H.
    + rewrite Hio. cbn [snd]. unfold ioniconsSplit. now rewrite H, H0.
    + rewrite His. cbn [snd]. unfold ioniconsSplit. now rewrite H, H0.
Qed.

Lemma strip_suffix_round_trip_witness :
  includes "acorn" "-bold" = false
  /\ endsWith "acorn" "-fill" = false
  /\ phosphorStrip "-bold" ("acorn" ++ "-bold") = "acorn"
  /\ bootstrapBaseName (bootstrapBaseName ("acorn" ++ "-fill")) = "acorn".
Proof.
  split; [reflexivity|]. split; [reflexivity|]. split.
  - apply (proj1 (proj2 (strip_suffix_round_trip "acorn"))). reflexivity.
  - apply (proj1 (proj2 (proj2 (strip_suffix_round_trip "acorn")))). reflexivity.
Defined.

(** ** Comment stripping *)

Lemma drop_nil (k : nat) : drop k "" = "".
Proof. now destruct k. Qed.



Lemma removeMatches_skip (m : string -> option nat) (k : nat) (s : string) :
  removeMatches m k s = removeMatches m 0 (drop k s).
Proof.
  revert k. induction s as [|c s IH]; intro k.
  - now rewrite drop_nil.
  - destruct k as [|k]; [reflexivity|]. cbn [removeMatches drop]. apply IH.
Qed.

Lemma comment_match_long (s : string) (n : nat) :
  comment_match s = Some n -> 1 <= n.
Proof.
  unfold comment_match. destruct (prefix "<!--" s); [|discriminate].
  destruct (indexOf (drop 4 s) "-->"); [|discriminate].
  intros [= <-]. destruct (prefix newline _); lia.
Qed.

(** One step of the scan. *)
Lemma stripComments_unfold (s : string) :
  stripComments s =
  match s with
  | "" => ""
  | String c s' =>
      match comment_match s with
      | Some n => stripComments (drop n s)
      | None => String c (stripComments s')
      end
  end.
Proof.
  unfold stripComments. destruct s as [|c s']; [reflexivity|].
  cbn [removeMatches].
  destruct (comment_match (String c s')) as [n|] eqn:E; [|reflexivity].
  apply comment_match_long in E. rewrite removeMatches_skip.
  destruct n as [|n]; [lia|]. cbn [drop].
  now replace (S n - 1) with n by lia.
Qed.









Lemma prefix_nil (x : string) : prefix "" x = true.
Proof. now destruct x. Qed.








Lemma prefix_append (p a b : string) :
  prefix p a = true -> prefix p (a ++ b) = true.
Proof.
  revert p. induction a as [|c a IH]; intros p H.
  - destruct p; [apply prefix_nil | discriminate].
  - destruct p as [|d p]; [reflexivity|]. cbn [prefix append] in *.
    destruct (ascii_dec d c); [auto | discriminate].
Qed.








(** ** Adapters and a missing library *)

Lemma processors_all : processors = map processor all_libraries.
Proof. reflexivity. Qed.

Lemma for_of_app {A S : Type} (xs ys : list A) (body : A -> S -> Run S)
  (s : S) (w : World) (log : list effect) :
  for_of (xs ++ ys) body s w log =
  match for_of xs body s w log with
  | Normal (s', log') => for_of ys body s' w log'
  | Throws e => Throws e
  end.
Proof.
  revert s log. induction xs as [|x xs IH]; intros s log; [reflexivity|].
  cbn [for_of app]. unfold bind.
  destruct (body x s w log) as [[s' log']|e]; [apply IH | reflexivity].
Qed.

Lemma processor_absent (l : Library) (w : World) (log : list effect) :
  fs w (source_path l) = None -> processor l w log = Normal ([], log).
Proof.
  intro H.
  destruct l; cbn [source_path processor] in *;
    match goal with |- ?p w log = _ => unfold p end;
    unfold bind at 1; unfold existsSync; rewrite H; reflexivity.
Qed.

Lemma collects_in_order (w : World) (ps : list (Run (list Icon)))
  (s : list Icon) (log : list effect) (icons : list Icon) (log' : list effect) :
  runs_in_order w ps log icons log' ->
  for_of ps (fun p icons => more <- p ;; ret (icons ++ more)) s w log
  = Normal (s ++ icons, log').
Proof.
  intro H. revert s.
  induction H as [log|p ps log log1 log2 icons1 icons2 Hp _ IH]; intro s.
  - cbn [for_of]. unfold ret. now rewrite app_nil_r.
  - cbn [for_of]. unfold bind at 1 2. rewrite Hp. unfold ret at 1.
    rewrite IH. now rewrite app_assoc.
Qed.

Lemma collected_in_order (w : World) (ps : list (Run (list Icon)))
  (s : list Icon) (log : list effect) (all : list Icon) (log' : list effect) :
  for_of ps (fun p icons => more <- p ;; ret (icons ++ more)) s w log
  = Normal (all, log') ->
  exists icons, all = s ++ icons /\ runs_in_order w ps log icons log'.
Proof.
  revert s log. induction ps as [|p ps IH]; intros s log H.
  - injection H as <- <-. exists []. split; [now rewrite app_nil_r | constructor].
  - cbn [for_of] in H. unfold bind at 1 2 in H.
    destruct (p w log) as [[more log1]|e] eqn:E; [|discriminate].
    unfold ret at 1 in H. destruct (IH _ _ H) as (icons & -> & Hrest).
    exists (more ++ icons). split; [now rewrite app_assoc|].
    econstructor; eassumption.
Qed.

(** [runAll] returns exactly when the adapters return one after the
    other, and then what they return, in order. *)
Lemma runAll_in_order (w : World) (ps : list (Run (list Icon)))
  (log : list effect) (icons : list Icon) (log' : list effect) :
  runAll ps w log = Normal (icons, log') <-> runs_in_order w ps log icons log'.
Proof.
  unfold runAll. split.
  - intro H. apply collected_in_order in H as (icons' & -> & H). exact H.
  - intro H. now rewrite (collects_in_order w ps [] log icons log' H).
Qed.

Lemma runs_in_order_app (w : World) (ps qs : list (Run (list Icon)))
  (log log1 log2 : list effect) (icons1 icons2 : list Icon) :
  runs_in_order w ps log icons1 log1 ->
  runs_in_order w qs log1 icons2 log2 ->
  runs_in_order w (ps ++ qs) log (icons1 ++ icons2) log2.
Proof.
  intros H1 H2. induction H1 as [log|p ps log la lb i1 i2 Hp _ IH].
  - exact H2.
  - cbn [app]. rewrite <- app_assoc. econstructor; [exact Hp | now apply IH].
Qed.

Lemma made_dirs_app (a b : list effect) :
  made_dirs (a ++ b) = made_dirs a ++ made_dirs b.
Proof. apply flat_map_app. Qed.

Lemma written_paths_app (a b : list effect) :
  written_paths (a ++ b) = written_paths a ++ written_paths b.
Proof. apply flat_map_app. Qed.


(** Writing a file makes no directory. *)
Lemma is_dir_written (w : World) (log : list effect) (e : effect) (q : string) :
  (forall p, e <> MadeDir p) -> is_dir w (log ++ [e]) q = is_dir w log q.
Proof.
  intro He. unfold is_dir. rewrite made_dirs_app.
  destruct e as [p|wr|p doc]; [now elim (He p)| |];
    cbn [made_dirs flat_map]; now rewrite app_nil_r.
Qed.

Lemma write_error_written (w : World) (log : list effect) (e : effect)
  (p : string) :
  (forall q, e <> MadeDir q) ->
  write_error w log p = None -> write_error w (log ++ [e]) p = None.
Proof.
  intros He H. unfold write_error in *. rewrite !(is_dir_written w log e _ He).
  destruct (is_dir w log p); [discriminate|].
  destruct (is_dir w log (dirname p)); [reflexivity|].
  destruct (existsb _ _); discriminate.
Qed.

(** When the adapters have returned and the documents can be written,
    [main] returns the outputs built from the icons collected. *)
Lemma main_returns (now : string) (w : World) (log0 : list effect)
  (allIcons : list Icon) (log : list effect) :
  runAll processors w log0 = Normal (allIcons, log) ->
  outputs_writable w log ->
  ProcessIcons.main now w log0
  = Normal (buildOutputs now allIcons, log ++ json_writes).
Proof.
  intros Hrun Hw. unfold ProcessIcons.main. unfold bind at 1. rewrite Hrun.
  assert (H1 := Hw _ _ (or_introl eq_refl)).
  assert (H2 := Hw _ _ (or_intror (or_introl eq_refl))).
  assert (H3 := Hw _ _ (or_intror (or_intror (or_introl eq_refl)))).
  cbv zeta. unfold bind at 1, writeJsonSync at 1. rewrite H1.
  apply (write_error_written w log (WroteJson (path_join OUTPUT_DIR "manifest.json")
                                      ManifestJson)) in H2; [|discriminate].
  apply (write_error_written w log (WroteJson (path_join OUTPUT_DIR "manifest.json")
                                      ManifestJson)) in H3; [|discriminate].
  unfold bind at 1, writeJsonSync at 1. rewrite H2.
  apply (write_error_written w _ (WroteJson (path_join OUTPUT_DIR "libraries.json")
                                    LibrariesJson)) in H3; [|discriminate].
  unfold bind at 1, writeJsonSync at 1. rewrite H3.
  unfold ret, json_writes. now rewrite <- !app_assoc.
Qed.

(** What a run that ends has done: the adapters have returned the icons
    of the outputs, and then the three documents were written. *)
Lemma run_main_outputs (now : string) (w : World) (out : Outputs)
  (log : list effect) :
  run_main now w = Normal (out, log) ->
  exists allIcons log1,
    runAll processors w [] = Normal (allIcons, log1)
    /\ out = buildOutputs now allIcons
    /\ log = log1 ++ json_writes.
Proof.
  unfold run_main, ProcessIcons.main. unfold bind at 1. intro H.
  destruct (runAll processors w []) as [[allIcons log1]|e]; [|discriminate].
  cbv zeta in H. unfold bind, writeJsonSync, ret in H.
  destruct (write_error w log1 _); [discriminate|].
  destruct (write_error w (log1 ++ [_]) _); [discriminate|].
  destruct (write_error w ((log1 ++ [_]) ++ [_]) _); [discriminate|].
  injection H as <- <-. exists allIcons, log1.
  split; [reflexivity|]. split; [reflexivity|].
  unfold json_writes. now rewrite <- !app_assoc.
Qed.

(** C8: an adapter whose source path is absent returns the empty icon
    sequence and leaves the disk as it is, and the run goes on past it:
    when the adapters before it return [icons1] and the adapters after
    it, started where it was reached, return [icons2], the eleven
    adapters together return [icons1 ++ icons2]; and when the three
    documents can then be written, [main] ends normally with the
    outputs built from these icons. *)
Theorem missing_library_is_skipped (l : Library) (w : World) :
  fs w (source_path l) = None ->
  (forall log, processor l w log = Normal ([], log))
  /\ (forall before after log0 icons1 log1 icons2 log2,
        all_libraries = before ++ l :: after ->
        runs_in_order w (map processor before) log0 icons1 log1 ->
        runs_in_order w (map processor after) log1 icons2 log2 ->
        runAll processors w log0 = Normal (icons1 ++ icons2, log2)
        /\ (forall now,
              outputs_writable w log2 ->
              ProcessIcons.main now w log0
              = Normal (buildOutputs now (icons1 ++ icons2), log2 ++ json_writes))).
Proof.
  intro H. split; [intro log; now apply processor_absent|].
  intros before after log0 icons1 log1 icons2 log2 Hall Hbefore Hafter.
  assert (Hrun : runAll processors w log0 = Normal (icons1 ++ icons2, log2)).
  { apply runAll_in_order. rewrite processors_all, Hall, map_app. cbn [map].
    apply (runs_in_order_app w _ _ log0 log1 log2); [exact Hbefore|].
    change icons2 with ([] ++ icons2).
    apply (runs_next w _ _ log1 log1 log2 [] icons2);
      [now apply processor_absent | exact Hafter]. }
  split; [exact Hrun|].
  intros now Hw. now apply main_returns.
Qed.

Lemma missing_library_is_skipped_witness :
  fs world_with_constructor_icon (source_path Tabler) = None
  /\ processor Tabler world_with_constructor_icon [] = Normal ([], [])
  /\ match run_main "2026-01-01T00:00:00.000Z" world_with_constructor_icon with
     | Normal (out, _) => map icon_id (icons (manifest_json out))
                          = ["heroicons/outline/constructor"]
     | Throws _ => False
     end.
Proof.
  pose proof (missing_library_is_skipped Tabler world_with_constructor_icon eq_refl)
    as [Hskip Hrun].
  split; [reflexivity|]. split; [apply Hskip|].
  destruct (runAll (map processor [Heroicons; Phosphor; Bootstrap; Iconoir;
                                   RemixIcon; Fluent; Mdi; Ionicons; IconPark])
              world_with_constructor_icon []) as [[icons2 log2]|e] eqn:E;
    [|vm_compute in E; discriminate E].
  destruct (Hrun [Lucide]
              [Heroicons; Phosphor; Bootstrap; Iconoir; RemixIcon; Fluent; Mdi;
               Ionicons; IconPark]
              [] [] [] icons2 log2 eq_refl) as [_ Hmain].
  - apply runAll_in_order. reflexivity.
  - apply runAll_in_order. exact E.
  - unfold run_main.
    rewrite (Hmain "2026-01-01T00:00:00.000Z").
    + vm_compute in E. injection E as <- <-. reflexivity.
    + vm_compute in E. injection E as <- <-.
      intros p doc Hin. unfold json_writes in Hin. cbn [In] in Hin.
      destruct Hin as [[= <- <-]|[[= <- <-]|[[= <- <-]|[]]]]; reflexivity.
Defined.

(** The guard covers the probed path only: with the outline directory
    of Heroicons present and the solid one absent, listing the latter
    throws and the run ends there. *)
Lemma style_directory_missing_throws (now : string) :
  run_main now world_heroicons_outline_only = Throws "ENOENT".
Proof. reflexivity. Qed.

(** ** The adapters on a small input *)

Example toDisplayName_example : toDisplayName "arrow-up-right" = "Arrow Up Right".
Proof. reflexivity. Qed.

Example processRemixIcon_example :
  processRemixIcon remix_world [] =
  Normal
    ([ {| icon_id := "remix/filled/arrow-up"; icon_name := "Arrow Up";
          icon_library := "remix"; icon_category := VStr "arrows";
          icon_type := "filled"; icon_tags := TagsArray [] |};
       {| icon_id := "remix/outline/arrow-up"; icon_name := "Arrow Up";
          icon_library := "remix"; icon_category := VStr "arrows";
          icon_type := "outline"; icon_tags := TagsArray [] |};
       {| icon_id := "remix/outline/seedling"; icon_name := "Seedling";
          icon_library := "remix"; icon_category := VStr "misc";
          icon_type := "outline"; icon_tags := TagsArray [] |} ],
     [ MadeDir "build/icons/remix/filled";
       Wrote {| write_path := "build/icons/remix/filled/arrow-up.svg";
                write_data := "<svg><path/></svg>" |};
       MadeDir "build/icons/remix/outline";
       Wrote {| write_path := "build/icons/remix/outline/arrow-up.svg";
                write_data := "<svg><line/></svg>" |};
       MadeDir "build/icons/remix/outline";
       Wrote {| write_path := "build/icons/remix/outline/seedling.svg";
                write_data := "<svg/>" |} ]).
Proof. vm_compute. reflexivity. Qed.

(** The folder of an icon under categories/ goes before the category of
    its metadata, and a file named after an inherited member gets that
    member as its category. *)
Example processTabler_example :
  match processTabler tabler_world [] with
  | Normal (icons, _) =>
      map (fun i => (icon_id i, icon_category i, icon_tags i)) icons
      = [ ("tabler/outline/a-home", VStr "location", TagsArray []);
          ("tabler/outline/sun", VStr "weather", TagsArray ["1"; "day"]);
          ("tabler/outline/toString", VInherited "toString", TagsArray []);
          ("tabler/filled/a-home", VStr "location", TagsArray []) ]
  | Throws _ => False
  end.
Proof. vm_compute. reflexivity. Qed.

(** ** What the adapters put into the icon records *)

Lemma post_ret {A : Type} (a : A) (Q : A -> Prop) : Q a -> post (ret a) Q.
Proof. intros H w log a' log' [= <- _]. exact H. Qed.

Lemma post_throw {A : Type} (e : string) (Q : A -> Prop) : post (throw e) Q.
Proof. intros w log a log' H. discriminate H. Qed.

Lemma post_bind {A B : Type} (m : Run A) (k : A -> Run B) (P : A -> Prop)
  (Q : B -> Prop) :
  post m P -> (forall a, P a -> post (k a) Q) -> post (bind m k) Q.
Proof.
  intros Hm Hk w log b log' H. unfold bind in H.
  destruct (m w log) as [[a log1]|e] eqn:E; [|discriminate].
  exact (Hk a (Hm _ _ _ _ E) _ _ _ _ H).
Qed.

Lemma post_bind_any {A B : Type} (m : Run A) (k : A -> Run B) (Q : B -> Prop) :
  (forall a, post (k a) Q) -> post (bind m k) Q.
Proof.
  intro Hk. apply (post_bind m k (fun _ => True)); [now intros ? ? ? ? _ | auto].
Qed.

Lemma post_lift {A : Type} (c : completion A) (Q : A -> Prop) :
  (forall a, c = Normal a -> Q a) -> post (lift c) Q.
Proof.
  intros H w log a log' E. destruct c as [a0|e]; [|discriminate E].
  injection E as <- _. now apply H.
Qed.

Lemma post_try_catch {S : Type} (body : Run S) (s : S) (Q : S -> Prop) :
  post body Q -> Q s -> post (try_catch body s) Q.
Proof.
  intros Hbody Hs w log a log' H. unfold try_catch in H.
  destruct (body w log) as [[a0 log0]|e] eqn:E.
  - injection H as <- <-. eapply Hbody; eassumption.
  - injection H as <- _. exact Hs.
Qed.

Lemma post_for_of {A S : Type} (xs : list A) (body : A -> S -> Run S)
  (P : S -> Prop) (s : S) :
  (forall x s, In x xs -> P s -> post (body x s) P) ->
  P s -> post (for_of xs body s) P.
Proof.
  revert s. induction xs as [|x xs IH]; intros s Hbody Hs.
  - now apply post_ret.
  - cbn [for_of]. apply (post_bind _ _ P).
    + apply Hbody; [now left | assumption].
    + intros s' Hs'. apply IH; [|assumption].
      intros y t Hy. apply Hbody. now right.
Qed.

Lemma cat_ok_misc : cat_ok (VStr "misc").
Proof. intros c [= <-]. apply is_category_id_In. reflexivity. Qed.

Lemma cat_ok_truthy (table : list (string * string)) (k : string) (v : jsval) :
  table_ok table = true -> truthy (obj_get table k) = Some v -> cat_ok v.
Proof.
  intros Hok H c ->. unfold obj_get in H.
  destruct (own_get table k) as [x|] eqn:E; cbn [truthy] in H.
  - destruct (String.eqb x ""); [discriminate|]. injection H as ->.
    now destruct (table_ok_get table k c Hok E).
  - destruct (is_prototype_key k); discriminate.
Qed.

Lemma cat_ok_mapped_or_misc (table : list (string * string)) (k : string) :
  table_ok table = true -> cat_ok (mapped_or_misc table k).
Proof.
  intro Hok. unfold mapped_or_misc.
  destruct (truthy (obj_get table k)) eqn:E;
    [eapply cat_ok_truthy; eassumption | apply cat_ok_misc].
Qed.

Lemma cat_ok_firstMapped (table : list (string * string)) (keys : list string)
  (v : jsval) :
  table_ok table = true -> firstMapped table keys = Some v -> cat_ok v.
Proof.
  intro Hok. induction keys as [|k keys IH]; cbn [firstMapped]; [discriminate|].
  destruct (truthy (obj_get table k)) eqn:E; [|assumption].
  intros [= <-]. eapply cat_ok_truthy; eassumption.
Qed.

(** Whatever the name and the tags, a string the categorizer returns is
    one of the twenty ids. *)
Lemma cat_ok_categorize (name : string) (tags : jstags) (v : jsval) :
  categorizeByKeywords name tags = Normal v -> cat_ok v.
Proof.
  unfold categorizeByKeywords.
  destruct (truthy (obj_get NAME_OVERRIDES name)) as [o|] eqn:E.
  - intros [= <-]. eapply (cat_ok_truthy NAME_OVERRIDES); [reflexivity | eassumption].
  - destruct (scanName CATEGORY_KEYWORDS name) as [c|] eqn:Hscan.
    + intros [= <-] c' [= <-].
      apply keyword_categories_ok. eapply scanName_In; eassumption.
    + destruct tags as [|l|k]; [intros [= <-]; apply cat_ok_misc | | discriminate].
      destruct (scanTags CATEGORY_KEYWORDS l) as [c|] eqn:Htag.
      * intros [= <-] c' [= <-].
        apply keyword_categories_ok. eapply scanTags_In; eassumption.
      * intros [= <-]. apply cat_ok_misc.
Qed.

Lemma Forall_snoc {A : Type} (P : A -> Prop) (l : list A) (x : A) :
  Forall P l -> P x -> Forall P (l ++ [x]).
Proof. intros Hl Hx. apply Forall_app. split; [assumption | now constructor]. Qed.

Lemma library_id_In (s : string) :
  existsb (String.eqb s) library_ids = true -> In s library_ids.
Proof.
  rewrite existsb_exists. intros (x & Hin & Heq).
  apply String.eqb_eq in Heq. now subst.
Qed.

Ltac solve_cat :=
  lazymatch goal with
  | H : cat_ok ?v |- cat_ok ?v => exact H
  | H : truthy (obj_get ?t ?k) = Some ?v |- cat_ok ?v =>
      apply (cat_ok_truthy t k v); [vm_compute; reflexivity | exact H]
  | H : categorizeByKeywords _ _ = Normal ?v |- cat_ok ?v =>
      exact (cat_ok_categorize _ _ _ H)
  | H : firstMapped ?t ?ks = Some ?v |- cat_ok ?v =>
      apply (cat_ok_firstMapped t ks v); [vm_compute; reflexivity | exact H]
  | |- cat_ok (mapped_or_misc ?t ?k) =>
      apply cat_ok_mapped_or_misc; vm_compute; reflexivity
  | |- cat_ok (VStr "misc") => apply cat_ok_misc
  | |- cat_ok (match firstMapped ?t ?ks with _ => _ end) =>
      destruct (firstMapped t ks) eqn:?; solve_cat
  end.

Ltac solve_icons :=
  lazymatch goal with
  | |- Forall icon_ok [] => constructor
  | H : Forall icon_ok ?s |- Forall icon_ok ?s => exact H
  | |- Forall icon_ok (_ ++ [_]) =>
      apply Forall_snoc;
      [assumption
      | split; cbn [icon_library icon_category];
        [apply library_id_In; reflexivity | solve_cat]]
  | |- cat_ok _ => solve_cat
  end.

Ltac post_step :=
  lazymatch goal with
  | |- post (ret _) _ => apply post_ret
  | |- post (throw _) _ => apply post_throw
  | |- post (lift _) _ => apply post_lift; intros ? ?
  | |- post (bind ?m _) _ =>
      first [ apply (post_bind m _ (Forall icon_ok)); [|intros ? ?]
            | apply (post_bind m _ cat_ok); [|intros ? ?]
            | apply post_bind_any; intro ]
  | |- post (for_of _ _ _) _ => apply post_for_of; [intros ? ? _ ? | ]
  | |- post (try_catch _ _) _ =>
      apply post_try_catch; [|first [assumption | solve_icons]]
  | |- post (if ?b then _ else _) _ => destruct b eqn:?
  | |- post (match ?x with _ => _ end) _ => destruct x eqn:?
  | |- post ((match ?x with _ => _ end) _) _ => destruct x eqn:?
  | |- post _ _ => progress cbv beta zeta
  end.

Ltac post_auto := repeat post_step; try solve_icons.

Lemma processLucide_ok : post processLucide (Forall icon_ok).
Proof. unfold processLucide. post_auto. Qed.

Lemma processTabler_ok : post processTabler (Forall icon_ok).
Proof. unfold processTabler, tablerPass. post_auto. Qed.

Lemma processHeroicons_ok : post processHeroicons (Forall icon_ok).
Proof. unfold processHeroicons, plainPass. post_auto. Qed.

Lemma processPhosphor_ok : post processPhosphor (Forall icon_ok).
Proof. unfold processPhosphor. post_auto. Qed.

Lemma processBootstrap_ok : post processBootstrap (Forall icon_ok).
Proof. unfold processBootstrap. post_auto. Qed.

Lemma processIconoir_ok : post processIconoir (Forall icon_ok).
Proof. unfold processIconoir, plainPass. post_auto. Qed.

Lemma processRemixIcon_ok : post processRemixIcon (Forall icon_ok).
Proof. unfold processRemixIcon. post_auto. Qed.

Lemma processFluent_ok : post processFluent (Forall icon_ok).
Proof. unfold processFluent. post_auto. Qed.

Lemma processMdi_ok : post processMdi (Forall icon_ok).
Proof. unfold processMdi. post_auto. Qed.

Lemma processIonicons_ok : post processIonicons (Forall icon_ok).
Proof. unfold processIonicons. post_auto. Qed.

Lemma processIconPark_ok : post processIconPark (Forall icon_ok).
Proof. unfold processIconPark. post_auto. Qed.

Lemma processors_ok (p : Run (list Icon)) :
  In p processors -> post p (Forall icon_ok).
Proof.
  unfold processors. cbn [In].
  intros [<-|[<-|[<-|[<-|[<-|[<-|[<-|[<-|[<-|[<-|[<-|[]]]]]]]]]]]].
  - apply processLucide_ok.
  - apply processTabler_ok.
  - apply processHeroicons_ok.
  - apply processPhosphor_ok.
  - apply processBootstrap_ok.
  - apply processIconoir_ok.
  - apply processRemixIcon_ok.
  - apply processFluent_ok.
  - apply processMdi_ok.
  - apply processIonicons_ok.
  - apply processIconPark_ok.
Qed.

Lemma runAll_ok : post (runAll processors) (Forall icon_ok).
Proof.
  unfold runAll. apply post_for_of; [|constructor].
  intros p icons Hin Hicons.
  apply (post_bind p _ (Forall icon_ok)); [now apply processors_ok|].
  intros more Hmore. apply post_ret. apply Forall_app. now split.
Qed.

Lemma manifest_library_ids (now : string) (allIcons : list Icon) :
  map lib_id (libraries (manifest_json (buildOutputs now allIcons))) = library_ids.
Proof. reflexivity. Qed.

Lemma manifest_category_ids (now : string) (allIcons : list Icon) :
  map entry_id (categories (manifest_json (buildOutputs now allIcons))) = category_ids.
Proof. cbn. reflexivity. Qed.

(** In every run that ends, each icon of the manifest names one of the
    manifest's libraries, and its category, when it is a string, is the
    id of one of the manifest's categories. *)
Lemma manifest_fields_declared (now : string) (w : World) (out : Outputs)
  (log : list effect) :
  run_main now w = Normal (out, log) ->
  forall icon, In icon (icons (manifest_json out)) ->
    (exists l, In l (libraries (manifest_json out)) /\ icon_library icon = lib_id l)
    /\ (forall c, icon_category icon = VStr c ->
          exists e, In e (categories (manifest_json out)) /\ c = entry_id e).
Proof.
  intro H. destruct (run_main_outputs _ _ _ _ H) as (allIcons & log1 & E & -> & _).
  pose proof (runAll_ok _ _ _ _ E) as Hok. rewrite Forall_forall in Hok.
  intros icon Hin. destruct (Hok icon Hin) as [Hlib Hcat]. split.
  - rewrite <- (manifest_library_ids now allIcons) in Hlib.
    apply in_map_iff in Hlib as (l & Hl & Hinl). eauto.
  - intros c Hc. specialize (Hcat c Hc).
    rewrite <- (manifest_category_ids now allIcons) in Hcat.
    apply in_map_iff in Hcat as (e & He & Hine). eauto.
Qed.

(** In a run that ends, the manifest invariant holds exactly when no
    icon carries an inherited member as its category. *)
Lemma manifest_invariant_iff (now : string) (w : World) (out : Outputs)
  (log : list effect) :
  run_main now w = Normal (out, log) ->
  manifest_invariant (manifest_json out)
  <-> forallb has_string_category (icons (manifest_json out)) = true.
Proof.
  intro Hrun. pose proof (manifest_fields_declared _ _ _ _ Hrun) as Hdecl.
  rewrite forallb_forall. split.
  - intros Hinv icon Hin. destruct (Hinv icon Hin) as [(e & _ & He) _].
    unfold has_string_category. now rewrite He.
  - intros Hall icon Hin. destruct (Hdecl icon Hin) as [Hlib Hcat].
    split; [|exact Hlib].
    specialize (Hall icon Hin). unfold has_string_category in Hall.
    destruct (icon_category icon) as [c|k] eqn:E; [|discriminate].
    destruct (Hcat c eq_refl) as (e & He & ->). eauto.
Qed.

(** C2 (evaluation at the failing input): with one Heroicons file named
    constructor.svg the run ends and writes a manifest whose only icon
    has the inherited member as its category, so no element of the
    manifest's categories has that id. *)
Theorem manifest_invariant_broken :
  exists out log,
    run_main "2026-01-01T00:00:00.000Z" world_with_constructor_icon = Normal (out, log)
    /\ List.length (icons (manifest_json out)) = 1
    /\ ~ manifest_invariant (manifest_json out).
Proof.
  eexists. eexists. split; [vm_compute; reflexivity|].
  split; [reflexivity|].
  intro Hinv.
  destruct (Hinv _ (or_introl eq_refl)) as [(e & _ & He) _].
  discriminate He.
Qed.

(** ** The cleaned copies the adapters write *)




















(** ** Counts *)

Lemma own_get_own_set {V : Type} (o : list (string * V)) (k k' : string) (v : V) :
  own_get (own_set o k v) k' = if String.eqb k k' then Some v else own_get o k'.
Proof.
  induction o as [|[k0 v0] o IH]; cbn [own_set own_get].
  - reflexivity.
  - destruct (String.eqb_spec k0 k) as [->|Hne]; cbn [own_get].
    + destruct (String.eqb k k'); reflexivity.
    + rewrite IH. destruct (String.eqb_spec k0 k') as [->|]; [|reflexivity].
      destruct (String.eqb_spec k k'); [congruence | reflexivity].
Qed.

Lemma count_of_bump (st : list (string * nat)) (k k' : string) :
  count_of (bump st k) k' = (if String.eqb k' k then 1 else 0) + count_of st k'.
Proof.
  unfold bump, count_of at 1. rewrite own_get_own_set, (String.eqb_sym k' k).
  destruct (String.eqb_spec k k') as [->|]; [lia | reflexivity].
Qed.

Lemma count_of_fold (keys : list string) (st : list (string * nat)) (k : string) :
  count_of (fold_left bump keys st) k = occurrences keys k + count_of st k.
Proof.
  revert st. induction keys as [|x keys IH]; intro st; [reflexivity|].
  cbn [fold_left]. rewrite IH, count_of_bump. unfold occurrences. cbn [filter].
  destruct (String.eqb k x); cbn [List.length]; lia.
Qed.

Lemma categoryStats_fold (allIcons : list Icon) (st : Stats) :
  categoryStats (fold_left stats_step allIcons st)
  = fold_left bump (map (fun i => property_key (icon_category i)) allIcons)
      (categoryStats st).
Proof.
  revert st. induction allIcons as [|i l IH]; intro st; [reflexivity|].
  cbn [fold_left map]. now rewrite IH.
Qed.

Lemma libraryStats_fold (allIcons : list Icon) (st : Stats) :
  libraryStats (fold_left stats_step allIcons st)
  = fold_left bump (map icon_library allIcons) (libraryStats st).
Proof.
  revert st. induction allIcons as [|i l IH]; intro st; [reflexivity|].
  cbn [fold_left map]. now rewrite IH.
Qed.

Lemma list_sum_zero {A : Type} (l : list A) : list_sum (map (fun _ => 0) l) = 0.
Proof. unfold list_sum. induction l; cbn [map fold_right]; auto. Qed.

Lemma list_sum_plus {A : Type} (f g : A -> nat) (l : list A) :
  list_sum (map (fun x => f x + g x) l) = list_sum (map f l) + list_sum (map g l).
Proof.
  unfold list_sum. induction l as [|x l IH]; cbn [map fold_right];
    [reflexivity | rewrite IH; lia].
Qed.

Lemma indicator_absent (ids : list string) (k : string) :
  ~ In k ids -> list_sum (map (fun id => if String.eqb id k then 1 else 0) ids) = 0.
Proof.
  induction ids as [|x ids IH]; intro H; [reflexivity|].
  cbn [map]. change (list_sum (?a :: ?l)) with (a + list_sum l).
  destruct (String.eqb_spec x k) as [->|_]; [exfalso; apply H; now left|].
  apply IH. intro Hin. apply H. now right.
Qed.

Lemma indicator_present (ids : list string) (k : string) :
  NoDup ids -> In k ids ->
  list_sum (map (fun id => if String.eqb id k then 1 else 0) ids) = 1.
Proof.
  induction 1 as [|x ids Hx Hnd IH]; intro Hin; [destruct Hin|].
  cbn [map]. change (list_sum (?a :: ?l)) with (a + list_sum l).
  destruct Hin as [->|Hin].
  - rewrite String.eqb_refl, indicator_absent; auto.
  - destruct (String.eqb_spec x k) as [->|_]; [contradiction|]. now apply IH.
Qed.

(** Over ids without repetition, the counts add up to the number of keys
    that are among the ids. *)
Lemma occurrences_sum (ids keys : list string) :
  NoDup ids ->
  list_sum (map (occurrences keys) ids)
  = List.length (filter (fun k => existsb (String.eqb k) ids) keys).
Proof.
  intro Hnd. induction keys as [|k keys IH].
  - apply list_sum_zero.
  - transitivity
      (list_sum (map (fun id => (if String.eqb id k then 1 else 0)
                                + occurrences keys id) ids)).
    { f_equal. apply map_ext. intro id. unfold occurrences. cbn [filter].
      destruct (String.eqb id k); reflexivity. }
    rewrite list_sum_plus, IH. cbn [filter].
    destruct (existsb (String.eqb k) ids) eqn:E.
    + rewrite indicator_present; [reflexivity | assumption |].
      apply existsb_exists in E as (x & Hin & Heq).
      apply String.eqb_eq in Heq. now subst.
    + rewrite indicator_absent; [reflexivity|].
      intro Hin. assert (existsb (String.eqb k) ids = true); [|congruence].
      apply existsb_exists. exists k. split; [assumption | apply String.eqb_refl].
Qed.

Lemma category_ids_NoDup : NoDup category_ids.
Proof.
  apply (NoDup_count_occ' string_dec). intros x Hin.
  apply is_category_id_In in Hin. unfold is_category_id in Hin.
  apply existsb_exists in Hin as (c & Hc & Heq). apply String.eqb_eq in Heq. subst c.
  cbn in Hc. repeat (destruct Hc as [<-|Hc]; [vm_compute; reflexivity|]).
  contradiction.
Qed.

Lemma library_ids_NoDup : NoDup library_ids.
Proof.
  apply (NoDup_count_occ' string_dec). intros x Hin.
  cbn in Hin. repeat (destruct Hin as [<-|Hin]; [vm_compute; reflexivity|]).
  contradiction.
Qed.

(** The per-category counts of the manifest add up to the number of
    icons whose category is one of the twenty ids. *)
Lemma category_total_counts (now : string) (allIcons : list Icon) :
  category_total (manifest_json (buildOutputs now allIcons))
  = List.length
      (filter (fun i => is_category_id (property_key (icon_category i))) allIcons).
Proof.
  unfold category_total, buildOutputs, calculateStats. cbn [manifest_json categories].
  rewrite map_map. cbn [entry_count]. rewrite categoryStats_fold. cbn [categoryStats].
  transitivity
    (list_sum (map (occurrences (map (fun i => property_key (icon_category i)) allIcons))
                   category_ids)).
  { unfold category_ids. rewrite map_map. f_equal. apply map_ext. intro cat.
    rewrite count_of_fold. cbn. lia. }
  rewrite (occurrences_sum _ _ category_ids_NoDup).
  clear. induction allIcons as [|i l IH]; [reflexivity|].
  cbn [map filter]. unfold is_category_id at 1.
  destruct (existsb _ category_ids); cbn [List.length]; now rewrite IH.
Qed.

(** The per-library counts add up to the number of icons whose library
    is one of the eleven ids. *)
Lemma library_total_counts (now : string) (allIcons : list Icon) :
  library_total (manifest_json (buildOutputs now allIcons))
  = List.length
      (filter (fun i => existsb (String.eqb (icon_library i)) library_ids) allIcons).
Proof.
  unfold library_total, buildOutputs, calculateStats. cbn [manifest_json libraries].
  rewrite libraryStats_fold. cbn [libraryStats].
  transitivity
    (list_sum (map (occurrences (map icon_library allIcons)) library_ids)).
  { cbn [libraryEntries map lib_iconCount library_ids lib_id].
    rewrite !count_of_fold. cbn [count_of own_get]. repeat f_equal; lia. }
  rewrite (occurrences_sum _ _ library_ids_NoDup).
  clear. induction allIcons as [|i l IH]; [reflexivity|].
  cbn [map filter].
  destruct (existsb _ library_ids); cbn [List.length]; now rewrite IH.
Qed.

Lemma filter_all {A : Type} (f : A -> bool) (l : list A) :
  Forall (fun x => f x = true) l -> filter f l = l.
Proof.
  induction 1 as [|x l Hx Hl IH]; [reflexivity|]. cbn. now rewrite Hx, IH.
Qed.

(** For icons whose category and library are declared ids, both sets of
    counts add up to the number of icons. *)
Lemma declared_icons_counted (now : string) (allIcons : list Icon) :
  Forall (fun i => exists c, icon_category i = VStr c /\ In c category_ids) allIcons ->
  Forall (fun i => In (icon_library i) library_ids) allIcons ->
  category_total (manifest_json (buildOutputs now allIcons)) = List.length allIcons
  /\ library_total (manifest_json (buildOutputs now allIcons)) = List.length allIcons.
Proof.
  intros Hcat Hlib. rewrite category_total_counts, library_total_counts. split.
  - rewrite filter_all; [reflexivity|].
    eapply Forall_impl; [|exact Hcat]. intros i (c & -> & Hc).
    now apply is_category_id_In.
  - rewrite filter_all; [reflexivity|].
    eapply Forall_impl; [|exact Hlib]. intros i Hi. cbn beta.
    apply existsb_exists. exists (icon_library i).
    split; [assumption | apply String.eqb_refl].
Qed.

(** In every run that ends, the per-library counts add up to the number
    of icons. *)
Lemma pipeline_library_total (now : string) (w : World) (out : Outputs)
  (log : list effect) :
  run_main now w = Normal (out, log) ->
  library_total (manifest_json out) = List.length (icons (manifest_json out)).
Proof.
  intro H. destruct (run_main_outputs _ _ _ _ H) as (allIcons & log1 & E & -> & _).
  rewrite library_total_counts. cbn [manifest_json buildOutputs icons].
  rewrite filter_all; [reflexivity|].
  eapply Forall_impl; [|exact (runAll_ok _ _ _ _ E)].
  intros i [Hi _]. cbn beta. apply existsb_exists. exists (icon_library i).
  split; [assumption | apply String.eqb_refl].
Qed.

Lemma inherited_key_no_category (k : string) :
  is_category_id (inherited_to_string k) = false.
Proof.
  unfold inherited_to_string.
  destruct (String.eqb k "__proto__"); [reflexivity|].
  destruct (String.eqb k "constructor"); reflexivity.
Qed.

(** In every run that ends, the per-category counts add up to the
    number of icons whose category is a string. *)
Lemma pipeline_category_total (now : string) (w : World) (out : Outputs)
  (log : list effect) :
  run_main now w = Normal (out, log) ->
  category_total (manifest_json out)
  = List.length (filter has_string_category (icons (manifest_json out))).
Proof.
  intro H. destruct (run_main_outputs _ _ _ _ H) as (allIcons & log1 & E & -> & _).
  rewrite category_total_counts. cbn [manifest_json buildOutputs icons].
  pose proof (runAll_ok _ _ _ _ E) as Hok. clear E H.
  induction Hok as [|i l [_ Hi] Hl IH]; [reflexivity|].
  cbn [filter]. unfold has_string_category at 1.
  destruct (icon_category i) as [c|k]; cbn [property_key].
  - assert (Hc : is_category_id c = true) by (apply is_category_id_In; now apply Hi).
    rewrite Hc. cbn [List.length]. now rewrite IH.
  - now rewrite inherited_key_no_category.
Qed.

Lemma three_icons_counted :
  category_total (manifest_json (buildOutputs "t" three_icons)) = 3
  /\ library_total (manifest_json (buildOutputs "t" three_icons)) = 3.
Proof. split; vm_compute; reflexivity. Qed.

(** C9 (evaluation at the failing input): with one Heroicons file named
    constructor.svg the manifest holds one icon and its per-library
    counts add up to one, but its per-category counts add up to zero:
    the icon is counted under the text of the inherited member, which is
    no category id. *)
Theorem category_counts_miss_an_icon :
  exists out log,
    run_main "2026-01-01T00:00:00.000Z" world_with_constructor_icon = Normal (out, log)
    /\ List.length (icons (manifest_json out)) = 1
    /\ library_total (manifest_json out) = 1
    /\ category_total (manifest_json out) = 0
    /\ categoryBreakdown (report_json out)
       = [("function Object() { [native code] }", 1)].
Proof.
  eexists. eexists. split; [vm_compute; reflexivity|].
  repeat split.
Qed.

(** ** The worker pool of the publisher *)

Section PoolProperties.

Context {Item : Type}.
Variable items : list Item.
Variable fn : Item -> bool.

#[local] Abbreviation step := (UploadIcons.step items fn).
#[local] Abbreviation steps := (UploadIcons.steps items fn).
#[local] Abbreviation succeeded := (UploadIcons.succeeded fn).
#[local] Abbreviation rejected := (UploadIcons.rejected fn).
#[local] Abbreviation in_flight := (UploadIcons.in_flight fn).
#[local] Abbreviation pool_inv := (UploadIcons.pool_inv items fn).
#[local] Abbreviation measure := (UploadIcons.measure items).

Lemma total_of_set_nth (f : worker Item -> nat) (ws : list (worker Item))
  (k : nat) (w w' : worker Item) :
  nth_error ws k = Some w ->
  total_of f (set_nth k w' ws) + f w = total_of f ws + f w'.
Proof.
  unfold total_of. revert k. induction ws as [|x ws IH]; intros k H.
  - destruct k; discriminate.
  - destruct k as [|k]; cbn [set_nth map] in *;
      change (list_sum (?a :: ?l)) with (a + list_sum l).
    + injection H as <-. lia.
    + specialize (IH k H). lia.
Qed.

Lemma set_nth_length {A : Type} (k : nat) (x : A) (l : list A) :
  List.length (set_nth k x l) = List.length l.
Proof.
  revert k. induction l as [|y l IH]; intro k; [now destruct k|].
  destruct k; cbn [set_nth List.length]; [reflexivity | now rewrite IH].
Qed.

Lemma In_set_nth {A : Type} (k : nat) (x y : A) (l : list A) :
  In y (set_nth k x l) -> y = x \/ In y l.
Proof.
  revert k. induction l as [|z l IH]; intros k H; [now destruct k|].
  destruct k as [|k]; cbn [set_nth In] in *.
  - destruct H as [<-|H]; auto.
  - destruct H as [<-|H]; [auto|]. destruct (IH k H); auto.
Qed.

Lemma firstn_next (i : nat) (item : Item) :
  nth_error items i = Some item ->
  firstn (S i) items = firstn i items ++ [item].
Proof.
  revert i. induction items as [|x l IH]; intros i H.
  - destruct i; discriminate.
  - destruct i as [|i]; cbn [nth_error] in H.
    + injection H as ->. reflexivity.
    + cbn [firstn app]. f_equal. now apply IH.
Qed.

Lemma succeeded_snoc (l : list Item) (item : Item) :
  succeeded (l ++ [item]) = succeeded l + (if fn item then 1 else 0).
Proof.
  unfold succeeded. rewrite filter_app, length_app. cbn [filter].
  destruct (fn item); reflexivity.
Qed.

Lemma rejected_snoc (l : list Item) (item : Item) :
  rejected (l ++ [item]) = rejected l + (if fn item then 0 else 1).
Proof.
  unfold rejected. rewrite filter_app, length_app. cbn [filter].
  destruct (fn item); reflexivity.
Qed.

Lemma succeeded_rejected (l : list Item) :
  succeeded l + rejected l = List.length l.
Proof.
  unfold succeeded, rejected. induction l as [|x l IH]; [reflexivity|].
  cbn [filter]. destruct (fn x); cbn [negb List.length]; lia.
Qed.

Lemma start_inv (concurrency : nat) : pool_inv (start concurrency).
Proof.
  assert (H : forall ok, total_of (in_flight ok) (repeat (@LoopHead Item) concurrency) = 0).
  { intro ok. unfold total_of.
    induction concurrency as [|c IH]; [reflexivity|].
    cbn [repeat map]. change (list_sum (?a :: ?l)) with (a + list_sum l).
    now rewrite IH. }
  constructor; cbn [start index calls completed failed workers].
  - reflexivity.
  - lia.
  - now rewrite H.
  - now rewrite H.
  - intro Hin. apply repeat_spec in Hin. discriminate.
Qed.

Lemma step_inv (s s' : pool Item) : pool_inv s -> step s s' -> pool_inv s'.
Proof.
  intros [Hcalls Hindex Hdone Hfail Hret] [k Hstep].
  unfold step_worker in Hstep.
  destruct (nth_error (workers s) k) as [[|item|]|] eqn:Hk; try discriminate.
  - destruct (nth_error items (index s)) as [item|] eqn:Hitem;
      injection Hstep as <-; constructor;
      cbn [index calls completed failed workers].
    + rewrite Hcalls, seq_S. reflexivity.
    + apply nth_error_Some. congruence.
    + pose proof (total_of_set_nth (in_flight true) _ k _ (Awaiting item) Hk) as E.
      rewrite (firstn_next _ _ Hitem), succeeded_snoc. cbn [in_flight] in E.
      destruct (fn item); cbn [Bool.eqb] in E; lia.
    + pose proof (total_of_set_nth (in_flight false) _ k _ (Awaiting item) Hk) as E.
      rewrite (firstn_next _ _ Hitem), rejected_snoc. cbn [in_flight] in E.
      destruct (fn item); cbn [Bool.eqb] in E; lia.
    + intro Hin. apply In_set_nth in Hin as [Hin|Hin]; [discriminate|].
      specialize (Hret Hin). lia.
    + assumption.
    + assumption.
    + pose proof (total_of_set_nth (in_flight true) _ k _ Returned Hk) as E.
      cbn [in_flight] in E. lia.
    + pose proof (total_of_set_nth (in_flight false) _ k _ Returned Hk) as E.
      cbn [in_flight] in E. lia.
    + intros _. now apply nth_error_None.
  - injection Hstep as <-; constructor;
      cbn [index calls completed failed workers]; try assumption.
    + pose proof (total_of_set_nth (in_flight true) _ k _ LoopHead Hk) as E.
      cbn [in_flight] in E. destruct (fn item); cbn [Bool.eqb] in E; lia.
    + pose proof (total_of_set_nth (in_flight false) _ k _ LoopHead Hk) as E.
      cbn [in_flight] in E. destruct (fn item); cbn [Bool.eqb] in E; lia.
    + intro Hin. apply In_set_nth in Hin as [Hin|Hin]; [discriminate|].
      exact (Hret Hin).
Qed.

Lemma steps_inv (s s' : pool Item) : pool_inv s -> steps s s' -> pool_inv s'.
Proof. intros Hs H. induction H; eauto using step_inv. Qed.

Lemma step_workers_length (s s' : pool Item) :
  step s s' -> List.length (workers s') = List.length (workers s).
Proof.
  intros [k H]. unfold step_worker in H.
  destruct (nth_error (workers s) k) as [[|item|]|]; try discriminate.
  - destruct (nth_error items (index s));
      injection H as <-; apply set_nth_length.
  - injection H as <-; apply set_nth_length.
Qed.

Lemma steps_workers_length (s s' : pool Item) :
  steps s s' -> List.length (workers s') = List.length (workers s).
Proof.
  induction 1 as [|s1 s2 _ IH Hstep]; [reflexivity|].
  rewrite (step_workers_length _ _ Hstep). exact IH.
Qed.

Lemma settled_no_flight (ok : bool) (ws : list (worker Item)) :
  forallb is_returned ws = true -> total_of (in_flight ok) ws = 0.
Proof.
  unfold total_of. induction ws as [|w ws IH]; [reflexivity|].
  cbn [forallb map]. change (list_sum (?a :: ?l)) with (a + list_sum l).
  intro H. apply andb_true_iff in H as [Hw Hws].
  destruct w; try discriminate. now rewrite IH.
Qed.

(** What a settled pool holds. *)
Lemma settled_tally (s : pool Item) :
  pool_inv s -> workers s <> [] -> settled s = true ->
  calls s = seq 0 (List.length items)
  /\ completed s = succeeded items
  /\ failed s = rejected items.
Proof.
  intros [Hcalls Hindex Hdone Hfail Hret] Hne Hset. unfold settled in Hset.
  assert (Hidx : index s = List.length items).
  { destruct (workers s) as [|w ws] eqn:E; [congruence|].
    cbn [forallb] in Hset. apply andb_true_iff in Hset as [Hw _].
    destruct w; try discriminate. specialize (Hret (or_introl eq_refl)). lia. }
  rewrite (settled_no_flight true _ Hset) in Hdone.
  rewrite (settled_no_flight false _ Hset) in Hfail.
  rewrite Hidx, firstn_all in *. repeat split; [assumption | lia | lia].
Qed.

(** *** Every schedule ends *)

Lemma step_measure (s s' : pool Item) : step s s' -> measure s' < measure s.
Proof.
  intros [k Hstep]. unfold step_worker in Hstep. unfold measure.
  destruct (nth_error (workers s) k) as [[|item|]|] eqn:Hk; try discriminate.
  - destruct (nth_error items (index s)) as [item|] eqn:Hitem;
      injection Hstep as <-; cbn [index workers].
    + pose proof (total_of_set_nth weight _ k _ (Awaiting item) Hk) as E.
      assert (index s < List.length items) by (apply nth_error_Some; congruence).
      cbn [weight] in E. lia.
    + pose proof (total_of_set_nth weight _ k _ Returned Hk) as E.
      cbn [weight] in E. lia.
  - injection Hstep as <-; cbn [index workers].
    pose proof (total_of_set_nth weight _ k _ LoopHead Hk) as E.
    cbn [weight] in E. lia.
Qed.

(** No schedule runs for ever. *)
Lemma step_well_founded : well_founded (fun s' s => step s s').
Proof.
  apply (well_founded_lt_compat _ measure). intros s' s. apply step_measure.
Qed.

Lemma next_worker_none (ws : list (worker Item)) :
  next_worker ws = None -> forallb is_returned ws = true.
Proof.
  induction ws as [|w ws IH]; [reflexivity|].
  destruct w; cbn [next_worker forallb is_returned]; try discriminate.
  destruct (next_worker ws); [discriminate | auto].
Qed.

Lemma next_worker_some (ws : list (worker Item)) (k : nat) :
  next_worker ws = Some k ->
  exists w, nth_error ws k = Some w /\ is_returned w = false.
Proof.
  revert k. induction ws as [|w ws IH]; intros k H; [discriminate|].
  destruct w; cbn [next_worker] in H.
  - injection H as <-. now exists LoopHead.
  - injection H as <-. now exists (Awaiting item).
  - destruct (next_worker ws) as [j|]; [|discriminate].
    injection H as <-. exact (IH j eq_refl).
Qed.

Lemma can_step (s : pool Item) (k : nat) (w : worker Item) :
  nth_error (workers s) k = Some w -> is_returned w = false ->
  exists s', step_worker items fn k s = Some s'.
Proof.
  intros Hk Hw. unfold step_worker. rewrite Hk.
  destruct w; [|eauto|discriminate].
  destruct (nth_error items (index s)); eauto.
Qed.

(** A pool that is not settled can move. *)
Lemma progress (s : pool Item) : settled s = false -> exists s', step s s'.
Proof.
  intro H. unfold settled in H.
  destruct (next_worker (workers s)) as [k|] eqn:E.
  - destruct (next_worker_some _ _ E) as (w & Hk & Hw).
    destruct (can_step s k w Hk Hw) as [s' Hs']. exists s'. now exists k.
  - apply next_worker_none in E. congruence.
Qed.

Lemma drain_settles (fuel : nat) (s : pool Item) :
  measure s <= fuel ->
  steps s (drain items fn fuel s) /\ settled (drain items fn fuel s) = true.
Proof.
  revert s. induction fuel as [|fuel IH]; intros s Hm.
  - cbn [drain]. split; [constructor|].
    destruct (settled s) eqn:E; [reflexivity|].
    destruct (progress s E) as [s' Hs']. apply step_measure in Hs'. lia.
  - cbn [drain]. destruct (next_worker (workers s)) as [k|] eqn:E.
    + destruct (next_worker_some _ _ E) as (w & Hk & Hw).
      destruct (can_step s k w Hk Hw) as [s' Hs']. rewrite Hs'.
      assert (Hstep : step s s') by now exists k.
      pose proof (step_measure _ _ Hstep).
      destruct (IH s') as [Hsteps Hset]; [lia|]. split; [|assumption].
      clear - Hsteps Hstep. induction Hsteps.
      * econstructor; [constructor | assumption].
      * econstructor; eassumption.
    + split; [constructor | now apply next_worker_none].
Qed.

Lemma start_measure (concurrency : nat) :
  measure (start concurrency) = 2 * List.length items + concurrency.
Proof.
  unfold measure, start, total_of. cbn [index workers]. rewrite Nat.sub_0_r.
  f_equal. induction concurrency as [|c IH]; [reflexivity|].
  cbn [repeat map]. change (list_sum (?a :: ?l)) with (a + list_sum l).
  rewrite IH. reflexivity.
Qed.

(** C7: for a pool of at least one worker, no schedule of the workers
    runs for ever, some schedule reaches a settled pool, and in every
    settled pool that any schedule reaches [fn] has been called on the
    items 0, 1, ..., n-1, each exactly once, the count of completed
    uploads is the number of items whose upload succeeds, the count of
    failed ones the number of items whose upload fails, and the two add
    up to n; this is the tally [parallelMap] returns. *)
Theorem parallelMap_tally (concurrency : nat) :
  1 <= concurrency ->
  well_founded (fun s' s => step s s')
  /\ (exists final, steps (start concurrency) final /\ settled final = true)
  /\ (forall final,
        steps (start concurrency) final -> settled final = true ->
        calls final = seq 0 (List.length items)
        /\ NoDup (calls final)
        /\ (forall i, In i (calls final) <-> i < List.length items)
        /\ completed final = succeeded items
        /\ failed final = rejected items
        /\ completed final + failed final = List.length items)
  /\ parallelMap items fn concurrency
     = {| tally_completed := succeeded items; tally_failed := rejected items |}.
Proof.
  intro Hc.
  assert (Hfinal : forall final,
             steps (start concurrency) final -> settled final = true ->
             calls final = seq 0 (List.length items)
             /\ completed final = succeeded items
             /\ failed final = rejected items).
  { intros final Hsteps Hset. apply settled_tally; [| |assumption].
    - exact (steps_inv _ _ (start_inv concurrency) Hsteps).
    - pose proof (steps_workers_length _ _ Hsteps) as Hlen.
      cbn [start workers] in Hlen. rewrite repeat_length in Hlen.
      intro E. rewrite E in Hlen. cbn in Hlen. lia. }
  destruct (drain_settles (2 * List.length items + concurrency) (start concurrency))
    as [Hsteps Hset]; [rewrite start_measure; lia|].
  split; [exact step_well_founded|].
  split; [eauto|].
  split.
  - intros final Hs Hf. destruct (Hfinal final Hs Hf) as (Hcalls & Hdone & Hfail).
    rewrite Hcalls, Hdone, Hfail.
    split; [reflexivity|]. split; [apply seq_NoDup|].
    split; [|split; [reflexivity|split; [reflexivity | apply succeeded_rejected]]].
    intro i. rewrite in_seq. lia.
  - unfold parallelMap, pool_run, tally_of.
    destruct (Hfinal _ Hsteps Hset) as (_ & -> & ->). reflexivity.
Qed.

End PoolProperties.

Lemma parallelMap_tally_witness :
  1 <= 3
  /\ parallelMap ten_items fails_4_and_7 3
     = {| tally_completed := 8; tally_failed := 2 |}
  /\ (forall final,
        steps ten_items fails_4_and_7 (start 3) final -> settled final = true ->
        calls final = [0; 1; 2; 3; 4; 5; 6; 7; 8; 9]
        /\ completed final = 8 /\ failed final = 2).
Proof.
  assert (H : 1 <= 3) by lia.
  destruct (parallelMap_tally ten_items fails_4_and_7 3 H) as (_ & _ & Hall & Htally).
  split; [exact H|]. split; [exact Htally|].
  intros final Hs Hf.
  destruct (Hall final Hs Hf) as (Hcalls & _ & _ & Hdone & Hfail & _).
  split; [exact Hcalls|]. split; [exact Hdone | exact Hfail].
Defined.

(** ** Phase selection of the publisher *)

Lemma args_includes_In (args : list string) (flag : string) :
  args_includes args flag = true <-> In flag args.
Proof.
  unfold args_includes. rewrite existsb_exists. split.
  - intros (x & Hin & Heq). apply String.eqb_eq in Heq. now subst.
  - intro H. exists flag. split; [assumption | apply String.eqb_refl].
Qed.

Lemma phase_enabled (args : list string) (flag : string) :
  Nat.eqb (List.length args) 0 || args_includes args flag = true
  <-> args = [] \/ In flag args.
Proof.
  rewrite orb_true_iff, args_includes_In, Nat.eqb_eq, length_zero_iff_nil.
  reflexivity.
Qed.

(** C10: each phase is enabled exactly when the argument list is empty
    or holds the phase's own flag; so with the arguments [--lib <name>]
    alone, where the name is neither flag, both phases are off and the
    run attempts no upload, however it ends. *)
Theorem lib_flag_alone_uploads_nothing :
  (forall args, uploadManifest args = true <-> args = [] \/ In "--manifest" args)
  /\ (forall args, uploadSvgs args = true <-> args = [] \/ In "--svgs" args)
  /\ (forall (name : string) (site : Site),
        name <> "--svgs" -> name <> "--manifest" ->
        uploadManifest ["--lib"; name] = false
        /\ uploadSvgs ["--lib"; name] = false
        /\ uploads_of (UploadIcons.main ["--lib"; name] site) = []
        /\ (manifest_exists site = true -> manifest_parses site = true ->
            UploadIcons.main ["--lib"; name] site = Finished [] None)).
Proof.
  split; [intro args; apply phase_enabled|].
  split; [intro args; apply phase_enabled|].
  intros name site Hsvgs Hmanifest.
  assert (Hm : uploadManifest ["--lib"; name] = false).
  { destruct (uploadManifest ["--lib"; name]) eqn:E; [|reflexivity].
    apply phase_enabled in E as [E|[E|[E|[]]]]; congruence. }
  assert (Hs : uploadSvgs ["--lib"; name] = false).
  { destruct (uploadSvgs ["--lib"; name]) eqn:E; [|reflexivity].
    apply phase_enabled in E as [E|[E|[E|[]]]]; congruence. }
  split; [exact Hm|]. split; [exact Hs|].
  unfold UploadIcons.main. rewrite Hm, Hs.
  split.
  - destruct (manifest_exists site), (manifest_parses site); reflexivity.
  - intros -> ->. reflexivity.
Qed.

Lemma lib_flag_alone_uploads_nothing_witness :
  "tabler" <> "--svgs" /\ "tabler" <> "--manifest"
  /\ UploadIcons.main ["--lib"; "tabler"] site_with_one_svg = Finished [] None
  /\ uploads_of (UploadIcons.main ["--svgs"; "--lib"; "tabler"] site_with_one_svg)
     = [ R2Put "elemental-icons/tabler/home.svg" "build/icons/tabler/home.svg" ].
Proof.
  assert (H1 : "tabler" <> "--svgs") by discriminate.
  assert (H2 : "tabler" <> "--manifest") by discriminate.
  split; [exact H1|]. split; [exact H2|]. split.
  - apply (proj2 (proj2 lib_flag_alone_uploads_nothing) "tabler" site_with_one_svg H1 H2);
      reflexivity.
  - reflexivity.
Defined.

(** ** Display names *)

Lemma capitalizeWords_length (f : bool) (s : string) :
  String.length (capitalizeWords f s) = String.length s.
Proof.
  revert f; induction s as [|c s IH]; intro f; cbn [capitalizeWords String.length];
    [reflexivity | now rewrite IH].
Qed.

Lemma replaceChar_length (a b : ascii) (s : string) :
  String.length (replaceChar a b s) = String.length s.
Proof.
  induction s as [|c s IH]; cbn [replaceChar String.length];
    [reflexivity | now rewrite IH].
Qed.

Lemma includes_char_cons (a c : ascii) (s : string) :
  includes (String c s) (String a "") = Ascii.eqb a c || includes s (String a "").
Proof.
  cbn [includes prefix].
  destruct (ascii_dec a c) as [->|Hne].
  - rewrite Ascii.eqb_refl, prefix_nil. reflexivity.
  - apply Ascii.eqb_neq in Hne. rewrite Hne. reflexivity.
Qed.

Lemma upper_char_hyphen (c : ascii) :
  Ascii.eqb "-" c = false -> Ascii.eqb "-" (upper_char c) = false.
Proof.
  destruct c as [[] [] [] [] [] [] [] []]; vm_compute; congruence.
Qed.

Lemma upper_char_word (c : ascii) : is_word (upper_char c) = is_word c.
Proof. destruct c as [[] [] [] [] [] [] [] []]; vm_compute; reflexivity. Qed.

Lemma upper_char_idem (c : ascii) : upper_char (upper_char c) = upper_char c.
Proof. destruct c as [[] [] [] [] [] [] [] []]; vm_compute; reflexivity. Qed.

Lemma capitalizeWords_no_hyphen (f : bool) (s : string) :
  includes s "-" = false -> includes (capitalizeWords f s) "-" = false.
Proof.
  revert f; induction s as [|c s IH]; intros f H; [reflexivity|].
  cbn [capitalizeWords]. rewrite includes_char_cons in *.
  apply orb_false_iff in H as [Hc Hs].
  rewrite (IH _ Hs), orb_false_r.
  destruct (is_word c && negb f); [now apply upper_char_hyphen | exact Hc].
Qed.

Lemma replaceChar_removes (s : string) :
  includes (replaceChar "-" " " s) "-" = false.
Proof.
  induction s as [|c s IH]; [reflexivity|].
  cbn [replaceChar]. rewrite includes_char_cons, IH, orb_false_r.
  destruct (Ascii.eqb c "-") eqn:E; [reflexivity|].
  rewrite Ascii.eqb_sym. exact E.
Qed.

Lemma replaceChar_absent (a b : ascii) (s : string) :
  includes s (String a "") = false -> replaceChar a b s = s.
Proof.
  induction s as [|c s IH]; intro H; [reflexivity|].
  rewrite includes_char_cons in H. apply orb_false_iff in H as [Hc Hs].
  cbn [replaceChar]. rewrite (IH Hs), Ascii.eqb_sym, Hc. reflexivity.
Qed.

Lemma capitalizeWords_idem (f : bool) (s : string) :
  capitalizeWords f (capitalizeWords f s) = capitalizeWords f s.
Proof.
  revert f; induction s as [|c s IH]; intro f; [reflexivity|].
  cbn [capitalizeWords].
  assert (Hw : is_word (if is_word c && negb f then upper_char c else c) = is_word c).
  { destruct (is_word c && negb f); [apply upper_char_word | reflexivity]. }
  rewrite Hw, IH. f_equal.
  destruct (is_word c && negb f) eqn:E; [|reflexivity].
  apply upper_char_idem.
Qed.

Lemma toDisplayName_no_hyphen (filename : string) :
  includes (toDisplayName filename) "-" = false.
Proof. apply capitalizeWords_no_hyphen, replaceChar_removes. Qed.

(** X1. The display name of a file name has the length of the file name,
    contains no hyphen, and is a fixed point of [toDisplayName]. *)
Theorem toDisplayName_shape (filename : string) :
  String.length (toDisplayName filename) = String.length filename
  /\ includes (toDisplayName filename) "-" = false
  /\ toDisplayName (toDisplayName filename) = toDisplayName filename.
Proof.
  split; [|split].
  - unfold toDisplayName. now rewrite capitalizeWords_length, replaceChar_length.
  - apply toDisplayName_no_hyphen.
  - unfold toDisplayName at 1.
    rewrite (replaceChar_absent _ _ _ (toDisplayName_no_hyphen filename)).
    unfold toDisplayName. apply capitalizeWords_idem.
Qed.

Lemma replaceChar_get (a b : ascii) (s : string) (i : nat) :
  String.get i (replaceChar a b s)
  = option_map (fun c => if Ascii.eqb c a then b else c) (String.get i s).
Proof.
  revert i. induction s as [|c s IH]; intro i; [reflexivity|].
  cbn [replaceChar String.get]. destruct i as [|i]; [reflexivity | apply IH].
Qed.

Lemma capitalizeWords_get (f : bool) (s : string) (i : nat) (c : ascii) :
  String.get i s = Some c ->
  String.get i (capitalizeWords f s)
  = Some (if is_word c
             && negb (match i with
                      | O => f
                      | S j => after_word_char s (S j)
                      end)
          then upper_char c else c).
Proof.
  revert f i. induction s as [|c0 s IH]; intros f i; [discriminate|].
  cbn [capitalizeWords String.get]. destruct i as [|i].
  - intros [= ->]. reflexivity.
  - intro H. rewrite (IH (is_word c0) i H). do 2 f_equal.
    destruct i as [|i]; reflexivity.
Qed.

Lemma is_word_spaced (c : ascii) :
  is_word (if Ascii.eqb c "-" then " "%char else c) = is_word c.
Proof.
  destruct (Ascii.eqb_spec c "-"%char) as [->|_]; reflexivity.
Qed.

(** X2. [toDisplayName] changes its input character by character: a
    hyphen becomes a space; a letter, digit or underscore that stands at
    the start or right after a character that is none of these becomes
    its capital (only the letters a to z have one); every other
    character stays as it is, and none is added or dropped. *)
Theorem toDisplayName_capitalises (filename : string) :
  String.length (toDisplayName filename) = String.length filename
  /\ forall i c,
       String.get i filename = Some c ->
       String.get i (toDisplayName filename)
       = Some (if Ascii.eqb c "-" then " "%char
               else if is_word c && negb (after_word_char filename i)
                    then upper_char c
                    else c).
Proof.
  split.
  - unfold toDisplayName. now rewrite capitalizeWords_length, replaceChar_length.
  - intros i c Hc. unfold toDisplayName.
    assert (Hr : String.get i (replaceChar "-" " " filename)
                 = Some (if Ascii.eqb c "-" then " "%char else c))
      by (now rewrite replaceChar_get, Hc).
    rewrite (capitalizeWords_get false _ i _ Hr). f_equal.
    rewrite is_word_spaced.
    assert (Hbefore : match i with
                      | O => false
                      | S j => after_word_char (replaceChar "-" " " filename) (S j)
                      end = after_word_char filename i).
    { destruct i as [|j]; [reflexivity|]. unfold after_word_char.
      rewrite replaceChar_get. destruct (String.get j filename) as [d|]; [|reflexivity].
      cbn [option_map]. apply is_word_spaced. }
    rewrite Hbefore.
    destruct (Ascii.eqb_spec c "-"%char) as [->|_]; reflexivity.
Qed.

(** ** The cleaned copy *)

Lemma trimStart_head (s : string) (c : ascii) :
  first_char (trimStart s) = Some c -> is_space c = false.
Proof.
  induction s as [|d s IH]; [discriminate|].
  cbn [trimStart]. destruct (is_space d) eqn:E; [exact IH|].
  cbn [first_char]. now intros [= <-].
Qed.

Lemma trimStart_length (s : string) :
  String.length (trimStart s) <= String.length s.
Proof.
  induction s as [|d s IH]; [reflexivity|].
  cbn [trimStart]. destruct (is_space d); cbn [String.length] in *; lia.
Qed.

Lemma trimEnd_cons (c : ascii) (s : string) :
  is_space c = false -> trimEnd (String c s) = String c (trimEnd s).
Proof.
  intro H. cbn [trimEnd]. destruct (trimEnd s); [now rewrite H | reflexivity].
Qed.

Lemma trimEnd_last (s : string) (c : ascii) :
  last_char (trimEnd s) = Some c -> is_space c = false.
Proof.
  induction s as [|d s IH]; [discriminate|].
  cbn [trimEnd]. destruct (trimEnd s) as [|e t] eqn:E.
  - destruct (is_space d) eqn:Ed; [discriminate|].
    cbn [last_char]. now intros [= <-].
  - change (last_char (String d (String e t)))
      with (match last_char (String e t) with Some x => Some x | None => Some d end).
    destruct (last_char (String e t)) as [x|] eqn:El.
    + intros [= <-]. now apply IH.
    + cbn [last_char] in El. destruct (last_char t); discriminate.
Qed.

Lemma trimEnd_length (s : string) :
  String.length (trimEnd s) <= String.length s.
Proof.
  induction s as [|d s IH]; [reflexivity|].
  cbn [trimEnd]. destruct (trimEnd s); [destruct (is_space d)|];
    cbn [String.length] in *; lia.
Qed.

Lemma trimEnd_idem (s : string) : trimEnd (trimEnd s) = trimEnd s.
Proof.
  induction s as [|d s IH]; [reflexivity|].
  cbn [trimEnd]. destruct (trimEnd s) as [|e t] eqn:E.
  - destruct (is_space d) eqn:Ed; [reflexivity|].
    cbn [trimEnd]. now rewrite Ed.
  - change (trimEnd (String d (String e t)))
      with (match trimEnd (String e t) with
            | "" => if is_space d then "" else String d ""
            | u => String d u
            end).
    now rewrite IH.
Qed.

Lemma trim_trimmed (s : string) : trimmed (trim s).
Proof.
  split; intros c H.
  - unfold trim in H. destruct (trimStart s) as [|d u] eqn:E; [discriminate|].
    assert (Hd : is_space d = false) by (apply (trimStart_head s); now rewrite E).
    rewrite (trimEnd_cons _ _ Hd) in H. cbn [first_char] in H. congruence.
  - now apply (trimEnd_last (trimStart s)).
Qed.

Lemma trimStart_fixed (s : string) :
  (forall c, first_char s = Some c -> is_space c = false) -> trimStart s = s.
Proof.
  destruct s as [|d u]; [reflexivity|]. intro H.
  cbn [trimStart]. now rewrite (H d eq_refl).
Qed.

Lemma trim_idem (s : string) : trim (trim s) = trim s.
Proof.
  unfold trim at 1. rewrite (trimStart_fixed (trim s)) by apply trim_trimmed.
  apply trimEnd_idem.
Qed.

Lemma removeMatches_length (m : string -> option nat) (k : nat) (s : string) :
  String.length (removeMatches m k s) <= String.length s.
Proof.
  revert k. induction s as [|c s IH]; intro k; [reflexivity|].
  cbn [removeMatches]. destruct k as [|k].
  - destruct (m (String c s)) as [n|].
    + specialize (IH (n - 1)). cbn [String.length]. lia.
    + specialize (IH 0). cbn [String.length]. lia.
  - specialize (IH k). cbn [String.length]. lia.
Qed.

Lemma stripComments_no_comment (s : string) :
  has_comment s = false -> stripComments s = s.
Proof.
  induction s as [|c s IH]; intro H; [reflexivity|].
  rewrite stripComments_unfold. cbn [has_comment] in H.
  destruct (comment_match (String c s)); [discriminate|].
  now rewrite IH.
Qed.

Lemma includes_no_comment (s : string) :
  includes s "<!--" = false -> has_comment s = false.
Proof.
  induction s as [|c s IH]; intro H.
  - reflexivity.
  - rewrite includes_unfold in H.
    destruct (prefix "<!--" (String c s)) eqn:E; [discriminate|].
    cbn [has_comment]. unfold comment_match at 1. rewrite E. auto.
Qed.

(** X3. What [cleanSvg] returns carries no white space at either end
    and is no longer than the input. *)
Theorem cleanSvg_trimmed (svgContent : string) :
  trimmed (cleanSvg svgContent)
  /\ String.length (cleanSvg svgContent) <= String.length svgContent.
Proof.
  split; [apply trim_trimmed|].
  unfold cleanSvg, trim.
  pose proof (trimEnd_length (trimStart (removeMatches comment_match 0 svgContent))).
  pose proof (trimStart_length (removeMatches comment_match 0 svgContent)).
  pose proof (removeMatches_length comment_match 0 svgContent). lia.
Qed.

(** X4. On a text that contains no complete comment, in particular on
    one without the opening ["<!--"], [cleanSvg] only trims. *)
Theorem cleanSvg_without_comment (svgContent : string) :
  has_comment svgContent = false \/ includes svgContent "<!--" = false ->
  cleanSvg svgContent = trim svgContent.
Proof.
  intro H. unfold cleanSvg. fold (stripComments svgContent).
  rewrite stripComments_no_comment; [reflexivity|].
  destruct H as [H|H]; [exact H | now apply includes_no_comment].
Qed.

Lemma cleanSvg_without_comment_witness :
  includes "  <svg><path d='M0 0'/></svg> " "<!--" = false
  /\ cleanSvg "  <svg><path d='M0 0'/></svg> " = "<svg><path d='M0 0'/></svg>".
Proof.
  split; [reflexivity|].
  rewrite (cleanSvg_without_comment "  <svg><path d='M0 0'/></svg> ");
    [reflexivity | right; reflexivity].
Defined.

(** X5. Cleaning a cleaned copy again changes nothing, provided the
    first pass left no complete comment behind. *)
Theorem cleanSvg_idempotent (svgContent : string) :
  has_comment (cleanSvg svgContent) = false ->
  cleanSvg (cleanSvg svgContent) = cleanSvg svgContent.
Proof.
  intro H. unfold cleanSvg at 1. fold (stripComments (cleanSvg svgContent)).
  rewrite (stripComments_no_comment _ H). unfold cleanSvg. apply trim_idem.
Qed.

Lemma cleanSvg_idempotent_witness :
  has_comment (cleanSvg "<!-- a --> <svg><!-- b --></svg> ") = false
  /\ cleanSvg (cleanSvg "<!-- a --> <svg><!-- b --></svg> ")
     = cleanSvg "<!-- a --> <svg><!-- b --></svg> ".
Proof.
  split; [vm_compute; reflexivity|].
  apply (cleanSvg_idempotent "<!-- a --> <svg><!-- b --></svg> ").
  vm_compute. reflexivity.
Defined.

(** ** What the cleaning removes and what it keeps *)




















(** ** Names, tags and the categorizer *)

Lemma scanTags_nil (table : list (string * list string)) : scanTags table [] = None.
Proof.
  induction table as [|[category keywords] table IH]; [reflexivity|].
  cbn [scanTags].
  assert (H : existsb (tags_hit []) keywords = false)
    by (induction keywords; [reflexivity | assumption]).
  now rewrite H.
Qed.

Lemma truthy_override_not_misc (name : string) (v : jsval) :
  truthy (obj_get NAME_OVERRIDES name) = Some v -> v <> VStr "misc".
Proof.
  unfold obj_get. destruct (own_get NAME_OVERRIDES name) as [c|] eqn:E.
  - cbn [truthy]. destruct (String.eqb c ""); [discriminate|].
    intros [= <-] [= ->]. apply own_get_In in E.
    assert (Hall : forallb (fun kv => negb (String.eqb (snd kv) "misc"))
                     NAME_OVERRIDES = true) by (vm_compute; reflexivity).
    rewrite forallb_forall in Hall. specialize (Hall _ E). discriminate.
  - destruct (is_prototype_key name); cbn [truthy]; [|discriminate].
    intros [= <-]. discriminate.
Qed.

Lemma scanName_not_misc (name c : string) :
  scanName CATEGORY_KEYWORDS name = Some c -> c <> "misc".
Proof.
  intros H ->. apply scanName_In in H.
  assert (Hall : forallb (fun k => negb (String.eqb k "misc"))
                   (map fst CATEGORY_KEYWORDS) = true) by (vm_compute; reflexivity).
  rewrite forallb_forall in Hall. specialize (Hall _ H). discriminate.
Qed.

Lemma In_own_get {V : Type} (o : list (string * V)) (k : string) (v : V) :
  In (k, v) o -> exists v', own_get o k = Some v'.
Proof.
  induction o as [|[k' v'] o IH]; [contradiction|].
  cbn [In own_get]. destruct (String.eqb_spec k' k) as [->|Hne]; [eauto|].
  intros [[= -> _]|H]; [congruence | auto].
Qed.

Lemma scanName_found (table : list (string * list string)) (name c : string) :
  scanName table name = Some c ->
  exists keywords keyword,
    In (c, keywords) table /\ In keyword keywords /\ name_hit name keyword = true.
Proof.
  induction table as [|[category keywords] table IH]; cbn [scanName]; [discriminate|].
  destruct (existsb (name_hit name) keywords) eqn:E.
  - intros [= <-]. apply existsb_exists in E as (keyword & Hin & Hhit).
    exists keywords, keyword. split; [now left | now split].
  - intro H. destruct (IH H) as (ks & k & Hin & Hk & Hhit).
    exists ks, k. split; [now right | now split].
Qed.

Lemma scanName_hit (table : list (string * list string)) (name category : string)
  (keywords : list string) (keyword : string) :
  In (category, keywords) table -> In keyword keywords ->
  name_hit name keyword = true ->
  scanName table name <> None.
Proof.
  intros Hin Hk Hhit. induction table as [|[c ks] table IH]; [contradiction|].
  cbn [scanName]. destruct (existsb (name_hit name) ks) eqn:E; [discriminate|].
  destruct Hin as [[= -> ->]|Hin]; [|now apply IH].
  assert (Hex : existsb (name_hit name) keywords = true)
    by (apply existsb_exists; eauto).
  congruence.
Qed.

(** The name decides exactly when the first or the second step of the
    categorizer gives a category. *)
Lemma name_decides_steps (name : string) :
  name_decides name
  <-> truthy (obj_get NAME_OVERRIDES name) <> None
      \/ scanName CATEGORY_KEYWORDS name <> None.
Proof.
  unfold name_decides. split.
  - intros [(category & H)|[H|(category & keywords & keyword & Hin & Hk & Hhit)]].
    + left. apply In_own_get in H as [c Hc]. unfold obj_get. rewrite Hc.
      destruct (table_ok_get NAME_OVERRIDES name c) as [_ Hne];
        [vm_compute; reflexivity | exact Hc |].
      cbn [truthy]. apply String.eqb_neq in Hne. rewrite Hne. discriminate.
    + left. unfold obj_get.
      destruct (own_get NAME_OVERRIDES name) as [c|] eqn:Hc.
      * destruct (table_ok_get NAME_OVERRIDES name c) as [_ Hne];
          [vm_compute; reflexivity | exact Hc |].
        cbn [truthy]. apply String.eqb_neq in Hne. rewrite Hne. discriminate.
      * assert (Hkey : is_prototype_key name = true).
        { unfold is_prototype_key. apply existsb_exists. exists name.
          split; [exact H | apply String.eqb_refl]. }
        rewrite Hkey. discriminate.
    + right. apply (scanName_hit _ _ category keywords keyword Hin Hk).
      unfold name_hit. apply orb_true_iff. exact Hhit.
  - intros [H|H].
    + unfold obj_get in H. destruct (own_get NAME_OVERRIDES name) as [c|] eqn:Hc.
      * left. exists c. now apply own_get_In.
      * right. left. destruct (is_prototype_key name) eqn:Hkey;
          [|now elim H].
        unfold is_prototype_key in Hkey.
        apply existsb_exists in Hkey as (k & Hin & Heq).
        apply String.eqb_eq in Heq. now subst k.
    + right. right. destruct (scanName CATEGORY_KEYWORDS name) as [c|] eqn:Hc;
        [|now elim H].
      apply scanName_found in Hc as (keywords & keyword & Hin & Hk & Hhit).
      exists c, keywords, keyword. split; [exact Hin|]. split; [exact Hk|].
      unfold name_hit in Hhit. now apply orb_true_iff in Hhit.
Qed.

(** X6. When the name alone decides the category, by an override of
    its own, as the name of a member every object inherits, or by a
    keyword of some category found in it, the result is not 'misc' and
    the tags are never looked at, not even tags that cannot be iterated;
    when the name decides nothing, missing or empty tags give 'misc' and
    tags that are not iterable make the call throw. *)
Theorem categorize_name_or_tags (name : string) :
  (name_decides name ->
   exists v, v <> VStr "misc"
             /\ forall tags, categorizeByKeywords name tags = Normal v)
  /\ (~ name_decides name ->
      categorizeByKeywords name TagsNullish = Normal (VStr "misc")
      /\ categorizeByKeywords name (TagsArray []) = Normal (VStr "misc")
      /\ forall key, categorizeByKeywords name (TagsInherited key)
                     = Throws "TypeError: tags is not iterable").
Proof.
  rewrite name_decides_steps. unfold categorizeByKeywords.
  destruct (truthy (obj_get NAME_OVERRIDES name)) as [v|] eqn:Hov.
  - split; [|intro H; elim H; left; discriminate].
    intros _. exists v.
    split; [now apply (truthy_override_not_misc name) | reflexivity].
  - destruct (scanName CATEGORY_KEYWORDS name) as [c|] eqn:Hscan.
    + split; [|intro H; elim H; right; discriminate].
      intros _. exists (VStr c). split; [|reflexivity].
      intros [= ->]. now apply (scanName_not_misc name "misc").
    + split; [intros [H|H]; now elim H|].
      intros _. rewrite scanTags_nil. repeat split.
Qed.

Lemma categorize_name_or_tags_witness :
  name_decides "arrow-up"
  /\ (forall tags, categorizeByKeywords "arrow-up" tags = Normal (VStr "arrows"))
  /\ ~ name_decides "zebra"
  /\ categorizeByKeywords "zebra" (TagsArray []) = Normal (VStr "misc")
  /\ categorizeByKeywords "zebra" (TagsInherited "constructor")
     = Throws "TypeError: tags is not iterable".
Proof.
  assert (H1 : name_decides "arrow-up").
  { apply name_decides_steps. right. vm_compute. discriminate. }
  assert (H2 : ~ name_decides "zebra").
  { intro H. apply name_decides_steps in H as [H|H]; now apply H. }
  split; [exact H1|]. split.
  - destruct (proj1 (categorize_name_or_tags "arrow-up") H1) as (v & _ & Hv).
    intro tags. rewrite (Hv tags), <- (Hv TagsNullish). reflexivity.
  - split; [exact H2|].
    destruct (proj2 (categorize_name_or_tags "zebra") H2) as (_ & Hempty & Hthrow).
    split; [exact Hempty | apply Hthrow].
Defined.

Lemma existsb_ext_In {A : Type} (f : A -> bool) (l l' : list A) :
  (forall x, In x l <-> In x l') -> existsb f l = existsb f l'.
Proof.
  intro H. apply eq_true_iff_eq. rewrite !existsb_exists.
  split; intros (x & Hin & Hx); exists x; split; auto; now apply H.
Qed.

Lemma tags_hit_lower (tags : list string) (keyword : string) :
  tags_hit tags keyword
  = existsb (fun t => includes t (stripSuffix "-" keyword)) (map toLowerCase tags).
Proof.
  unfold tags_hit. induction tags as [|t tags IH]; [reflexivity|].
  cbn [existsb map]. now rewrite IH.
Qed.

Lemma scanTags_ext (table : list (string * list string)) (tags tags' : list string) :
  (forall t, In t (map toLowerCase tags) <-> In t (map toLowerCase tags')) ->
  scanTags table tags = scanTags table tags'.
Proof.
  intro H. induction table as [|[category keywords] table IH]; [reflexivity|].
  cbn [scanTags]. rewrite IH.
  replace (existsb (tags_hit tags') keywords) with (existsb (tags_hit tags) keywords);
    [reflexivity|].
  induction keywords as [|k keywords IHk]; [reflexivity|].
  cbn [existsb]. rewrite IHk. f_equal.
  rewrite !tags_hit_lower. now apply existsb_ext_In.
Qed.

(** X7. The tags count as a set of lower-cased strings: two tag arrays
    with the same tags up to order, repetition and the case of their
    letters give the same category. *)
Theorem categorize_tags_as_set (name : string) (tags tags' : list string) :
  (forall t, In t (map toLowerCase tags) <-> In t (map toLowerCase tags')) ->
  categorizeByKeywords name (TagsArray tags)
  = categorizeByKeywords name (TagsArray tags').
Proof.
  intro H. unfold categorizeByKeywords.
  now rewrite (scanTags_ext CATEGORY_KEYWORDS tags tags' H).
Qed.

Lemma categorize_tags_as_set_witness :
  (forall t, In t (map toLowerCase ["Sun"; "day"])
             <-> In t (map toLowerCase ["DAY"; "sun"; "Day"]))
  /\ categorizeByKeywords "zzz" (TagsArray ["Sun"; "day"])
     = categorizeByKeywords "zzz" (TagsArray ["DAY"; "sun"; "Day"]).
Proof.
  assert (H : forall t, In t (map toLowerCase ["Sun"; "day"])
                        <-> In t (map toLowerCase ["DAY"; "sun"; "Day"])).
  { intro t. vm_compute. tauto. }
  split; [exact H|].
  apply (categorize_tags_as_set "zzz" ["Sun"; "day"] ["DAY"; "sun"; "Day"] H).
Defined.

(** ** The statistics and the report *)

Lemma typeStats_fold (allIcons : list Icon) (st : Stats) :
  typeStats (fold_left stats_step allIcons st)
  = fold_left bump (map icon_type allIcons) (typeStats st).
Proof.
  revert st. induction allIcons as [|i l IH]; intro st; [reflexivity|].
  cbn [fold_left map]. now rewrite IH.
Qed.

Lemma uncategorized_fold (allIcons : list Icon) (st : Stats) :
  uncategorized (fold_left stats_step allIcons st)
  = uncategorized st
    ++ map uncategorized_entry (filter (fun i => is_misc (icon_category i)) allIcons).
Proof.
  revert st. induction allIcons as [|i l IH]; intro st.
  - cbn [fold_left filter map]. now rewrite app_nil_r.
  - cbn [fold_left filter]. rewrite IH. cbn [stats_step uncategorized].
    destruct (is_misc (icon_category i)); [|reflexivity].
    cbn [map]. now rewrite <- app_assoc.
Qed.

Lemma occurrences_map {A : Type} (key : A -> string) (l : list A) (k : string) :
  occurrences (map key l) k
  = List.length (filter (fun i => String.eqb (key i) k) l).
Proof.
  unfold occurrences. induction l as [|i l IH]; [reflexivity|].
  cbn [map filter]. rewrite (String.eqb_sym k (key i)).
  destruct (String.eqb (key i) k); cbn [List.length]; now rewrite IH.
Qed.

Lemma occurrences_snoc (l : list string) (x k : string) :
  occurrences (l ++ [x]) k = occurrences l k + (if String.eqb x k then 1 else 0).
Proof.
  unfold occurrences. rewrite filter_app, length_app. cbn [filter].
  rewrite (String.eqb_sym k x). now destruct (String.eqb x k).
Qed.

Lemma keys_own_set {V : Type} (o : list (string * V)) (k k' : string) (v : V) :
  In k' (map fst (own_set o k v)) <-> k' = k \/ In k' (map fst o).
Proof.
  induction o as [|[k0 v0] o IH]; cbn [own_set map In fst].
  - intuition.
  - destruct (String.eqb_spec k0 k) as [->|Hne]; cbn [map In fst].
    + intuition.
    + rewrite IH. intuition.
Qed.

Lemma NoDup_own_set {V : Type} (o : list (string * V)) (k : string) (v : V) :
  NoDup (map fst o) -> NoDup (map fst (own_set o k v)).
Proof.
  induction o as [|[k0 v0] o IH]; cbn [own_set map fst]; intro H.
  - constructor; [intros [] | constructor].
  - inversion H as [|? ? Hnot Hrest]; subst.
    destruct (String.eqb_spec k0 k) as [->|Hne]; cbn [map fst].
    + now constructor.
    + constructor; [|auto]. rewrite keys_own_set. intros [->|Hin]; auto.
Qed.

Lemma own_get_iff_In {V : Type} (o : list (string * V)) (k : string) (v : V) :
  NoDup (map fst o) -> (In (k, v) o <-> own_get o k = Some v).
Proof.
  intro H. split; [|apply own_get_In].
  induction o as [|[k0 v0] o IH]; [intros []|].
  inversion H as [|? ? Hnot Hrest]; subst. cbn [In own_get].
  intros [[= -> ->]|Hin].
  - now rewrite String.eqb_refl.
  - destruct (String.eqb_spec k0 k) as [->|Hne]; [|auto].
    exfalso. apply Hnot. change k with (fst (k, v)). now apply in_map.
Qed.

Lemma sum_bump (st : list (string * nat)) (k : string) :
  list_sum (map snd (bump st k)) = S (list_sum (map snd st)).
Proof.
  unfold bump. induction st as [|[k0 v0] st IH].
  - reflexivity.
  - unfold count_of in *. cbn [own_get own_set].
    destruct (String.eqb k0 k); cbn [map snd].
    + change (list_sum (?a :: ?l)) with (a + list_sum l). lia.
    + change (list_sum (?a :: ?l)) with (a + list_sum l). rewrite IH. lia.
Qed.

Lemma own_get_bump (st : list (string * nat)) (x k : string) :
  own_get (bump st x) k
  = if String.eqb x k then Some (count_of st x + 1) else own_get st k.
Proof. unfold bump. apply own_get_own_set. Qed.

(** The counting loop: after the keys [keys], the object holds one
    property for each key that occurred, with its number of occurrences. *)
Lemma bump_fold (keys : list string) :
  NoDup (map fst (fold_left bump keys []))
  /\ (forall k, own_get (fold_left bump keys []) k
                = if Nat.eqb (occurrences keys k) 0 then None
                  else Some (occurrences keys k))
  /\ list_sum (map snd (fold_left bump keys [])) = List.length keys.
Proof.
  induction keys as [|x keys (IH1 & IH2 & IH3)] using rev_ind.
  - split; [constructor|]. split; [reflexivity | reflexivity].
  - rewrite fold_left_app. cbn [fold_left]. split; [|split].
    + now apply NoDup_own_set.
    + intro k. rewrite own_get_bump, occurrences_snoc.
      assert (Hx : count_of (fold_left bump keys []) x = occurrences keys x).
      { unfold count_of. rewrite IH2.
        destruct (Nat.eqb_spec (occurrences keys x) 0); auto. }
      rewrite Hx. destruct (String.eqb_spec x k) as [->|Hne].
      * destruct (Nat.eqb_spec (occurrences keys k + 1) 0); [lia | reflexivity].
      * rewrite Nat.add_0_r. apply IH2.
    + rewrite sum_bump, IH3, length_app. cbn [List.length]. lia.
Qed.

Lemma insert_by_count_perm (x : string * nat) (l : list (string * nat)) :
  Permutation (x :: l) (insert_by_count x l).
Proof.
  induction l as [|y l IH]; [reflexivity|].
  cbn [insert_by_count]. destruct (snd y <=? snd x)%nat; [reflexivity|].
  rewrite perm_swap. now constructor.
Qed.

Lemma sortByCount_perm (l : list (string * nat)) : Permutation l (sortByCount l).
Proof.
  induction l as [|x l IH]; [constructor|].
  cbn [sortByCount fold_right]. fold (sortByCount l).
  rewrite <- insert_by_count_perm. now constructor.
Qed.

Lemma insert_by_count_sorted (x : string * nat) (l : list (string * nat)) :
  StronglySorted (fun a b => snd b <= snd a) l ->
  StronglySorted (fun a b => snd b <= snd a) (insert_by_count x l).
Proof.
  induction 1 as [|y l Hl IH Hy]; [repeat constructor|].
  cbn [insert_by_count]. destruct (Nat.leb_spec (snd y) (snd x)) as [Hle|Hlt].
  - constructor; [now constructor|].
    constructor; [exact Hle|].
    eapply Forall_impl; [|exact Hy]. cbn beta. intros z Hz. lia.
  - constructor; [exact IH|].
    apply (Permutation_Forall (insert_by_count_perm x l)).
    constructor; [lia | exact Hy].
Qed.

Lemma sortByCount_sorted (l : list (string * nat)) :
  StronglySorted (fun a b => snd b <= snd a) (sortByCount l).
Proof.
  induction l as [|x l IH]; [constructor|].
  cbn [sortByCount fold_right]. now apply insert_by_count_sorted.
Qed.

Lemma list_sum_perm (l l' : list nat) :
  Permutation l l' -> list_sum l = list_sum l'.
Proof.
  induction 1 as [|x l l' _ IH|x y l|l l' l'' _ IH1 _ IH2];
    repeat change (list_sum (?a :: ?l)) with (a + list_sum l); lia.
Qed.

Lemma breakdown_sorted (key : Icon -> string) (allIcons : list Icon) :
  breakdown_of key allIcons
    (sortByCount (fold_left bump (map key allIcons) [])).
Proof.
  destruct (bump_fold (map key allIcons)) as (H1 & H2 & H3).
  pose proof (sortByCount_perm (fold_left bump (map key allIcons) [])) as Hp.
  split.
  - apply (Permutation_NoDup (Permutation_map fst Hp) H1).
  - intros k n. rewrite <- occurrences_map.
    transitivity (In (k, n) (fold_left bump (map key allIcons) [])).
    + split; apply Permutation_in; [now apply Permutation_sym | exact Hp].
    + rewrite (own_get_iff_In _ _ _ H1), H2.
      destruct (Nat.eqb_spec (occurrences (map key allIcons) k) 0) as [E|E].
      * split; [discriminate | lia].
      * split; [intros [= <-]; lia | intros [_ ->]; reflexivity].
  - apply sortByCount_sorted.
  - rewrite <- (list_sum_perm _ _ (Permutation_map snd Hp)), H3. apply length_map.
Qed.

(** X8. The report of a run accounts for every icon of the manifest:
    the icons listed as uncategorized are those of category 'misc', in
    manifest order, [uncategorizedCount] is their number, and
    [categorized] is the number of the others. *)
Theorem report_accounts_for_icons (now : string) (w : World) (out : Outputs)
  (log : list effect) :
  run_main now w = Normal (out, log) ->
  let all := icons (manifest_json out) in
  let misc := filter (fun i => is_misc (icon_category i)) all in
  totalIcons (report_json out) = List.length all
  /\ uncategorizedIcons (report_json out) = map uncategorized_entry misc
  /\ uncategorizedCount (report_json out) = List.length misc
  /\ categorized (report_json out)
     = List.length (filter (fun i => negb (is_misc (icon_category i))) all)
  /\ categorized (report_json out) + uncategorizedCount (report_json out)
     = totalIcons (report_json out).
Proof.
  intro H. destruct (run_main_outputs _ _ _ _ H) as (allIcons & log1 & _ & -> & _).
  cbn [buildOutputs manifest_json report_json icons totalIcons
       uncategorizedIcons uncategorizedCount categorized].
  unfold calculateStats. rewrite uncategorized_fold. cbn [uncategorized app].
  rewrite length_map.
  assert (Hsplit : List.length (filter (fun i => negb (is_misc (icon_category i))) allIcons)
                   + List.length (filter (fun i => is_misc (icon_category i)) allIcons)
                   = List.length allIcons).
  { clear H. induction allIcons as [|i l IH]; [reflexivity|].
    cbn [filter]. destruct (is_misc (icon_category i)); cbn [negb List.length]; lia. }
  repeat split; lia.
Qed.

Lemma report_accounts_for_icons_witness :
  match run_main "2026-01-01T00:00:00.000Z" remix_world with
  | Normal (out, _) =>
      totalIcons (report_json out) = 3
      /\ categorized (report_json out) = 2
      /\ map unc_id (uncategorizedIcons (report_json out)) = ["remix/outline/seedling"]
  | Throws _ => False
  end.
Proof.
  destruct (run_main "2026-01-01T00:00:00.000Z" remix_world) as [[out log]|e] eqn:E.
  - pose proof (report_accounts_for_icons _ _ _ _ E) as H. cbv zeta in H.
    vm_compute in E. injection E as <- <-. 
    destruct H as (H1 & H2 & H3 & H4 & H5).
    split; [exact H1|]. split; [exact H4|]. reflexivity.
  - vm_compute in E. discriminate E.
Defined.

(** X9. Each breakdown of the report (by library, by style, by
    category) lists every key that occurs among the icons once, with
    the number of icons that carry it, by descending count; its counts
    add up to the number of icons, also when some icon carries an
    inherited member as its category. *)
Theorem report_breakdowns (now : string) (w : World) (out : Outputs)
  (log : list effect) :
  run_main now w = Normal (out, log) ->
  let all := icons (manifest_json out) in
  breakdown_of icon_library all (libraryBreakdown (report_json out))
  /\ breakdown_of icon_type all (typeBreakdown (report_json out))
  /\ breakdown_of (fun i => property_key (icon_category i)) all
       (categoryBreakdown (report_json out)).
Proof.
  intro H. destruct (run_main_outputs _ _ _ _ H) as (allIcons & log1 & _ & -> & _).
  cbn [buildOutputs manifest_json report_json icons
       libraryBreakdown typeBreakdown categoryBreakdown].
  unfold calculateStats.
  rewrite libraryStats_fold, typeStats_fold, categoryStats_fold.
  cbn [libraryStats typeStats categoryStats].
  split; [|split]; apply breakdown_sorted.
Qed.

Lemma report_breakdowns_witness :
  match run_main "2026-01-01T00:00:00.000Z" world_with_constructor_icon with
  | Normal (out, _) =>
      breakdown_of (fun i => property_key (icon_category i))
        (icons (manifest_json out)) (categoryBreakdown (report_json out))
      /\ categoryBreakdown (report_json out)
         = [("function Object() { [native code] }", 1)]
  | Throws _ => False
  end.
Proof.
  destruct (run_main "2026-01-01T00:00:00.000Z" world_with_constructor_icon)
    as [[out log]|e] eqn:E.
  - pose proof (report_breakdowns _ _ _ _ E) as H. cbv zeta in H.
    split; [exact (proj2 (proj2 H))|].
    vm_compute in E. injection E as <- <-. reflexivity.
  - vm_compute in E. discriminate E.
Defined.

Lemma libraryEntries_counts (st : list (string * nat)) (l : LibraryEntry) :
  In l (libraryEntries st) -> lib_iconCount l = count_of st (lib_id l).
Proof.
  unfold libraryEntries. cbn [In].
  intro H. repeat (destruct H as [<-|H]; [reflexivity|]). contradiction.
Qed.

(** X10. The counts of the manifest are the counts of its icons: each
    category entry holds the number of icons whose category is its id,
    and each library entry the number of icons of that library. *)
Theorem manifest_counts (now : string) (allIcons : list Icon) :
  let m := manifest_json (buildOutputs now allIcons) in
  (forall e, In e (categories m) ->
     entry_count e = List.length (filter (in_category (entry_id e)) (icons m)))
  /\ (forall l, In l (libraries m) ->
        lib_iconCount l
        = List.length (filter (fun i => String.eqb (icon_library i) (lib_id l))
                         (icons m))).
Proof.
  cbn [buildOutputs manifest_json categories libraries icons]. split.
  - intros e He. apply in_map_iff in He as (cat & <- & Hcat).
    cbn [entry_count entry_id]. unfold calculateStats.
    rewrite categoryStats_fold. cbn [categoryStats].
    rewrite count_of_fold, occurrences_map. unfold count_of. cbn [own_get].
    rewrite Nat.add_0_r. f_equal. apply filter_ext. intro i.
    unfold in_category. destruct (icon_category i) as [s|k]; [reflexivity|].
    cbn [property_key]. apply String.eqb_neq. intro Heq.
    pose proof (inherited_key_no_category k) as Hk. rewrite Heq in Hk.
    assert (Hid : is_category_id (cat_id cat) = true).
    { apply is_category_id_In. unfold category_ids. now apply in_map. }
    congruence.
  - intros l Hl. rewrite (libraryEntries_counts _ _ Hl). unfold calculateStats.
    rewrite libraryStats_fold. cbn [libraryStats].
    rewrite count_of_fold, occurrences_map. unfold count_of. cbn [own_get].
    now rewrite Nat.add_0_r.
Qed.

(** ** Icons and the files written for them *)

Lemma pure_ret {A : Type} (w : World) (a : A) (F : A -> Prop) :
  F a -> pure w (ret a) F.
Proof. intros H log a' log' [= <- <-]. auto. Qed.

Lemma pure_throw {A : Type} (w : World) (e : string) (F : A -> Prop) :
  pure w (throw e) F.
Proof. intros log a log' H. discriminate H. Qed.

Lemma pure_lift {A : Type} (w : World) (c : completion A) :
  pure w (lift c) (fun a => c = Normal a).
Proof.
  intros log a log' H. destruct c as [a0|e]; [|discriminate H].
  injection H as <- <-. auto.
Qed.

Lemma pure_weaken {A : Type} (w : World) (m : Run A) (F G : A -> Prop) :
  pure w m F -> (forall a, F a -> G a) -> pure w m G.
Proof. intros Hm HFG log a log' H. destruct (Hm _ _ _ H). auto. Qed.

Lemma pure_bind {A B : Type} (w : World) (m : Run A) (k : A -> Run B)
  (F : A -> Prop) (G : B -> Prop) :
  pure w m F -> (forall a, F a -> pure w (k a) G) -> pure w (bind m k) G.
Proof.
  intros Hm Hk log b log' H. unfold bind in H.
  destruct (m w log) as [[a log1]|e] eqn:E; [|discriminate].
  destruct (Hm _ _ _ E) as [-> Ha]. exact (Hk a Ha _ _ _ H).
Qed.

Lemma pure_for_of {A S : Type} (w : World) (xs : list A)
  (body : A -> S -> Run S) (s : S) :
  (forall x s, In x xs -> pure w (body x s) (fun _ => True)) ->
  pure w (for_of xs body s) (fun _ => True).
Proof.
  revert s. induction xs as [|x xs IH]; intros s Hbody.
  - now apply pure_ret.
  - cbn [for_of]. apply (pure_bind w _ _ (fun _ => True)).
    + apply Hbody. now left.
    + intros s' _. apply IH. intros y t Hy. apply Hbody. now right.
Qed.

(** What a filter keeps was in the list. *)
Lemma pure_filterM {A : Type} (w : World) (p : A -> Run bool) (xs : list A) :
  (forall x, pure w (p x) (fun _ => True)) ->
  pure w (filterM p xs) (fun kept => incl kept xs).
Proof.
  intro Hp. induction xs as [|x xs IH]; [apply pure_ret; apply incl_refl|].
  cbn [filterM]. apply (pure_bind w _ _ (fun _ => True)); [apply Hp|].
  intros keep _. apply (pure_bind w _ _ _ _ IH).
  intros rest Hrest. apply pure_ret. destruct keep.
  - intros y [<-|Hy]; [now left | right; now apply Hrest].
  - intros y Hy. right. now apply Hrest.
Qed.

Lemma pure_existsSync (w : World) (p : string) :
  pure w (existsSync p) (fun _ => True).
Proof. intros log a log' [= _ <-]. auto. Qed.

Lemma pure_readdirSync (w : World) (p : string) :
  pure w (readdirSync p) (fun entries => fs w p = Some (Dir entries)).
Proof.
  intros log a log' H. unfold readdirSync in H.
  destruct (fs w p) as [[c|entries]|]; try discriminate H.
  injection H as <- <-. auto.
Qed.

Lemma pure_isDirectory (w : World) (p : string) :
  pure w (isDirectory p) (fun _ => True).
Proof.
  intros log a log' H. unfold isDirectory in H.
  destruct (fs w p) as [[c|entries]|]; try discriminate H;
    injection H as <- <-; auto.
Qed.

Lemma pure_readFileSync (w : World) (p : string) :
  pure w (readFileSync p) (fun content => fs w p = Some (File content)).
Proof.
  intros log a log' H. unfold readFileSync in H.
  destruct (fs w p) as [[c|entries]|]; try discriminate H.
  injection H as <- <-. auto.
Qed.

Lemma pure_load {A : Type} (w : World) (field : World -> option A) :
  pure w (load field) (fun a => field w = Some a).
Proof.
  intros log a log' H. unfold load in H.
  destruct (field w); [|discriminate H]. injection H as <- <-. auto.
Qed.

Lemma In_insert_sorted (x y : string) (l : list string) :
  In y (insert_sorted x l) <-> y = x \/ In y l.
Proof.
  induction l as [|z l IH]; cbn [insert_sorted In]; [intuition|].
  destruct (String.leb x z); cbn [In]; [intuition|]. rewrite IH. intuition.
Qed.

Lemma In_sort (y : string) (l : list string) : In y (sort l) <-> In y l.
Proof.
  induction l as [|x l IH]; [reflexivity|].
  unfold sort. cbn [fold_right]. fold (sort l).
  rewrite In_insert_sorted, IH. cbn [In]. intuition.
Qed.

Lemma unbordered_svg : unbordered ".svg".
Proof.
  intros x Hne H.
  destruct x as [|c1 [|c2 [|c3 [|c4 x]]]]; try congruence;
    cbn [prefix append] in *; prefix_cases; try reflexivity; try congruence.
  destruct x; discriminate.
Qed.

Lemma stripSuffix_split (p s : string) :
  endsWith s p = true -> s = (stripSuffix p s ++ p)%string.
Proof.
  intro H. apply endsWith_split in H as [pre ->].
  now rewrite stripSuffix_append.
Qed.

(** A copied file keeps its name when ".svg" is put back after the
    first ".svg" has been removed. *)
Lemma plain_file (w : World) (dir : string) (entries : list string)
  (file : string) :
  plain_names w -> In dir copied_dirs -> fs w dir = Some (Dir entries) ->
  In file (sort (svgFilesOf entries)) ->
  (replaceFirst ".svg" "" file ++ ".svg")%string = file.
Proof.
  intros Hplain Hdir Hfs Hin. apply (proj1 (In_sort _ _)) in Hin.
  unfold svgFilesOf in Hin. apply filter_In in Hin as [Hin Hsvg].
  specialize (Hplain dir entries file Hdir Hfs Hin Hsvg).
  rewrite (stripSuffix_split _ _ Hsvg) at 1.
  rewrite (replaceFirst_append _ _ unbordered_svg Hplain).
  symmetry. now apply stripSuffix_split.
Qed.

Lemma prefix_same_head (c : ascii) (p s : string) :
  prefix (String c p) (String c s) = prefix p s.
Proof. cbn [prefix]. destruct (ascii_dec c c); [reflexivity | congruence]. Qed.

Ltac pure_true :=
  repeat lazymatch goal with
    | |- pure _ (ret _) _ => apply pure_ret; exact I
    | |- pure _ (throw _) _ => apply pure_throw
    | |- pure ?w (lift ?c) _ =>
        apply (pure_weaken w _ _ _ (pure_lift w c)); intros; exact I
    | |- pure ?w (existsSync ?p) _ => apply pure_existsSync
    | |- pure ?w (isDirectory ?p) _ => apply pure_isDirectory
    | |- pure ?w (readdirSync ?p) _ =>
        apply (pure_weaken w _ _ _ (pure_readdirSync w p)); intros; exact I
    | |- pure ?w (readFileSync ?p) _ =>
        apply (pure_weaken w _ _ _ (pure_readFileSync w p)); intros; exact I
    | |- pure ?w (load ?f) _ =>
        apply (pure_weaken w _ _ _ (pure_load w f)); intros; exact I
    | |- pure ?w (filterM ?p ?xs) _ =>
        apply (pure_weaken w _ _ _ (pure_filterM w p xs ltac:(intro; pure_true)));
        intros; exact I
    | |- pure ?w (bind ?m ?k) _ =>
        apply (pure_bind w m k (fun _ => True)); [|intros ? _]
    | |- pure _ (for_of _ _ _) _ => apply pure_for_of; intros ? ? _
    | |- pure _ (if ?b then _ else _) _ => destruct b
    | |- pure _ (match ?x with _ => _ end) _ => destruct x
    | |- pure _ _ _ => progress cbv beta zeta
    end.

(** The hypotheses that fix the style of the icon at hand. *)
Ltac fix_style :=
  repeat match goal with
    | H : In _ phosphor_styles |- _ =>
        unfold phosphor_styles in H; cbn [In] in H;
        destruct H as [<-|[<-|[<-|[]]]]
    | H : In _ iconpark_themes |- _ =>
        unfold iconpark_themes in H; cbn [In] in H;
        destruct H as [[= <- <-]|[[= <- <-]|[]]]
    | H : remixSplit ?r = (_, _) |- _ =>
        unfold remixSplit in H;
        destruct (endsWith r "-fill"); [|destruct (endsWith r "-line")];
        injection H as <- <-
    | H : ioniconsSplit ?r = (_, _) |- _ =>
        unfold ioniconsSplit in H;
        destruct (endsWith r "-outline"); [|destruct (endsWith r "-sharp")];
        injection H as <- <-
    | |- context [if endsWith ?n "-outline" then _ else _] =>
        destruct (endsWith n "-outline")
    end.

Ltac solve_member := repeat (first [left; reflexivity | right]).

(** *** What the adapters return *)

Lemma result_ret {A : Type} (w : World) (a : A) (F : A -> Prop) :
  F a -> result w (ret a) F.
Proof. intros H log a' log' [= <- _]. exact H. Qed.

Lemma result_throw {A : Type} (w : World) (e : string) (F : A -> Prop) :
  result w (throw e) F.
Proof. intros log a log' H. discriminate H. Qed.

Lemma result_true {A : Type} (w : World) (m : Run A) :
  result w m (fun _ => True).
Proof. intros log a log' _. exact I. Qed.

Lemma result_pure {A : Type} (w : World) (m : Run A) (F : A -> Prop) :
  pure w m F -> result w m F.
Proof. intros H log a log' E. exact (proj2 (H _ _ _ E)). Qed.

Lemma result_bind {A B : Type} (w : World) (m : Run A) (k : A -> Run B)
  (F : A -> Prop) (G : B -> Prop) :
  result w m F -> (forall a, F a -> result w (k a) G) -> result w (bind m k) G.
Proof.
  intros Hm Hk log b log' H. unfold bind in H.
  destruct (m w log) as [[a log1]|e] eqn:E; [|discriminate].
  exact (Hk a (Hm _ _ _ E) _ _ _ H).
Qed.

Lemma result_for_of {A S : Type} (w : World) (xs : list A)
  (body : A -> S -> Run S) (I : S -> Prop) (s : S) :
  (forall x s, In x xs -> I s -> result w (body x s) I) ->
  I s -> result w (for_of xs body s) I.
Proof.
  revert s. induction xs as [|x xs IH]; intros s Hbody Hs.
  - now apply result_ret.
  - cbn [for_of]. apply (result_bind w _ _ I).
    + apply Hbody; [now left | assumption].
    + intros s' Hs'. apply IH; [|assumption].
      intros y t Hy. apply Hbody. now right.
Qed.

Lemma result_try_catch {S : Type} (w : World) (body : Run S) (s : S)
  (F : S -> Prop) :
  result w body F -> F s -> result w (try_catch body s) F.
Proof.
  intros Hbody Hs log a log' H. unfold try_catch in H.
  destruct (body w log) as [[a0 log0]|e] eqn:E.
  - injection H as <- <-. exact (Hbody _ _ _ E).
  - injection H as <- _. exact Hs.
Qed.

(** The icons collected: those there already, and the one added. *)
Ltac collected solver :=
  first [ assumption
        | constructor
        | apply Forall_snoc; [assumption | solver] ].

(** One step through an adapter; [P] is what is shown of every icon. *)
Ltac result_step P solver :=
  lazymatch goal with
  | |- result _ (ret _) _ => apply result_ret; collected solver
  | |- result _ (throw _) _ => apply result_throw
  | |- result ?w (bind ?m ?k) ?G =>
      lazymatch m with
      | readdirSync ?p =>
          apply (result_bind w m k _ G (result_pure w _ _ (pure_readdirSync w p)));
          intros ? ?
      | load ?f =>
          apply (result_bind w m k _ G (result_pure w _ _ (pure_load w f)));
          intros ? ?
      | _ =>
          first [ apply (result_bind w m k (Forall P) G); [|intros ? ?]
                | apply (result_bind w m k (fun _ => True) G (result_true w m));
                  intros ? _ ]
      end
  | |- result _ (for_of _ _ _) _ =>
      apply result_for_of; [intros ? ? ? ? | collected solver]
  | |- result _ (try_catch _ _) _ =>
      apply result_try_catch; [|collected solver]
  | |- result _ (if ?b then _ else _) _ => destruct b eqn:?
  | |- result _ (match ?x with _ => _ end) _ => destruct x eqn:?
  | |- result _ ((match ?x with _ => _ end) _) _ => destruct x eqn:?
  | |- result _ _ _ => progress cbv beta zeta
  end.

Ltac result_auto P solver := repeat result_step P solver.

(** What [runAll] returns is made of what the adapters return. *)
Lemma runAll_result (w : World) (P : Icon -> Prop) :
  (forall p, In p processors -> result w p (Forall P)) ->
  result w (runAll processors) (Forall P).
Proof.
  intro Hp. unfold runAll. apply result_for_of; [|constructor].
  intros p icons Hin Hicons.
  apply (result_bind w p _ (Forall P)); [now apply Hp|].
  intros more Hmore. apply result_ret. apply Forall_app. now split.
Qed.

Ltac solve_shape :=
  unfold icon_shape; cbn [icon_type icon_id icon_library];
  fix_style; cbn [style_dir style_type];
  unfold startsWith, icon_styles; cbn [append In];
  (split; [solve_member | repeat rewrite prefix_same_head; apply prefix_nil]).

Lemma processors_shaped (w : World) (p : Run (list Icon)) :
  In p processors -> result w p (Forall icon_shape).
Proof.
  unfold processors. cbn [In].
  intros [<-|[<-|[<-|[<-|[<-|[<-|[<-|[<-|[<-|[<-|[<-|[]]]]]]]]]]]].
  - unfold processLucide. result_auto icon_shape ltac:(solve_shape).
  - unfold processTabler, tablerPass. result_auto icon_shape ltac:(solve_shape).
  - unfold processHeroicons, plainPass. result_auto icon_shape ltac:(solve_shape).
  - unfold processPhosphor. result_auto icon_shape ltac:(solve_shape).
  - unfold processBootstrap. result_auto icon_shape ltac:(solve_shape).
  - unfold processIconoir, plainPass. result_auto icon_shape ltac:(solve_shape).
  - unfold processRemixIcon. result_auto icon_shape ltac:(solve_shape).
  - unfold processFluent. result_auto icon_shape ltac:(solve_shape).
  - unfold processMdi. result_auto icon_shape ltac:(solve_shape).
  - unfold processIonicons. result_auto icon_shape ltac:(solve_shape).
  - unfold processIconPark. result_auto icon_shape ltac:(solve_shape).
Qed.

(** X11. In every run that ends, the style of every icon of the
    manifest is one of outline, filled, solid, bold and sharp, and the
    id of the icon starts with the id of its library and a slash. *)
Theorem icons_well_formed (now : string) (w : World) (out : Outputs)
  (log : list effect) :
  run_main now w = Normal (out, log) ->
  Forall icon_shape (icons (manifest_json out)).
Proof.
  intro H. destruct (run_main_outputs _ _ _ _ H) as (allIcons & log1 & Hrun & -> & _).
  cbn [buildOutputs manifest_json icons].
  exact (runAll_result w icon_shape (processors_shaped w) _ _ _ Hrun).
Qed.

Lemma icons_well_formed_witness :
  match run_main "2026-01-01T00:00:00.000Z" tabler_world with
  | Normal (out, log) =>
      Forall icon_shape (icons (manifest_json out))
      /\ map icon_type (icons (manifest_json out))
         = ["outline"; "outline"; "outline"; "filled"]
  | Throws _ => False
  end.
Proof.
  destruct (run_main "2026-01-01T00:00:00.000Z" tabler_world)
    as [[out log]|e] eqn:E.
  - split; [exact (icons_well_formed _ _ _ _ E)|].
    vm_compute in E. injection E as <- <-. reflexivity.
  - vm_compute in E. discriminate E.
Defined.

(** *** The copies of the files that keep their names *)

Lemma triple_ret {A : Type} (w : World) (P : list effect -> Prop) (a : A)
  (Q : A -> list effect -> Prop) :
  (forall log, P log -> Q a log) -> triple w P (ret a) Q.
Proof. intros H log a' log' HP [= <- <-]. auto. Qed.

Lemma triple_throw {A : Type} (w : World) (P : list effect -> Prop)
  (e : string) (Q : A -> list effect -> Prop) :
  triple w P (throw e) Q.
Proof. intros log a log' _ H. discriminate H. Qed.

Lemma triple_bind {A B : Type} (w : World) (P : list effect -> Prop)
  (m : Run A) (k : A -> Run B) (Q1 : A -> list effect -> Prop)
  (Q : B -> list effect -> Prop) :
  triple w P m Q1 -> (forall a, triple w (Q1 a) (k a) Q) ->
  triple w P (bind m k) Q.
Proof.
  intros Hm Hk log b log' HP H. unfold bind in H.
  destruct (m w log) as [[a log1]|e] eqn:E; [|discriminate].
  exact (Hk a _ _ _ (Hm _ _ _ HP E) H).
Qed.

Lemma triple_bind_pure {A B : Type} (w : World) (P : list effect -> Prop)
  (m : Run A) (k : A -> Run B) (F : A -> Prop)
  (Q : B -> list effect -> Prop) :
  pure w m F -> (forall a, F a -> triple w P (k a) Q) ->
  triple w P (bind m k) Q.
Proof.
  intros Hm Hk log b log' HP H. unfold bind in H.
  destruct (m w log) as [[a log1]|e] eqn:E; [|discriminate].
  destruct (Hm _ _ _ E) as [-> Ha]. exact (Hk a Ha _ _ _ HP H).
Qed.

(** After a write that has not thrown, the log ends with the file. *)
Lemma triple_bind_write {B : Type} (w : World) (P : list effect -> Prop)
  (p data : string) (k : unit -> Run B) (Q : B -> list effect -> Prop) :
  triple w (fun log => exists log1,
                 log = log1 ++ [ Wrote {| write_path := p; write_data := data |} ]
                 /\ P log1)
         (k tt) Q ->
  triple w P (bind (writeFileSync p data) k) Q.
Proof.
  intros Hk log b log' HP H. unfold bind, writeFileSync in H.
  destruct (write_error w log p); [discriminate|].
  apply (Hk _ _ _ (ex_intro _ log (conj eq_refl HP)) H).
Qed.

Lemma triple_bind_mkdir {B : Type} (w : World) (P : list effect -> Prop)
  (p : string) (k : unit -> Run B) (Q : B -> list effect -> Prop) :
  (forall log, P log -> P (log ++ [MadeDir p])) ->
  triple w P (k tt) Q ->
  triple w P (bind (mkdirSync p) k) Q.
Proof.
  intros Hmono Hk log b log' HP H. unfold bind, mkdirSync in H.
  destruct (is_file w log p); [discriminate|].
  destruct (existsb _ _); [discriminate|].
  exact (Hk _ _ _ (Hmono _ HP) H).
Qed.

Lemma triple_for_of {A S : Type} (w : World) (xs : list A)
  (body : A -> S -> Run S) (I : S -> list effect -> Prop) (s : S) :
  (forall x s, In x xs -> triple w (I s) (body x s) I) ->
  triple w (I s) (for_of xs body s) I.
Proof.
  revert s. induction xs as [|x xs IH]; intros s Hbody.
  - apply triple_ret. auto.
  - cbn [for_of]. apply (triple_bind w _ _ _ I).
    + apply Hbody. now left.
    + intro s'. apply IH. intros y t Hy. apply Hbody. now right.
Qed.

Lemma triple_try_catch {S : Type} (w : World) (P : list effect -> Prop)
  (body : Run S) (s : S) (Q : S -> list effect -> Prop) :
  triple w P body Q -> (forall log, P log -> Q s log) ->
  triple w P (try_catch body s) Q.
Proof.
  intros Hbody Hs log a log' HP H. unfold try_catch in H.
  destruct (body w log) as [[a0 log0]|e] eqn:E.
  - injection H as <- <-. exact (Hbody _ _ _ HP E).
  - injection H as <- <-. auto.
Qed.

(** What has been filed stays filed. *)
Lemma filed_later (w : World) (log more : list effect) (i : Icon) :
  filed w log i -> filed w (log ++ more) i.
Proof.
  intros H Hlib.
  destruct (H Hlib) as (src & sub & out & name & content & H1 & H2 & H3 & H4).
  exists src, sub, out, name, content. repeat split; try assumption.
  apply in_or_app. now left.
Qed.

Lemma all_filed_later (w : World) (acc icons : list Icon)
  (log more : list effect) :
  all_filed w acc icons log -> all_filed w acc icons (log ++ more).
Proof.
  unfold all_filed. intro H. eapply Forall_impl; [|exact H].
  intro i. apply filed_later.
Qed.

Lemma all_filed_snoc (w : World) (acc icons : list Icon) (log : list effect)
  (i : Icon) :
  all_filed w acc icons log -> filed w log i ->
  all_filed w acc (icons ++ [i]) log.
Proof.
  unfold all_filed. intros H Hi. rewrite app_assoc. now apply Forall_snoc.
Qed.

(** The icon added last: of a library that is not copied under file
    names, or filed by the write the log ends with. *)
Ltac solve_filed :=
  let Hlib := fresh "Hlib" in
  unfold filed; cbn [icon_library icon_id]; intro Hlib;
  first
    [ exfalso; unfold mirrored_libraries in Hlib; cbn [In] in Hlib;
      repeat (destruct Hlib as [Hlib|Hlib]; [discriminate Hlib|]);
      contradiction
    | fix_style;
      lazymatch goal with
      | Hplain : plain_names ?w,
        Hfs : fs ?w ?src = Some (Dir ?entries),
        Hread : fs ?w (path_join ?src ?file) = Some (File ?content)
        |- context [Wrote {| write_path := path_join ?out _;
                             write_data := cleanSvg ?content |}] =>
          let out' := eval vm_compute in out in
          let sub := eval vm_compute in (drop 12 out') in
          let Hfile := fresh "Hfile" in
          assert (Hfile : (replaceFirst ".svg" "" file ++ ".svg")%string = file);
          [ apply (plain_file w src entries file Hplain);
            [ unfold copied_dirs, mirrored_dirs; cbn [map fst]; solve_member
            | exact Hfs
            | first [ assumption
                    | match goal with
                      | Hin : In file (filter _ _) |- _ =>
                          exact (proj1 (proj1 (filter_In _ _ _) Hin))
                      end ] ]
          | exists src, sub, out', (replaceFirst ".svg" "" file), content;
            split; [unfold mirrored_dirs; solve_member|];
            split; [reflexivity|];
            split; [rewrite Hfile; exact Hread|];
            apply in_or_app; right; left; rewrite ?Hfile; reflexivity ]
      end ].

Ltac filed_leaf :=
  lazymatch goal with
  | |- forall log, all_filed _ _ ?s log -> all_filed _ _ ?s log =>
      let H := fresh in intros ? H; exact H
  | |- forall log, all_filed _ _ ?s log -> all_filed _ _ (?s ++ [_]) log =>
      let H := fresh in
      intros ? H; apply all_filed_snoc; [exact H | solve_filed]
  | |- forall log, (exists log1, log = log1 ++ [_] /\ all_filed _ _ ?s log1) ->
                   all_filed _ _ (?s ++ [_]) log =>
      let log1 := fresh "log1" in
      let H := fresh in
      intros ? (log1 & -> & H);
      apply all_filed_snoc; [exact (all_filed_later _ _ _ _ _ H) | solve_filed]
  end.

Ltac filed_step acc :=
  lazymatch goal with
  | |- triple _ _ (ret _) _ => apply triple_ret; filed_leaf
  | |- triple _ _ (throw _) _ => apply triple_throw
  | |- triple ?w ?P (bind ?m ?k) ?Q =>
      lazymatch m with
      | readdirSync ?p =>
          apply (triple_bind_pure w P m k _ Q (pure_readdirSync w p)); intros ? ?
      | readFileSync ?p =>
          apply (triple_bind_pure w P m k _ Q (pure_readFileSync w p)); intros ? ?
      | load ?f =>
          apply (triple_bind_pure w P m k _ Q (pure_load w f)); intros ? ?
      | writeFileSync ?p ?d => apply triple_bind_write
      | mkdirSync ?p =>
          apply triple_bind_mkdir; [intros ? ?; now apply all_filed_later|]
      | _ =>
          first [ apply (triple_bind w P m k (all_filed w acc) Q); [|intro]
                | apply (triple_bind_pure w P m k (fun _ => True) Q);
                  [pure_true | intros ? _] ]
      end
  | |- triple _ _ (for_of _ _ _) _ => apply triple_for_of; intros ? ? ?
  | |- triple _ _ (try_catch _ _) _ => apply triple_try_catch; [|filed_leaf]
  | |- triple _ _ (if ?b then _ else _) _ => destruct b eqn:?
  | |- triple _ _ (match ?x with _ => _ end) _ => destruct x eqn:?
  | |- triple _ _ ((match ?x with _ => _ end) _) _ => destruct x eqn:?
  | |- triple _ _ _ _ => progress cbv beta zeta
  end.

Ltac filed_auto acc := repeat filed_step acc.

Lemma processors_file (w : World) (acc : list Icon) (p : Run (list Icon)) :
  plain_names w -> In p processors ->
  triple w (all_filed w acc []) p (all_filed w acc).
Proof.
  intro Hplain. unfold processors. cbn [In].
  intros [<-|[<-|[<-|[<-|[<-|[<-|[<-|[<-|[<-|[<-|[<-|[]]]]]]]]]]]].
  - unfold processLucide. filed_auto acc.
  - unfold processTabler, tablerPass. filed_auto acc.
  - unfold processHeroicons, plainPass. filed_auto acc.
  - unfold processPhosphor. filed_auto acc.
  - unfold processBootstrap. filed_auto acc.
  - unfold processIconoir, plainPass. filed_auto acc.
  - unfold processRemixIcon. filed_auto acc.
  - unfold processFluent. filed_auto acc.
  - unfold processMdi. filed_auto acc.
  - unfold processIonicons. filed_auto acc.
  - unfold processIconPark. filed_auto acc.
Qed.

Lemma runAll_files (w : World) :
  plain_names w ->
  triple w (all_filed w [] []) (runAll processors) (all_filed w []).
Proof.
  intro Hplain. unfold runAll. apply triple_for_of.
  intros p icons Hin. apply (triple_bind w _ _ _ (all_filed w icons)).
  - intros log more log' HP Hrun.
    apply (processors_file w icons p Hplain Hin log more log'); [|exact Hrun].
    unfold all_filed in *. now rewrite app_nil_r.
  - intro more. apply triple_ret. intros log H. exact H.
Qed.

(** X12. When no SVG file of the libraries that are copied under their
    own file names (Lucide, Tabler, Heroicons, Bootstrap, Iconoir and
    Material Design Icons) has ".svg" inside its name, a run that ends
    has filed every icon of these libraries that is in the manifest: the
    id of the icon is a start from the table and the name of the icon,
    and the run has written the cleaned copy of the file <name>.svg of
    the source directory the table gives for that start to the file
    <name>.svg of its output directory, build/icons/<start>. *)
Theorem files_mirror_ids (now : string) (w : World) (out : Outputs)
  (log : list effect) :
  run_main now w = Normal (out, log) ->
  plain_names w ->
  Forall (filed w log) (icons (manifest_json out)).
Proof.
  intros H Hplain.
  destruct (run_main_outputs _ _ _ _ H) as (allIcons & log1 & Hrun & -> & ->).
  cbn [buildOutputs manifest_json icons].
  apply (all_filed_later w [] allIcons log1 json_writes).
  exact (runAll_files w Hplain [] _ _ (Forall_nil _) Hrun).
Qed.

Lemma files_mirror_ids_witness :
  plain_names tabler_world
  /\ match run_main "2026-01-01T00:00:00.000Z" tabler_world with
     | Normal (out, log) =>
         Forall (filed tabler_world log) (icons (manifest_json out))
         /\ map icon_id (icons (manifest_json out))
            = [ "tabler/outline/a-home"; "tabler/outline/sun";
                "tabler/outline/toString"; "tabler/filled/a-home" ]
         /\ In (Wrote {| write_path := "build/icons/tabler/filled/a-home.svg";
                         write_data := "<svg/>" |}) log
     | Throws _ => False
     end.
Proof.
  assert (Hplain : plain_names tabler_world).
  { intros dir entries file Hdir Hfs Hin Hsvg.
    unfold copied_dirs, mirrored_dirs in Hdir. cbn [map fst In] in Hdir.
    repeat (destruct Hdir as [<-|Hdir];
            [vm_compute in Hfs; try discriminate Hfs;
             injection Hfs as <-; cbn [In] in Hin;
             repeat (destruct Hin as [<-|Hin]; [reflexivity|]);
             contradiction |]).
    contradiction. }
  split; [exact Hplain|].
  destruct (run_main "2026-01-01T00:00:00.000Z" tabler_world)
    as [[out log]|e] eqn:E.
  - split; [exact (files_mirror_ids _ _ _ _ E Hplain)|].
    vm_compute in E. injection E as <- <-.
    split; [reflexivity|]. cbn [In]. auto 20.
  - vm_compute in E. discriminate E.
Defined.

(** ** The files the publisher finds *)

Lemma endsWith_prepend (a s p : string) :
  endsWith s p = true -> endsWith (a ++ s) p = true.
Proof.
  intro H. induction a as [|c a IH]; [exact H|].
  cbn [append endsWith]. now destruct (String.eqb (String c (a ++ s)) p).
Qed.

Lemma append_assoc (a b c : string) : ((a ++ b) ++ c = a ++ b ++ c)%string.
Proof. induction a as [|x a IH]; cbn [append]; [reflexivity | now rewrite IH]. Qed.

Lemma join_rel_named (rel entry : string) : entry <> "" -> join_rel rel entry <> "".
Proof.
  intro H. unfold join_rel. destruct (String.eqb_spec rel "") as [->|Hrel]; [exact H|].
  destruct rel; [congruence | discriminate].
Qed.

(** Below a directory [dir] that lies at [rel] under [base], every file
    found lies at its key under [base]. *)
Lemma findSvgsIn_paths (base : string) :
  forall entries dir rel s,
    named_forest entries = true ->
    dir = (if String.eqb rel "" then base else base ++ "/" ++ rel)%string ->
    In s (findSvgsIn dir rel entries) ->
    localPath s = (base ++ "/" ++ r2Key s)%string
    /\ endsWith (r2Key s) ".svg" = true.
Proof.
  fix IH 1. intros [|entry t rest] dir rel s Hnamed Hdir Hin; [destruct Hin|].
  cbn [named_forest] in Hnamed.
  apply andb_true_iff in Hnamed as [Hnamed Hrest].
  apply andb_true_iff in Hnamed as [Hentry Ht].
  apply negb_true_iff, String.eqb_neq in Hentry.
  assert (Hfull : (dir ++ "/" ++ entry = base ++ "/" ++ join_rel rel entry)%string).
  { subst dir. unfold join_rel.
    destruct (String.eqb rel ""); [reflexivity | now rewrite append_assoc]. }
  cbn [findSvgsIn] in Hin. apply in_app_or in Hin as [Hin|Hin].
  - destruct t as [|sub].
    + destruct (endsWith entry ".svg") eqn:Hsvg; [|destruct Hin].
      destruct Hin as [<-|[]]. cbn [localPath r2Key]. split; [exact Hfull|].
      unfold join_rel. destruct (String.eqb rel ""); [exact Hsvg|].
      apply endsWith_prepend. now apply (endsWith_prepend "/").
    + apply (IH sub (dir ++ "/" ++ entry)%string (join_rel rel entry) s Ht);
        [|exact Hin].
      rewrite Hfull.
      destruct (String.eqb_spec (join_rel rel entry) "") as [E|_]; [|reflexivity].
      now apply join_rel_named in E.
  - exact (IH rest dir rel s Hrest Hdir Hin).
Qed.



(** ** The pool at every moment of a run *)

Lemma in_flight_awaiting {Item : Type} (fn : Item -> bool) (ws : list (worker Item)) :
  total_of (in_flight fn true) ws + total_of (in_flight fn false) ws
  = List.length (filter is_awaiting ws).
Proof.
  unfold total_of. induction ws as [|w ws IH]; [reflexivity|].
  cbn [map filter].
  repeat change (list_sum (?a :: ?l)) with (a + list_sum l).
  destruct w as [|item|]; cbn [in_flight is_awaiting List.length]; try lia.
  destruct (fn item); cbn [Bool.eqb]; lia.
Qed.

Lemma filter_length_le {A : Type} (f : A -> bool) (l : list A) :
  List.length (filter f l) <= List.length l.
Proof.
  induction l as [|x l IH]; [reflexivity|].
  cbn [filter]. destruct (f x); cbn [List.length]; lia.
Qed.

(** X14. At every moment of a run of the pool, under every schedule:
    the items handed to [fn] so far are the first [index] items, each
    once and in list order; every one of them is counted as completed,
    counted as failed or still in flight; and no more uploads are in
    flight than the pool has workers. *)
Theorem pool_bounded {Item : Type} (items : list Item) (fn : Item -> bool)
  (concurrency : nat) (s : pool Item) :
  steps items fn (start concurrency) s ->
  calls s = seq 0 (index s)
  /\ index s <= List.length items
  /\ completed s + failed s + awaiting s = index s
  /\ awaiting s <= concurrency.
Proof.
  intro Hsteps.
  destruct (steps_inv items fn _ _ (start_inv items fn concurrency) Hsteps)
    as [Hcalls Hindex Hdone Hfail _].
  pose proof (steps_workers_length items fn _ _ Hsteps) as Hlen.
  cbn [start workers] in Hlen. rewrite repeat_length in Hlen.
  pose proof (in_flight_awaiting fn (workers s)) as Hfl.
  pose proof (succeeded_rejected fn (firstn (index s) items)) as Hsr.
  rewrite length_firstn in Hsr.
  pose proof (filter_length_le is_awaiting (workers s)).
  unfold awaiting. repeat split; [assumption | assumption | lia | lia].
Qed.

Lemma pool_bounded_witness :
  steps ten_items fails_4_and_7 (start 3)
    (run ten_items fails_4_and_7 [0; 1; 0] (start 3))
  /\ awaiting (run ten_items fails_4_and_7 [0; 1; 0] (start 3)) = 1
  /\ completed (run ten_items fails_4_and_7 [0; 1; 0] (start 3)) = 1
  /\ awaiting (run ten_items fails_4_and_7 [0; 1; 0] (start 3)) <= 3.
Proof.
  assert (H : steps ten_items fails_4_and_7 (start 3)
                (run ten_items fails_4_and_7 [0; 1; 0] (start 3))).
  { eapply steps_next; [eapply steps_next; [eapply steps_next; [apply steps_refl|]|]|];
      [exists 0 | exists 1 | exists 0]; reflexivity. }
  split; [exact H|]. split; [reflexivity|]. split; [reflexivity|].
  exact (proj2 (proj2 (proj2 (pool_bounded _ _ _ _ H)))).
Defined.

(** X15. A pool without workers uploads nothing: no worker can move,
    [fn] is never called, and the tally is zero on both counts, however
    many items are pending. *)
Theorem parallelMap_no_workers {Item : Type} (items : list Item)
  (fn : Item -> bool) :
  parallelMap items fn 0 = {| tally_completed := 0; tally_failed := 0 |}
  /\ forall s, steps items fn (start 0) s -> s = start 0 /\ calls s = [].
Proof.
  split.
  - unfold parallelMap, pool_run.
    destruct (2 * List.length items + 0); reflexivity.
  - intros s H. induction H as [|s1 s2 _ [-> _] [k Hk]]; [now split|].
    unfold step_worker in Hk. cbn [start workers repeat] in Hk.
    destruct k; discriminate Hk.
Qed.

(** What the pool of [parallelMap] has done when it has settled. *)
Lemma parallelMap_counts {Item : Type} (items : list Item) (fn : Item -> bool)
  (concurrency : nat) :
  1 <= concurrency ->
  calls (pool_run items fn concurrency) = seq 0 (List.length items)
  /\ parallelMap items fn concurrency
     = {| tally_completed := succeeded fn items; tally_failed := rejected fn items |}.
Proof.
  intro Hc. unfold parallelMap, pool_run.
  destruct (drain_settles items fn (2 * List.length items + concurrency)
              (start concurrency)) as [Hsteps Hset];
    [rewrite start_measure; lia|].
  destruct (settled_tally items fn _
              (steps_inv items fn _ _ (start_inv items fn concurrency) Hsteps))
    as (Hcalls & Hdone & Hfail); [|exact Hset|].
  - pose proof (steps_workers_length items fn _ _ Hsteps) as Hlen.
    cbn [start workers] in Hlen. rewrite repeat_length in Hlen.
    intro E. rewrite E in Hlen. cbn in Hlen. lia.
  - split; [exact Hcalls|]. unfold tally_of. now rewrite Hdone, Hfail.
Qed.

(** ** What the publisher uploads *)

Lemma r2_puts_app (a b : list upload) : r2_puts (a ++ b) = r2_puts a ++ r2_puts b.
Proof. unfold r2_puts. apply flat_map_app. Qed.

Lemma flat_map_agree {A B : Type} (f g : A -> list B) (l : list A) :
  (forall x, In x l -> f x = g x) -> flat_map f l = flat_map g l.
Proof.
  induction l as [|x l IH]; intro H; [reflexivity|].
  cbn [flat_map]. rewrite (H x (or_introl eq_refl)), IH; [reflexivity|].
  intros y Hy. apply H. now right.
Qed.

(** Calling on the indices 0, 1, ..., n-1 of a list is calling on its
    elements in order. *)
Lemma flat_map_indices {A B : Type} (f : A -> B) (l : list A) :
  flat_map (fun i => match nth_error l i with
                     | Some x => [f x]
                     | None => []
                     end) (seq 0 (List.length l))
  = map f l.
Proof.
  induction l as [|x l IH] using rev_ind; [reflexivity|].
  rewrite length_app, Nat.add_comm. cbn [List.length Nat.add].
  rewrite seq_S, flat_map_app, map_app. cbn [Nat.add flat_map map].
  rewrite nth_error_app2 by lia. rewrite Nat.sub_diag. cbn [nth_error app].
  f_equal. rewrite <- IH. apply flat_map_agree. intros i Hi.
  apply in_seq in Hi. now rewrite nth_error_app1 by lia.
Qed.

Lemma r2_puts_map (l : list SvgFile) :
  r2_puts (map (fun s => R2Put (R2_BUCKET ++ "/" ++ r2Key s) (localPath s)) l)
  = map put_of l.
Proof.
  unfold r2_puts. induction l as [|s l IH]; [reflexivity|].
  cbn [map flat_map app]. now rewrite IH.
Qed.

Lemma filter_true {A : Type} (l : list A) : filter (fun _ => true) l = l.
Proof. induction l as [|x l IH]; [reflexivity|]. cbn [filter]. now rewrite IH. Qed.

(** X16. When the SVG phase of the publisher runs on a build directory
    whose entries all have names, the pool is handed the SVG files found
    under the build directory, in the order [findSvgs] lists them, and
    with a library named after --lib those of them whose key starts with
    that library and a slash; the R2 uploads are one put for each of
    these files, in that order, under the bucket at its key and from the
    copy at build/icons/<key>; every key ends in ".svg"; and the tally
    counts the files whose upload succeeds and those whose upload
    fails. *)
Theorem upload_plan (args : list string) (site : Site) (ups : list upload)
  (tally : option Tally) :
  UploadIcons.main args site = Finished ups tally ->
  uploadSvgs args = true ->
  named_forest (build_dir site) = true ->
  let selected := filter (wanted args) (findSvgs BUILD_DIR (build_dir site)) in
  r2_puts ups = map put_of selected
  /\ tally = Some {| tally_completed :=
                       List.length (filter (upload_ok site) selected);
                     tally_failed :=
                       List.length (filter (fun s => negb (upload_ok site s))
                                      selected) |}
  /\ Forall (fun s =>
               localPath s = (BUILD_DIR ++ "/" ++ r2Key s)%string
               /\ endsWith (r2Key s) ".svg" = true)
            selected.
Proof.
  intros Hmain Hsvgs Hnamed selected. unfold UploadIcons.main in Hmain.
  destruct (manifest_exists site); [|discriminate Hmain].
  destruct (manifest_parses site); [|discriminate Hmain].
  cbn [negb] in Hmain. rewrite Hsvgs in Hmain. cbv zeta in Hmain.
  assert (Hsel : match libFilter args with
                 | Some lib =>
                     if String.eqb lib "" then findSvgs BUILD_DIR (build_dir site)
                     else filter (fun s => startsWith (r2Key s) (lib ++ "/"))
                            (findSvgs BUILD_DIR (build_dir site))
                 | None => findSvgs BUILD_DIR (build_dir site)
                 end = selected).
  { unfold selected, wanted. destruct (libFilter args) as [lib|].
    - destruct (String.eqb lib ""); cbn [orb]; [now rewrite filter_true | reflexivity].
    - now rewrite filter_true. }
  rewrite Hsel in Hmain.
  destruct (parallelMap_counts selected (upload_ok site) CONCURRENCY)
    as [Hcalls Htally]; [unfold CONCURRENCY; lia|].
  rewrite Hcalls, Htally in Hmain. injection Hmain as <- <-.
  split; [|split].
  - rewrite r2_puts_app.
    match goal with
    | |- context [flat_map ?f (seq 0 (List.length selected))] =>
        replace (flat_map f (seq 0 (List.length selected)))
          with (map (fun s => R2Put (R2_BUCKET ++ "/" ++ r2Key s) (localPath s))
                  selected)
          by (symmetry;
              exact (flat_map_indices
                       (fun s => R2Put (R2_BUCKET ++ "/" ++ r2Key s) (localPath s))
                       selected))
    end.
    rewrite r2_puts_map. destruct (uploadManifest args); reflexivity.
  - reflexivity.
  - apply Forall_forall. intros s Hs. unfold selected in Hs.
    apply filter_In in Hs as [Hin _].
    destruct (findSvgsIn_paths BUILD_DIR (build_dir site) BUILD_DIR "" s Hnamed
                eq_refl Hin) as [Hpath Hkey].
    split; assumption.
Qed.

Lemma upload_plan_witness :
  UploadIcons.main ["--svgs"; "--lib"; "tabler"] site_with_two_libraries
  = Finished
      [ R2Put "elemental-icons/tabler/home.svg" "build/icons/tabler/home.svg" ]
      (Some {| tally_completed := 1; tally_failed := 0 |})
  /\ uploadSvgs ["--svgs"; "--lib"; "tabler"] = true
  /\ named_forest (build_dir site_with_two_libraries) = true
  /\ map r2Key (findSvgs BUILD_DIR (build_dir site_with_two_libraries))
     = [ "lucide/sun.svg"; "tabler/home.svg" ]
  /\ [ ("elemental-icons/tabler/home.svg", "build/icons/tabler/home.svg") ]
     = map put_of (filter (wanted ["--svgs"; "--lib"; "tabler"])
                     (findSvgs BUILD_DIR (build_dir site_with_two_libraries))).
Proof.
  split; [reflexivity|]. split; [reflexivity|]. split; [reflexivity|].
  split; [reflexivity|].
  exact (proj1 (upload_plan ["--svgs"; "--lib"; "tabler"] site_with_two_libraries
                  [ R2Put "elemental-icons/tabler/home.svg"
                      "build/icons/tabler/home.svg" ]
                  (Some {| tally_completed := 1; tally_failed := 0 |})
                  eq_refl eq_refl eq_refl)).
Defined.

(** ** From PascalCase to kebab-case *)

Lemma lower_char_not_upper (c : ascii) : is_upper (lower_char c) = false.
Proof. destruct c as [[] [] [] [] [] [] [] []]; vm_compute; reflexivity. Qed.

Lemma lower_char_idem (c : ascii) : lower_char (lower_char c) = lower_char c.
Proof. destruct c as [[] [] [] [] [] [] [] []]; vm_compute; reflexivity. Qed.

Lemma lower_char_hyphen (c : ascii) :
  Ascii.eqb (lower_char c) "-" = Ascii.eqb c "-".
Proof. destruct c as [[] [] [] [] [] [] [] []]; vm_compute; reflexivity. Qed.

Lemma toLowerCase_no_upper (s : string) : has_upper (toLowerCase s) = false.
Proof.
  induction s as [|c s IH]; [reflexivity|].
  cbn [toLowerCase has_upper]. now rewrite lower_char_not_upper, IH.
Qed.

Lemma toLowerCase_idem (s : string) : toLowerCase (toLowerCase s) = toLowerCase s.
Proof.
  induction s as [|c s IH]; [reflexivity|].
  cbn [toLowerCase]. now rewrite lower_char_idem, IH.
Qed.

Lemma unhyphenated_lower (s : string) :
  unhyphenated (toLowerCase s) = toLowerCase (unhyphenated s).
Proof.
  induction s as [|c s IH]; [reflexivity|].
  cbn [toLowerCase unhyphenated]. rewrite lower_char_hyphen.
  destruct (Ascii.eqb c "-"); [exact IH | cbn [toLowerCase]; now rewrite IH].
Qed.

Lemma hyphenateLowerUpper_letters (n : nat) (s : string) :
  String.length s <= n ->
  unhyphenated (hyphenateLowerUpper s) = unhyphenated s.
Proof.
  revert s. induction n as [|n IH]; intros s Hlen.
  - destruct s; [reflexivity | cbn in Hlen; lia].
  - destruct s as [|a [|b s]]; [reflexivity | reflexivity |].
    cbn [String.length] in Hlen.
    change (hyphenateLowerUpper (String a (String b s)))
      with (if (is_lower a || is_digit a) && is_upper b
            then String a (String "-" (String b (hyphenateLowerUpper s)))
            else String a (hyphenateLowerUpper (String b s))).
    destruct ((is_lower a || is_digit a) && is_upper b).
    + cbn [unhyphenated]. change (Ascii.eqb "-" "-") with true. cbn iota.
      rewrite (IH s) by lia. reflexivity.
    + cbn [unhyphenated]. rewrite (IH (String b s)) by (cbn [String.length]; lia).
      reflexivity.
Qed.

Lemma hyphenateAcronym_letters (n : nat) (s : string) :
  String.length s <= n ->
  unhyphenated (hyphenateAcronym s) = unhyphenated s.
Proof.
  revert s. induction n as [|n IH]; intros s Hlen.
  - destruct s; [reflexivity | cbn in Hlen; lia].
  - destruct s as [|a [|b [|c s]]]; [reflexivity | reflexivity | reflexivity |].
    cbn [String.length] in Hlen.
    change (hyphenateAcronym (String a (String b (String c s))))
      with (if is_upper a && is_upper b && is_lower c
            then String a (String "-" (String b (String c (hyphenateAcronym s))))
            else String a (hyphenateAcronym (String b (String c s)))).
    destruct (is_upper a && is_upper b && is_lower c).
    + cbn [unhyphenated]. change (Ascii.eqb "-" "-") with true. cbn iota.
      rewrite (IH s) by lia. reflexivity.
    + cbn [unhyphenated].
      rewrite (IH (String b (String c s))) by (cbn [String.length]; lia).
      reflexivity.
Qed.

Lemma hyphenateLowerUpper_fixed (n : nat) (s : string) :
  String.length s <= n -> has_upper s = false -> hyphenateLowerUpper s = s.
Proof.
  revert s. induction n as [|n IH]; intros s Hlen Hup.
  - destruct s; [reflexivity | cbn in Hlen; lia].
  - destruct s as [|a [|b s]]; [reflexivity | reflexivity |].
    cbn [String.length] in Hlen.
    change (hyphenateLowerUpper (String a (String b s)))
      with (if (is_lower a || is_digit a) && is_upper b
            then String a (String "-" (String b (hyphenateLowerUpper s)))
            else String a (hyphenateLowerUpper (String b s))).
    cbn [has_upper] in Hup. apply orb_false_iff in Hup as [Ha Hup].
    pose proof Hup as Hbs. apply orb_false_iff in Hup as [Hb Hs].
    rewrite Hb, andb_false_r.
    rewrite (IH (String b s)); [reflexivity | cbn [String.length]; lia | exact Hbs].
Qed.

Lemma hyphenateAcronym_fixed (n : nat) (s : string) :
  String.length s <= n -> has_upper s = false -> hyphenateAcronym s = s.
Proof.
  revert s. induction n as [|n IH]; intros s Hlen Hup.
  - destruct s; [reflexivity | cbn in Hlen; lia].
  - destruct s as [|a [|b [|c s]]]; [reflexivity | reflexivity | reflexivity |].
    cbn [String.length] in Hlen.
    change (hyphenateAcronym (String a (String b (String c s))))
      with (if is_upper a && is_upper b && is_lower c
            then String a (String "-" (String b (String c (hyphenateAcronym s))))
            else String a (hyphenateAcronym (String b (String c s)))).
    pose proof Hup as Hall. cbn [has_upper] in Hup.
    apply orb_false_iff in Hup as [Ha Hup]. rewrite Ha. cbn [andb].
    rewrite (IH (String b (String c s))); [reflexivity | cbn [String.length]; lia |].
    cbn [has_upper] in *. now apply orb_false_iff in Hall as [_ Hall].
Qed.

Lemma kebab_lower (key : string) :
  has_upper key = false -> kebab key = toLowerCase key.
Proof.
  intro H. unfold kebab.
  rewrite (hyphenateLowerUpper_fixed _ key (le_n _) H).
  now rewrite (hyphenateAcronym_fixed _ key (le_n _) H).
Qed.

(** X17. The kebab-case form of an export key holds no capital letter
    A to Z; it differs from the key in the case of letters and in
    hyphens only; on a key without capitals it only lowers the case;
    and converting twice gives what converting once gives. *)
Theorem kebab_shape (key : string) :
  has_upper (kebab key) = false
  /\ unhyphenated (kebab key) = toLowerCase (unhyphenated key)
  /\ (has_upper key = false -> kebab key = toLowerCase key)
  /\ kebab (kebab key) = kebab key.
Proof.
  assert (Hup : has_upper (kebab key) = false) by apply toLowerCase_no_upper.
  split; [exact Hup|]. split; [|split].
  - unfold kebab. rewrite unhyphenated_lower.
    rewrite (hyphenateAcronym_letters _ _ (le_n _)).
    now rewrite (hyphenateLowerUpper_letters _ _ (le_n _)).
  - apply kebab_lower.
  - rewrite (kebab_lower _ Hup). unfold kebab. apply toLowerCase_idem.
Qed.

(** ** What the adapters leave out *)

Lemma ioniconsSplit_no_logo (rawName type name : string) :
  ioniconsSplit rawName = (type, name) ->
  startsWith rawName "logo-" = false -> startsWith name "logo-" = false.
Proof.
  unfold ioniconsSplit, startsWith. intros Hsplit Hraw.
  assert (Hpre : exists suffix, rawName = (name ++ suffix)%string).
  { destruct (endsWith rawName "-outline") eqn:E1;
      [|destruct (endsWith rawName "-sharp") eqn:E2]; injection Hsplit as _ <-.
    - exists "-outline". now apply stripSuffix_split.
    - exists "-sharp". now apply stripSuffix_split.
    - exists "". clear. induction rawName as [|c s IH]; cbn [append]; congruence. }
  destruct Hpre as [suffix ->].
  destruct (prefix "logo-" name) eqn:E; [|reflexivity].
  now rewrite (prefix_append _ _ suffix E) in Hraw.
Qed.

(** The table of entries by name never holds [__proto__] as a name of
    its own. *)
Lemma index_from_no_proto {E : Type} (key : E -> string) (entries : list E)
  (t : table E) :
  own_get (own_entries t) "__proto__" = None ->
  own_get (own_entries (fold_left (fun o e => table_set o (key e) e) entries t))
    "__proto__" = None.
Proof.
  revert t. induction entries as [|e entries IH]; intros t Ht; [exact Ht|].
  cbn [fold_left]. apply IH. unfold table_set.
  destruct (String.eqb_spec (key e) "__proto__") as [Heq|Hne];
    cbn [own_entries]; [exact Ht|].
  rewrite own_get_own_set. apply String.eqb_neq in Hne. now rewrite Hne.
Qed.

Lemma yields_get {E : Type} (property : E -> string -> option bool)
  (t : table E) (n : string) (e : E) :
  yields t n e -> table_get property t n = Entry e.
Proof.
  intros [Hproto H]. unfold table_get.
  destruct (String.eqb_spec n "__proto__") as [->|Hne].
  - now rewrite Hproto, H.
  - now rewrite H.
Qed.

Lemma yields_set_other {E : Type} (t : table E) (n k : string) (e e' : E) :
  k <> n -> yields t n e -> yields (table_set t k e') n e.
Proof.
  intros Hne [Hproto H]. unfold table_set, yields.
  destruct (String.eqb_spec k "__proto__") as [->|Hk]; cbn [own_entries prototype].
  - split; [exact Hproto|].
    destruct (String.eqb_spec n "__proto__") as [->|_]; [congruence | exact H].
  - rewrite !own_get_own_set.
    apply String.eqb_neq in Hk. rewrite Hk. split; [exact Hproto|].
    destruct (String.eqb n "__proto__"); [exact H|].
    apply String.eqb_neq in Hne. now rewrite Hne.
Qed.

Lemma yields_set {E : Type} (t : table E) (n : string) (e : E) :
  own_get (own_entries t) "__proto__" = None -> yields (table_set t n e) n e.
Proof.
  intro Hproto. unfold table_set, yields.
  destruct (String.eqb_spec n "__proto__") as [->|Hne]; cbn [own_entries prototype].
  - now split.
  - rewrite !own_get_own_set, String.eqb_refl.
    apply String.eqb_neq in Hne. now rewrite Hne.
Qed.

(** The lookup by name finds the last entry of the metadata that
    carries the name. *)
Lemma last_named_get (property : MdiEntry -> string -> option bool)
  (meta : list MdiEntry) (name : string) (entry : MdiEntry) :
  last_named meta name entry ->
  table_get property (index_by mdi_name meta) name = Entry entry.
Proof.
  intros (before & after & -> & Hname & Hafter).
  apply yields_get. unfold index_by. rewrite fold_left_app. cbn [fold_left].
  set (t := fold_left _ before empty_table).
  assert (Ht : own_get (own_entries t) "__proto__" = None)
    by (apply index_from_no_proto; reflexivity).
  rewrite Hname. pose proof (yields_set t name entry Ht) as Hy.
  clearbody t. clear Ht. revert Hy. generalize (table_set t name entry).
  induction Hafter as [|e after He _ IH]; intros t' Hy; [exact Hy|].
  cbn [fold_left]. apply IH. now apply yields_set_other.
Qed.

Ltac solve_guarded :=
  unfold guarded; cbn [icon_library icon_id icon_type icon_tags];
  (split; [|split]);
  try (let H := fresh in intro H; discriminate H);
  intros _; eexists; (split; [reflexivity|]);
  first
    [ let H := fresh in
      intro H; apply filter_In in H as [_ H];
      rewrite String.eqb_refl in H; discriminate H
    | match goal with
      | Hs : ioniconsSplit ?r = (_, ?n), Hl : startsWith ?r "logo-" = false |- _ =>
          exact (ioniconsSplit_no_logo r _ n Hs Hl)
      end
    | let meta := fresh "meta" in
      let entry := fresh "entry" in
      let Hm := fresh "Hm" in
      let Hl := fresh "Hl" in
      match goal with
      | Hmeta : mdi_meta_json _ = Some _, Hget : table_get _ _ _ = _ |- _ =>
          intros meta entry Hm Hl;
          rewrite Hmeta in Hm; injection Hm as <-;
          apply (last_named_get mdi_property) in Hl;
          rewrite Hget in Hl;
          first [ discriminate Hl | injection Hl as <-; assumption ]
      end ].

Lemma processors_guarded (w : World) (p : Run (list Icon)) :
  In p processors -> result w p (Forall (guarded w)).
Proof.
  unfold processors. cbn [In].
  intros [<-|[<-|[<-|[<-|[<-|[<-|[<-|[<-|[<-|[<-|[<-|[]]]]]]]]]]]].
  - unfold processLucide. result_auto (guarded w) ltac:(solve_guarded).
  - unfold processTabler, tablerPass. result_auto (guarded w) ltac:(solve_guarded).
  - unfold processHeroicons, plainPass. result_auto (guarded w) ltac:(solve_guarded).
  - unfold processPhosphor. result_auto (guarded w) ltac:(solve_guarded).
  - unfold processBootstrap. result_auto (guarded w) ltac:(solve_guarded).
  - unfold processIconoir, plainPass. result_auto (guarded w) ltac:(solve_guarded).
  - unfold processRemixIcon. result_auto (guarded w) ltac:(solve_guarded).
  - unfold processFluent. result_auto (guarded w) ltac:(solve_guarded).
  - unfold processMdi. result_auto (guarded w) ltac:(solve_guarded).
  - unfold processIonicons. result_auto (guarded w) ltac:(solve_guarded).
  - unfold processIconPark. result_auto (guarded w) ltac:(solve_guarded).
Qed.

(** X18. No run puts into the manifest a brand logo of Ionicons (an
    icon whose name in the id starts with "logo-"), an icon of Material
    Design Icons whose entry in the metadata, the last one under its
    name, is marked as deprecated, or a Phosphor icon that still carries
    the tag "*new*". *)
Theorem guards_hold (now : string) (w : World) (out : Outputs)
  (log : list effect) :
  run_main now w = Normal (out, log) ->
  Forall (guarded w) (icons (manifest_json out)).
Proof.
  intro H. destruct (run_main_outputs _ _ _ _ H) as (allIcons & log1 & Hrun & -> & _).
  cbn [buildOutputs manifest_json icons].
  exact (runAll_result w (guarded w) (processors_guarded w) _ _ _ Hrun).
Qed.

Lemma guards_hold_witness :
  match run_main "2026-01-01T00:00:00.000Z" ionicons_world with
  | Normal (out, _) =>
      Forall (guarded ionicons_world) (icons (manifest_json out))
      /\ map icon_id (icons (manifest_json out)) = ["ionicons/outline/star"]
  | Throws _ => False
  end.
Proof.
  destruct (run_main "2026-01-01T00:00:00.000Z" ionicons_world)
    as [[out log]|e] eqn:E.
  - split; [exact (guards_hold _ _ _ _ E)|].
    vm_compute in E. injection E as <- <-. reflexivity.
  - vm_compute in E. discriminate E.
Defined.

(** ** The order of the manifest *)

Lemma for_of_parts (w : World) (ps : list (Run (list Icon))) :
  forall s log allIcons log',
    for_of ps (fun p icons => more <- p ;; ret (icons ++ more)) s w log
    = Normal (allIcons, log') ->
    exists parts,
      allIcons = s ++ List.concat parts
      /\ Forall2 (fun p part => exists l1 l2, p w l1 = Normal (part, l2)) ps parts.
Proof.
  induction ps as [|p ps IH]; intros s log allIcons log' H.
  - injection H as <- <-. exists []. split; [now rewrite app_nil_r | constructor].
  - cbn [for_of] in H. unfold bind at 1 2 in H.
    destruct (p w log) as [[more log1]|e] eqn:E; [|discriminate].
    unfold ret at 1 in H.
    destruct (IH _ _ _ _ H) as (parts & -> & HF).
    exists (more :: parts). split; [cbn [List.concat]; now rewrite app_assoc|].
    constructor; [eauto | assumption].
Qed.

Lemma processors_by_library (w : World) :
  Forall2 (fun id p => result w p (Forall (fun i => icon_library i = id)))
          library_ids processors.
Proof.
  unfold library_ids, libraryEntries, processors. cbn [map lib_id].
  repeat constructor.
  - unfold processLucide.
    result_auto (fun i : Icon => icon_library i = "lucide") ltac:(reflexivity).
  - unfold processTabler, tablerPass.
    result_auto (fun i : Icon => icon_library i = "tabler") ltac:(reflexivity).
  - unfold processHeroicons, plainPass.
    result_auto (fun i : Icon => icon_library i = "heroicons") ltac:(reflexivity).
  - unfold processPhosphor.
    result_auto (fun i : Icon => icon_library i = "phosphor") ltac:(reflexivity).
  - unfold processBootstrap.
    result_auto (fun i : Icon => icon_library i = "bootstrap") ltac:(reflexivity).
  - unfold processIconoir, plainPass.
    result_auto (fun i : Icon => icon_library i = "iconoir") ltac:(reflexivity).
  - unfold processRemixIcon.
    result_auto (fun i : Icon => icon_library i = "remix") ltac:(reflexivity).
  - unfold processFluent.
    result_auto (fun i : Icon => icon_library i = "fluent") ltac:(reflexivity).
  - unfold processMdi.
    result_auto (fun i : Icon => icon_library i = "mdi") ltac:(reflexivity).
  - unfold processIonicons.
    result_auto (fun i : Icon => icon_library i = "ionicons") ltac:(reflexivity).
  - unfold processIconPark.
    result_auto (fun i : Icon => icon_library i = "iconpark") ltac:(reflexivity).
Qed.

Lemma Forall2_chain {A B C : Type} (P : A -> B -> Prop) (Q : B -> C -> Prop)
  (R : A -> C -> Prop) (la : list A) (lb : list B) (lc : list C) :
  (forall a b c, P a b -> Q b c -> R a c) ->
  Forall2 P la lb -> Forall2 Q lb lc -> Forall2 R la lc.
Proof.
  intros H HP. revert lc. induction HP as [|a b la lb Hab _ IH]; intros lc HQ.
  - inversion HQ. constructor.
  - inversion HQ as [|? c ? lc' Hbc HQ']; subst. constructor; eauto.
Qed.

(** X19. The icons of the manifest are grouped by library, and the
    groups follow the order of the manifest's libraries: the icon
    sequence is the concatenation of eleven blocks, the k-th block
    holding icons of the k-th library only. *)
Theorem manifest_grouped_by_library (now : string) (w : World) (out : Outputs)
  (log : list effect) :
  run_main now w = Normal (out, log) ->
  exists parts,
    icons (manifest_json out) = List.concat parts
    /\ Forall2 (fun l part => Forall (fun i => icon_library i = lib_id l) part)
         (libraries (manifest_json out)) parts.
Proof.
  intro H. destruct (run_main_outputs _ _ _ _ H) as (allIcons & log1 & Hrun & -> & _).
  cbn [buildOutputs manifest_json icons libraries].
  destruct (for_of_parts w processors [] [] allIcons log1 Hrun) as (parts & -> & HF).
  exists parts. split; [reflexivity|].
  assert (Hids : Forall2 (fun (l : LibraryEntry) id => lib_id l = id)
                   (libraryEntries (libraryStats (calculateStats (List.concat parts))))
                   library_ids).
  { unfold library_ids, libraryEntries. cbn [map lib_id]. repeat constructor. }
  apply (Forall2_chain _ _ _ _ _ _
           (fun l id part (Hl : lib_id l = id)
                (Hp : Forall (fun i => icon_library i = id) part) =>
              eq_ind_r (fun x => Forall (fun i => icon_library i = x) part) Hp Hl)
           Hids).
  apply (Forall2_chain _ _ _ _ _ _
           (fun id p part
                (Hp : result w p (Forall (fun i => icon_library i = id)))
                (Hr : exists l1 l2, p w l1 = Normal (part, l2)) =>
              match Hr with
              | ex_intro _ l1 (ex_intro _ l2 E) => Hp l1 part l2 E
              end)
           (processors_by_library w) HF).
Qed.

Lemma manifest_grouped_by_library_witness :
  match run_main "2026-01-01T00:00:00.000Z" tabler_world with
  | Normal (out, _) =>
      exists parts,
        icons (manifest_json out) = List.concat parts
        /\ Forall2 (fun l part => Forall (fun i => icon_library i = lib_id l) part)
             (libraries (manifest_json out)) parts
  | Throws _ => False
  end.
Proof.
  destruct (run_main "2026-01-01T00:00:00.000Z" tabler_world)
    as [[out log]|e] eqn:E.
  - exact (manifest_grouped_by_library _ _ _ _ E).
  - vm_compute in E. discriminate E.
Defined.

(** ** When an adapter fails *)

(** X20. An error thrown by an adapter ends the run: when the adapters
    before it have returned and it throws, [main] throws that error and
    builds no manifest. *)
Theorem adapter_failure_ends_run (now : string) (w : World) (l : Library)
  (before after : list Library) (collected : list Icon)
  (log : list effect) (e : string) :
  all_libraries = before ++ l :: after ->
  runAll (map processor before) w [] = Normal (collected, log) ->
  processor l w log = Throws e ->
  run_main now w = Throws e.
Proof.
  intros Hall Hbefore Hthrow.
  unfold run_main, ProcessIcons.main, bind.
  rewrite processors_all, Hall, map_app. unfold runAll in *.
  rewrite for_of_app, Hbefore. cbn [map for_of]. unfold bind.
  now rewrite Hthrow.
Qed.

Lemma adapter_failure_ends_run_witness :
  all_libraries = [Lucide; Tabler] ++ Heroicons
                    :: [Phosphor; Bootstrap; Iconoir; RemixIcon; Fluent; Mdi;
                        Ionicons; IconPark]
  /\ runAll (map processor [Lucide; Tabler]) world_heroicons_outline_only []
     = Normal ([], [])
  /\ processor Heroicons world_heroicons_outline_only [] = Throws "ENOENT"
  /\ run_main "2026-01-01T00:00:00.000Z" world_heroicons_outline_only
     = Throws "ENOENT".
Proof.
  split; [reflexivity|]. split; [reflexivity|]. split; [reflexivity|].
  apply (adapter_failure_ends_run _ world_heroicons_outline_only Heroicons
           [Lucide; Tabler]
           [Phosphor; Bootstrap; Iconoir; RemixIcon; Fluent; Mdi; Ionicons; IconPark]
           [] [] "ENOENT"); reflexivity.
Defined.

(** ** The library named on the command line *)

Lemma args_indexOf_Some (args : list string) (flag : string) (i : nat) :
  args_indexOf args flag = Some i ->
  exists pre post,
    args = pre ++ flag :: post /\ ~ In flag pre /\ List.length pre = i.
Proof.
  revert i. induction args as [|a args IH]; intro i; cbn [args_indexOf];
    [discriminate|].
  destruct (String.eqb_spec a flag) as [->|Hne].
  - intros [= <-]. exists [], args. repeat split. intros [].
  - destruct (args_indexOf args flag) as [j|]; [|discriminate].
    intros [= <-]. destruct (IH j eq_refl) as (pre & post & -> & Hnot & <-).
    exists (a :: pre), post. repeat split.
    intros [E|E]; [congruence | auto].
Qed.

Lemma args_indexOf_found (pre post : list string) (flag : string) :
  ~ In flag pre ->
  args_indexOf (pre ++ flag :: post) flag = Some (List.length pre).
Proof.
  induction pre as [|a pre IH]; intro Hnot; cbn [app args_indexOf].
  - now rewrite String.eqb_refl.
  - destruct (String.eqb_spec a flag) as [->|Hne]; [exfalso; apply Hnot; now left|].
    rewrite IH; [reflexivity|]. intro E. apply Hnot. now right.
Qed.

(** X21. The library filter is the argument that follows the first
    "--lib": it is set exactly when the arguments hold a "--lib" that is
    not the last argument, and then it is what stands right after the
    first one. *)
Theorem libFilter_first (args : list string) (lib : string) :
  libFilter args = Some lib <->
  exists pre post, args = pre ++ "--lib" :: lib :: post /\ ~ In "--lib" pre.
Proof.
  unfold libFilter. split.
  - destruct (args_indexOf args "--lib") as [i|] eqn:E; [|discriminate].
    apply args_indexOf_Some in E as (pre & post & -> & Hnot & <-).
    rewrite nth_error_app2 by lia.
    replace (List.length pre + 1 - List.length pre) with 1 by lia.
    destruct post as [|x post]; [discriminate|].
    intros [= ->]. now exists pre, post.
  - intros (pre & post & -> & Hnot).
    rewrite (args_indexOf_found pre (lib :: post) "--lib" Hnot).
    rewrite nth_error_app2 by lia.
    now replace (List.length pre + 1 - List.length pre) with 1 by lia.
Qed.

Lemma manifest_counts_witness :
  In {| entry_id := "arrows"; entry_label := "Arrows & Chevrons"; entry_count := 1 |}
     (categories (manifest_json (buildOutputs "t" three_icons)))
  /\ List.length (filter (in_category "arrows") three_icons) = 1.
Proof.
  assert (Hin : In {| entry_id := "arrows"; entry_label := "Arrows & Chevrons";
                      entry_count := 1 |}
                  (categories (manifest_json (buildOutputs "t" three_icons))))
    by (left; reflexivity).
  split; [exact Hin|].
  symmetry. exact (proj1 (manifest_counts "t" three_icons) _ Hin).
Defined.

Lemma kebab_shape_witness :
  has_upper "arrow-circle-up" = false
  /\ kebab "arrow-circle-up" = "arrow-circle-up"
  /\ kebab "ArrowCircleUp" = "arrow-circle-up"
  /\ kebab (kebab "HTMLParser") = kebab "HTMLParser".
Proof.
  split; [reflexivity|].
  split; [exact (proj1 (proj2 (proj2 (kebab_shape "arrow-circle-up"))) eq_refl)|].
  split; [reflexivity|].
  exact (proj2 (proj2 (proj2 (kebab_shape "HTMLParser")))).
Defined.

Lemma parallelMap_no_workers_witness :
  steps ten_items fails_4_and_7 (start 0) (start 0)
  /\ parallelMap ten_items fails_4_and_7 0
     = {| tally_completed := 0; tally_failed := 0 |}
  /\ calls (start (Item := nat) 0) = [].
Proof.
  assert (H : steps ten_items fails_4_and_7 (start 0) (start 0)) by apply steps_refl.
  split; [exact H|].
  split; [exact (proj1 (parallelMap_no_workers ten_items fails_4_and_7))|].
  exact (proj2 (proj2 (parallelMap_no_workers ten_items fails_4_and_7) _ H)).
Defined.

(** ** Reproducibility *)

(** *** Where the files are written *)

Lemma segments_nonempty (p : string) : segments p <> [].
Proof.
  destruct p as [|c p]; cbn [segments]; [discriminate|].
  destruct (Ascii.eqb c "/"); [discriminate|].
  destruct (segments p); discriminate.
Qed.

(** The last segment of a path that ends in ".svg" ends in ".svg". *)
Lemma segments_last (name : string) :
  exists front stem,
    segments (name ++ ".svg") = front ++ [(stem ++ ".svg")%string].
Proof.
  induction name as [|c name (front & stem & IH)].
  - exists [], "". reflexivity.
  - cbn [append segments]. rewrite IH. destruct (Ascii.eqb c "/").
    + exists ("" :: front), stem. reflexivity.
    + destruct front as [|seg front]; cbn [app].
      * exists [], (String c stem). reflexivity.
      * exists (String c seg :: front), stem. reflexivity.
Qed.

Lemma segments_join (a b : string) :
  segments (a ++ "/" ++ b) = segments a ++ segments b.
Proof.
  induction a as [|c a IH]; [reflexivity|].
  cbn [append segments]. change (a ++ String "/" b)%string with (a ++ "/" ++ b)%string.
  rewrite IH. destruct (Ascii.eqb c "/"); [reflexivity|].
  destruct (segments a) as [|seg rest] eqn:E; [now elim (segments_nonempty a)|].
  reflexivity.
Qed.

Lemma ordinary_svg (stem : string) : ordinary (stem ++ ".svg") = true.
Proof.
  assert (H : forall t, String.length t < 3 ->
                String.eqb (stem ++ ".svg") t = false).
  { intros t Ht. apply String.eqb_neq. intro E.
    apply (f_equal String.length) in E. rewrite length_append in E.
    cbn [String.length] in E. lia. }
  unfold ordinary. rewrite !H by (cbn; lia). reflexivity.
Qed.

Lemma resolve_last (front : list string) (seg : string) (above : list string) :
  ordinary seg = true ->
  resolve (front ++ [seg]) above = resolve front above ++ [seg].
Proof.
  intro Hseg. revert above. induction front as [|x front IH]; intro above.
  - cbn [app resolve]. unfold ordinary in Hseg.
    apply negb_true_iff, orb_false_iff in Hseg as [E1 E2].
    now rewrite E1, E2.
  - cbn [app resolve].
    destruct (String.eqb x "" || String.eqb x "."); [apply IH|].
    destruct (String.eqb x ".."); [|apply IH].
    destruct above as [|top below]; [apply IH|].
    destruct (String.eqb top ".."); apply IH.
Qed.

Lemma join_segments_cons (seg : string) (rest : list string) :
  rest <> [] -> join_segments (seg :: rest) = (seg ++ "/" ++ join_segments rest)%string.
Proof. destruct rest; [congruence | reflexivity]. Qed.

Lemma join_segments_last (front : list string) (seg : string) :
  exists pre, join_segments (front ++ [seg]) = (pre ++ seg)%string.
Proof.
  induction front as [|x front (pre & IH)]; [now exists ""|].
  cbn [app]. rewrite join_segments_cons by (now destruct front). rewrite IH.
  exists (x ++ "/" ++ pre)%string. now rewrite !append_assoc.
Qed.

(** A file whose name ends in ".svg" is written to a path that ends in
    ".svg", whatever the name and the directory are. *)
Lemma path_join_svg (dir file : string) :
  endsWith file ".svg" = true -> endsWith (path_join dir file) ".svg" = true.
Proof.
  intro H. apply endsWith_split in H as [name ->].
  unfold path_join, normalize.
  change (dir ++ "/" ++ name ++ ".svg")%string with (dir ++ "/" ++ (name ++ ".svg"))%string.
  rewrite segments_join.
  destruct (segments_last name) as (front & stem & ->).
  rewrite app_assoc, resolve_last by apply ordinary_svg.
  destruct (join_segments_last (resolve (segments dir ++ front) []) (stem ++ ".svg"))
    as [pre Hpre].
  destruct (resolve (segments dir ++ front) [] ++ [(stem ++ ".svg")%string]) eqn:E;
    [now destruct (resolve (segments dir ++ front) [])|].
  rewrite Hpre. apply endsWith_prepend, endsWith_append.
Qed.

Lemma tidy_made (log : list effect) (p : string) :
  tidy log -> tidy (log ++ [MadeDir p]).
Proof.
  unfold tidy. rewrite written_paths_app. cbn [written_paths flat_map].
  now rewrite !app_nil_r.
Qed.

Lemma tidy_wrote (log : list effect) (p data : string) :
  endsWith p ".svg" = true -> tidy log ->
  tidy (log ++ [Wrote {| write_path := p; write_data := data |}]).
Proof.
  intros Hp H. unfold tidy. rewrite written_paths_app.
  apply Forall_app. split; [exact H|].
  cbn [written_paths flat_map app write_path]. constructor; [now left | constructor].
Qed.

(** No file has been written under the name of a directory. *)
Lemma is_file_tidy (w : World) (log : list effect) (q : string) :
  tidy log -> endsWith q ".svg" = false -> endsWith q ".json" = false ->
  (forall content, fs w q <> Some (File content)) ->
  is_file w log q = false.
Proof.
  intros Htidy Hsvg Hjson Hfs. unfold is_file.
  destruct (fs w q) as [[content|entries]|]; [now elim (Hfs content) | reflexivity|].
  unfold mem. destruct (existsb (String.eqb q) (written_paths log)) eqn:E;
    [|reflexivity].
  apply existsb_exists in E as (p & Hin & Heq). apply String.eqb_eq in Heq. subst p.
  unfold tidy in Htidy. rewrite Forall_forall in Htidy.
  destruct (Htidy q Hin); congruence.
Qed.

(** In an unobstructed world the output directories of IconPark can be
    made. *)
Lemma mkdirSync_unobstructed (w : World) (log : list effect) (dir : string) :
  unobstructed w -> tidy log -> In dir iconpark_dirs ->
  mkdirSync dir w log = Normal (tt, log ++ [MadeDir dir]).
Proof.
  intros Hfree Htidy Hdir.
  assert (Hq : forall q, In q (ancestors dir) -> is_file w log q = false).
  { intros q Hq.
    apply is_file_tidy;
      [exact Htidy | | | intro content; exact (Hfree dir q content Hdir Hq)];
      unfold iconpark_dirs, iconpark_themes in Hdir; cbn [map snd In] in Hdir;
      destruct Hdir as [<-|[<-|[]]]; vm_compute in Hq;
      repeat (destruct Hq as [<-|Hq]; [reflexivity|]); contradiction. }
  assert (Hself : In dir (ancestors dir)).
  { unfold iconpark_dirs, iconpark_themes in Hdir; cbn [map snd In] in Hdir;
      destruct Hdir as [<-|[<-|[]]]; vm_compute; auto 6. }
  unfold mkdirSync. rewrite (Hq dir Hself).
  destruct (existsb (is_file w log) (ancestors dir)) eqn:E; [|reflexivity].
  apply existsb_exists in E as (q & Hin & Hfile). rewrite (Hq q Hin) in Hfile.
  discriminate.
Qed.

(** *** Two runs over the same sources *)

Section TwoRuns.

Variables w1 w2 : World.
Hypothesis sources : same_sources w1 w2.
Hypothesis free1 : unobstructed w1.
Hypothesis free2 : unobstructed w2.

Lemma agree_ret {A : Type} (a : A) (F : A -> Prop) :
  F a -> agree w1 w2 (ret a) F.
Proof. intros H la lb a1 a2 la' lb' Ha Hb [= <- <-] [= <- <-]. auto. Qed.

Lemma agree_throw {A : Type} (e : string) (F : A -> Prop) :
  agree w1 w2 (throw e) F.
Proof. intros la lb a1 a2 la' lb' _ _ H. discriminate H. Qed.

Lemma agree_lift {A : Type} (c : completion A) :
  agree w1 w2 (lift c) (fun _ => True).
Proof.
  destruct c as [a|e]; [now apply agree_ret | apply agree_throw].
Qed.

Lemma agree_bind {A B : Type} (m : Run A) (k : A -> Run B)
  (F : A -> Prop) (G : B -> Prop) :
  agree w1 w2 m F -> (forall a, F a -> agree w1 w2 (k a) G) ->
  agree w1 w2 (bind m k) G.
Proof.
  intros Hm Hk la lb b1 b2 la' lb' Ha Hb H1 H2. unfold bind in H1, H2.
  destruct (m w1 la) as [[a1 la1]|e1] eqn:E1; [|discriminate].
  destruct (m w2 lb) as [[a2 lb1]|e2] eqn:E2; [|discriminate].
  destruct (Hm _ _ _ _ _ _ Ha Hb E1 E2) as (<- & HF & Ha1 & Hb1).
  exact (Hk a1 HF _ _ _ _ _ _ Ha1 Hb1 H1 H2).
Qed.

Lemma agree_for_of {A S : Type} (xs : list A) (body : A -> S -> Run S) (s : S) :
  (forall x s, In x xs -> agree w1 w2 (body x s) (fun _ => True)) ->
  agree w1 w2 (for_of xs body s) (fun _ => True).
Proof.
  revert s. induction xs as [|x xs IH]; intros s Hbody.
  - now apply agree_ret.
  - cbn [for_of]. apply (agree_bind _ _ (fun _ => True)).
    + apply Hbody. now left.
    + intros s' _. apply IH. intros y t Hy. apply Hbody. now right.
Qed.

Lemma agree_filterM {A : Type} (p : A -> Run bool) (xs : list A) :
  (forall x, In x xs -> agree w1 w2 (p x) (fun _ => True)) ->
  agree w1 w2 (filterM p xs) (fun kept => incl kept xs).
Proof.
  induction xs as [|x xs IH]; intro Hp; [apply agree_ret; apply incl_refl|].
  cbn [filterM]. apply (agree_bind _ _ (fun _ => True));
    [apply Hp; now left|].
  intros keep _.
  apply (agree_bind _ _ (fun kept => incl kept xs));
    [apply IH; intros y Hy; apply Hp; now right|].
  intros rest Hrest. apply agree_ret. destruct keep.
  - intros y [<-|Hy]; [now left | right; now apply Hrest].
  - intros y Hy. right. now apply Hrest.
Qed.

Lemma agree_existsSync (p : string) :
  in_sources w1 p -> agree w1 w2 (existsSync p) (fun _ => True).
Proof.
  intros Hp la lb a b la' lb' Ha Hb H1 H2. unfold existsSync in H1, H2.
  rewrite <- (proj1 sources p Hp) in H2.
  injection H1 as <- <-. injection H2 as <- <-. auto.
Qed.

Lemma agree_readdirSync (p : string) :
  in_sources w1 p ->
  agree w1 w2 (readdirSync p) (fun entries => fs w1 p = Some (Dir entries)).
Proof.
  intros Hp la lb a b la' lb' Ha Hb H1 H2. unfold readdirSync in H1, H2.
  rewrite <- (proj1 sources p Hp) in H2.
  destruct (fs w1 p) as [[content|entries]|]; try discriminate.
  injection H1 as <- <-. injection H2 as <- <-. auto.
Qed.

Lemma agree_isDirectory (p : string) :
  in_sources w1 p -> agree w1 w2 (isDirectory p) (fun _ => True).
Proof.
  intros Hp la lb a b la' lb' Ha Hb H1 H2. unfold isDirectory in H1, H2.
  rewrite <- (proj1 sources p Hp) in H2.
  destruct (fs w1 p) as [[content|entries]|]; try discriminate;
    injection H1 as <- <-; injection H2 as <- <-; auto.
Qed.

Lemma agree_readFileSync (p : string) :
  in_sources w1 p -> agree w1 w2 (readFileSync p) (fun _ => True).
Proof.
  intros Hp la lb a b la' lb' Ha Hb H1 H2. unfold readFileSync in H1, H2.
  rewrite <- (proj1 sources p Hp) in H2.
  destruct (fs w1 p) as [[content|entries]|]; try discriminate.
  injection H1 as <- <-. injection H2 as <- <-. auto.
Qed.

Lemma agree_load {A : Type} (field : World -> option A) :
  field w1 = field w2 -> agree w1 w2 (load field) (fun _ => True).
Proof.
  intros Hf la lb a b la' lb' Ha Hb H1 H2. unfold load in H1, H2.
  rewrite <- Hf in H2. destruct (field w1); [|discriminate].
  injection H1 as <- <-. injection H2 as <- <-. auto.
Qed.

Lemma agree_mkdirSync (p : string) :
  agree w1 w2 (mkdirSync p) (fun _ => True).
Proof.
  intros la lb a b la' lb' Ha Hb H1 H2. unfold mkdirSync in H1, H2.
  destruct (is_file w1 la p); [discriminate|].
  destruct (existsb (is_file w1 la) _); [discriminate|].
  destruct (is_file w2 lb p); [discriminate|].
  destruct (existsb (is_file w2 lb) _); [discriminate|].
  injection H1 as <- <-. injection H2 as <- <-.
  repeat split; now apply tidy_made.
Qed.

Lemma agree_writeFileSync (p data : string) :
  endsWith p ".svg" = true ->
  agree w1 w2 (writeFileSync p data) (fun _ => True).
Proof.
  intros Hp la lb a b la' lb' Ha Hb H1 H2. unfold writeFileSync in H1, H2.
  destruct (write_error w1 la p); [discriminate|].
  destruct (write_error w2 lb p); [discriminate|].
  injection H1 as <- <-. injection H2 as <- <-.
  repeat split; now apply tidy_wrote.
Qed.

(** What is tried in both runs either fails in both, and then the loop
    goes on with the same icons, or gives the same icons in both. *)
Lemma agree_try_catch {S : Type} (body : Run S) (s : S) :
  sync w1 w2 body -> agree w1 w2 (try_catch body s) (fun _ => True).
Proof.
  intros Hbody la lb a b la' lb' Ha Hb H1 H2. unfold try_catch in H1, H2.
  specialize (Hbody la lb Ha Hb).
  destruct (body w1 la) as [[a1 la1]|e1], (body w2 lb) as [[a2 lb1]|e2];
    try contradiction.
  - destruct Hbody as (<- & Hla & Hlb).
    injection H1 as <- <-. injection H2 as <- <-. auto.
  - injection H1 as <- <-. injection H2 as <- <-. auto.
Qed.

Lemma sync_ret {A : Type} (a : A) : sync w1 w2 (ret a).
Proof. intros la lb Ha Hb. cbn. auto. Qed.

Lemma sync_throw {A : Type} (e : string) : sync w1 w2 (throw (A := A) e).
Proof. intros la lb Ha Hb. exact I. Qed.

(** The directory of IconPark is made in both runs, and the icon is
    kept in both, whether its file can be written or not. *)
Lemma sync_iconpark_write (dir file data : string) (icons : list Icon) :
  In dir iconpark_dirs ->
  sync w1 w2
    (mkdirSync dir ;;;
     try_catch (writeFileSync (path_join dir (file ++ ".svg")) data ;;; ret icons)
               icons).
Proof.
  intros Hdir la lb Ha Hb. unfold bind at 1 3.
  rewrite (mkdirSync_unobstructed w1 la dir free1 Ha Hdir).
  rewrite (mkdirSync_unobstructed w2 lb dir free2 Hb Hdir).
  pose proof (path_join_svg dir (file ++ ".svg") (endsWith_append ".svg" file)) as Hp.
  unfold try_catch, bind, writeFileSync, ret.
  destruct (write_error w1 _ _), (write_error w2 _ _);
    repeat split;
    repeat first [ apply tidy_wrote; [exact Hp|] | apply tidy_made ]; assumption.
Qed.

End TwoRuns.

Lemma In_svg_files (file : string) (entries : list string) :
  In file (svgFilesOf entries) -> In file entries /\ endsWith file ".svg" = true.
Proof. unfold svgFilesOf. intro H. now apply filter_In in H. Qed.

(** What the run knows of the entry at hand: it is an entry of the
    directory listed, and if it was selected as an SVG file, its name
    ends in ".svg". *)
Ltac entry_facts :=
  repeat match goal with
    | H : In _ (sort _) |- _ => apply (proj1 (In_sort _ _)) in H
    | H : In _ (svgFilesOf _) |- _ =>
        let E := fresh "Hsvg" in apply In_svg_files in H as [H E]
    | H : In _ (filter _ _) |- _ =>
        let E := fresh "Hkeep" in apply filter_In in H as [H E]
    | Hincl : incl ?l _, H : In _ ?l |- _ => apply Hincl in H
    end.

Ltac solve_source :=
  lazymatch goal with
  | |- in_sources _ (path_join ?d ?e) =>
      first
        [ solve [apply source_root; unfold source_roots; solve_member]
        | lazymatch goal with
          | Hfs : fs _ d = Some (Dir ?entries) |- _ =>
              apply (source_entry _ d entries e);
              [solve_source | exact Hfs | assumption]
          end ]
  | |- in_sources _ _ => apply source_root; unfold source_roots; solve_member
  end.

Ltac solve_svg_path :=
  apply path_join_svg; first [assumption | apply endsWith_append].

Ltac agree_step sources free1 free2 :=
  lazymatch goal with
  | |- agree _ _ (ret _) _ => apply agree_ret; exact I
  | |- agree _ _ (throw _) _ => apply agree_throw
  | |- agree _ _ (lift _) _ => apply agree_lift
  | |- agree _ _ (existsSync _) _ =>
      apply (agree_existsSync _ _ sources); fix_style; cbn [style_dir]; solve_source
  | |- agree _ _ (isDirectory _) _ =>
      apply (agree_isDirectory _ _ sources);
      fix_style; cbn [style_dir] in *; entry_facts; solve_source
  | |- agree _ _ (readFileSync _) _ =>
      apply (agree_readFileSync _ _ sources);
      fix_style; cbn [style_dir] in *; entry_facts; solve_source
  | |- agree _ _ (mkdirSync _) _ => apply agree_mkdirSync
  | |- agree _ _ (writeFileSync _ _) _ =>
      apply agree_writeFileSync; entry_facts; solve_svg_path
  | |- agree _ _ (load _) _ => apply agree_load; apply sources
  | |- agree ?w1 ?w2 (bind (readdirSync ?p) ?k) ?G =>
      apply (agree_bind w1 w2 _ k _ G (agree_readdirSync w1 w2 sources p
               ltac:(fix_style; cbn [style_dir] in *; entry_facts; solve_source)));
      intros ? ?
  | |- agree ?w1 ?w2 (bind (filterM ?p ?xs) ?k) ?G =>
      apply (agree_bind w1 w2 _ k (fun kept => incl kept xs) G);
      [apply agree_filterM; intros ? ? | intros ? ?]
  | |- agree ?w1 ?w2 (bind ?m ?k) ?G =>
      apply (agree_bind w1 w2 m k (fun _ => True) G); [|intros ? _]
  | |- agree _ _ (for_of _ _ _) _ => apply agree_for_of; intros ? ? ?
  | |- agree _ _ (try_catch _ _) _ =>
      apply agree_try_catch; fix_style;
      repeat lazymatch goal with
        | |- sync _ _ (ret _) => apply sync_ret
        | |- sync _ _ (throw _) => apply sync_throw
        | |- sync _ _ (bind (mkdirSync _) _) =>
            apply (sync_iconpark_write _ _ free1 free2);
            unfold iconpark_dirs, iconpark_themes; cbn [map snd In]; solve_member
        | |- sync _ _ (if ?b then _ else _) => destruct b
        | |- sync _ _ (match ?x with _ => _ end) => destruct x
        | |- sync _ _ _ => progress cbv beta zeta
        end
  | |- agree _ _ (if ?b then _ else _) _ => destruct b eqn:?
  | |- agree _ _ (match ?x with _ => _ end) _ => destruct x eqn:?
  | |- agree _ _ ((match ?x with _ => _ end) _) _ => destruct x eqn:?
  | |- agree _ _ _ _ => progress cbv beta zeta
  end.

Ltac agree_auto sources free1 free2 := repeat agree_step sources free1 free2.

(** Each adapter returns the same icons in both runs. *)
Lemma processors_agree (w1 w2 : World) (p : Run (list Icon)) :
  same_sources w1 w2 -> unobstructed w1 -> unobstructed w2 ->
  In p processors -> agree w1 w2 p (fun _ => True).
Proof.
  intros sources free1 free2. unfold processors. cbn [In].
  intros [<-|[<-|[<-|[<-|[<-|[<-|[<-|[<-|[<-|[<-|[<-|[]]]]]]]]]]]].
  - unfold processLucide. agree_auto sources free1 free2.
  - unfold processTabler, tablerPass. agree_auto sources free1 free2.
  - unfold processHeroicons, plainPass. agree_auto sources free1 free2.
  - unfold processPhosphor. agree_auto sources free1 free2.
  - unfold processBootstrap. agree_auto sources free1 free2.
  - unfold processIconoir, plainPass. agree_auto sources free1 free2.
  - unfold processRemixIcon. agree_auto sources free1 free2.
  - unfold processFluent. agree_auto sources free1 free2.
  - unfold processMdi. agree_auto sources free1 free2.
  - unfold processIonicons. agree_auto sources free1 free2.
  - unfold processIconPark. agree_auto sources free1 free2.
Qed.

Lemma runAll_agree (w1 w2 : World) :
  same_sources w1 w2 -> unobstructed w1 -> unobstructed w2 ->
  agree w1 w2 (runAll processors) (fun _ => True).
Proof.
  intros sources free1 free2. unfold runAll. apply agree_for_of.
  intros p icons Hin. apply (agree_bind w1 w2 p _ (fun _ => True));
    [now apply processors_agree|].
  intros more _. now apply agree_ret.
Qed.

(** The sources of a world lie within a list of paths that holds the
    roots and, with every directory, its entries. *)
Lemma in_sources_listed (w : World) (paths : list string) :
  incl source_roots paths ->
  (forall dir entries entry,
      In dir paths -> fs w dir = Some (Dir entries) -> In entry entries ->
      In (path_join dir entry) paths) ->
  forall p, in_sources w p -> In p paths.
Proof.
  intros Hroots Hclosed p H.
  induction H as [p Hp|dir entries entry _ IH Hfs Hin]; [now apply Hroots|].
  exact (Hclosed dir entries entry IH Hfs Hin).
Qed.

Ltac solve_unobstructed :=
  let dir := fresh "dir" in
  let p := fresh "p" in
  let content := fresh "content" in
  let Hdir := fresh "Hdir" in
  let Hp := fresh "Hp" in
  intros dir p content Hdir Hp;
  unfold iconpark_dirs, iconpark_themes in Hdir; cbn [map snd In] in Hdir;
  destruct Hdir as [<-|[<-|[]]]; vm_compute in Hp;
  repeat (destruct Hp as [<-|Hp]; [vm_compute; discriminate|]);
  contradiction.

(** C5 (counterexample).  Two runs over the same sources write
    different manifests when they are started at different times; and
    two runs over the same sources, started at the same time, write
    different documents when in one of them a file stands where the
    directory of IconPark is to be made: the failure to make the
    directory is caught with the failure to render, and the icons of
    IconPark are left out.  And of two runs over the same sources, with
    no such file in either, one ends and the other does not when a
    directory has the name of the manifest. *)
Lemma runs_differ :
  (exists out1 out2 log,
      run_main "2026-01-01T00:00:00.000Z" iconpark_world = Normal (out1, log)
      /\ run_main "2026-01-02T00:00:00.000Z" iconpark_world = Normal (out2, log)
      /\ manifest_json out1 <> manifest_json out2)
  /\ same_sources iconpark_world iconpark_world_obstructed
  /\ (exists out1 out2 log1 log2,
        run_main "2026-01-01T00:00:00.000Z" iconpark_world = Normal (out1, log1)
        /\ run_main "2026-01-01T00:00:00.000Z" iconpark_world_obstructed
           = Normal (out2, log2)
        /\ map icon_id (icons (manifest_json out1))
           = ["iconpark/outline/home"; "iconpark/filled/home"]
        /\ icons (manifest_json out2) = []
        /\ manifest_json out1 <> manifest_json out2
        /\ libraries_json out1 <> libraries_json out2
        /\ report_json out1 <> report_json out2)
  /\ (same_sources iconpark_world iconpark_world_blocked
      /\ unobstructed iconpark_world
      /\ unobstructed iconpark_world_blocked
      /\ (exists out log,
            run_main "2026-01-01T00:00:00.000Z" iconpark_world = Normal (out, log))
      /\ run_main "2026-01-01T00:00:00.000Z" iconpark_world_blocked
         = Throws "EISDIR").
Proof.
  assert (Hsame : forall w,
             fs w ICONPARK_META_FILE = fs iconpark_world ICONPARK_META_FILE ->
             iconpark_icons_json w = iconpark_icons_json iconpark_world ->
             iconpark_lib w = iconpark_lib iconpark_world ->
             lucide_tags_json w = None -> tabler_icons_json w = None ->
             phosphor_module w = None -> mdi_meta_json w = None ->
             (forall p, In p source_roots -> p <> ICONPARK_META_FILE ->
                        fs w p = None) ->
             same_sources iconpark_world w).
  { intros w H1 H2 H3 H4 H5 H6 H7 H8.
    split; [|repeat split; symmetry; assumption].
    intros p H. destruct H as [p Hp|dir entries entry _ Hfs _].
    - destruct (string_dec p ICONPARK_META_FILE) as [->|Hne];
        [now rewrite H1|].
      rewrite (H8 p Hp Hne).
      unfold source_roots in Hp. cbn [In] in Hp.
      repeat (destruct Hp as [<-|Hp]; [first [reflexivity | now elim Hne]|]).
      contradiction.
    - apply own_get_In in Hfs. cbn [In] in Hfs.
      destruct Hfs as [Hfs|[]]. discriminate Hfs. }
  split; [|split; [|split]].
  - do 3 eexists. split; [vm_compute; reflexivity|].
    split; [vm_compute; reflexivity|].
    intro H. apply (f_equal generated) in H. discriminate H.
  - apply Hsame; try reflexivity.
    intros p Hp Hne. unfold source_roots in Hp. cbn [In] in Hp.
    repeat (destruct Hp as [<-|Hp]; [first [reflexivity | now elim Hne]|]).
    contradiction.
  - do 4 eexists. split; [vm_compute; reflexivity|].
    split; [vm_compute; reflexivity|].
    split; [reflexivity|]. split; [reflexivity|].
    split; [|split]; intro H.
    + apply (f_equal (fun m => List.length (icons m))) in H. discriminate H.
    + apply (f_equal (fun l => map lib_iconCount l)) in H. discriminate H.
    + apply (f_equal totalIcons) in H. discriminate H.
  - split.
    { apply Hsame; try reflexivity.
      intros p Hp Hne. unfold source_roots in Hp. cbn [In] in Hp.
      repeat (destruct Hp as [<-|Hp]; [first [reflexivity | now elim Hne]|]).
      contradiction. }
    split; [solve_unobstructed|]. split; [solve_unobstructed|].
    split; [do 2 eexists; vm_compute; reflexivity | vm_compute; reflexivity].
Qed.

(** C5 (amended).  Two runs of the pipeline over identical source
    directories and metadata files that both end, and in each of which
    no file stands where an output directory of IconPark is to be made,
    produce identical libraries.json and report.json contents, and
    manifest.json contents that are identical except for the generated
    field, which holds the time of each run. *)
Theorem runs_agree_up_to_timestamp (w1 w2 : World) (now1 now2 : string)
  (out1 out2 : Outputs) (log1 log2 : list effect) :
  same_sources w1 w2 -> unobstructed w1 -> unobstructed w2 ->
  run_main now1 w1 = Normal (out1, log1) ->
  run_main now2 w2 = Normal (out2, log2) ->
  libraries_json out1 = libraries_json out2
  /\ report_json out1 = report_json out2
  /\ manifest_json out2 = at_time now2 (manifest_json out1).
Proof.
  intros sources free1 free2 H1 H2.
  destruct (run_main_outputs _ _ _ _ H1) as (icons1 & la & E1 & -> & _).
  destruct (run_main_outputs _ _ _ _ H2) as (icons2 & lb & E2 & -> & _).
  destruct (runAll_agree w1 w2 sources free1 free2 [] [] _ _ _ _
              (Forall_nil _) (Forall_nil _) E1 E2) as (<- & _).
  repeat split.
Qed.

Lemma runs_agree_up_to_timestamp_witness :
  same_sources remix_world remix_world_rebuilt
  /\ unobstructed remix_world
  /\ unobstructed remix_world_rebuilt
  /\ match run_main "2026-01-01T00:00:00.000Z" remix_world,
           run_main "2026-01-02T00:00:00.000Z" remix_world_rebuilt with
     | Normal (out1, _), Normal (out2, _) =>
         libraries_json out1 = libraries_json out2
         /\ report_json out1 = report_json out2
         /\ manifest_json out2
            = at_time "2026-01-02T00:00:00.000Z" (manifest_json out1)
     | _, _ => False
     end.
Proof.
  assert (Hsame : same_sources remix_world remix_world_rebuilt).
  { split; [|repeat split].
    intros p H.
    apply (in_sources_listed remix_world
             (source_roots ++
              [ path_join REMIX_ICONS_DIR "Arrows";
                path_join REMIX_ICONS_DIR "Others";
                path_join REMIX_ICONS_DIR "README.md";
                path_join (path_join REMIX_ICONS_DIR "Arrows") "arrow-up-fill.svg";
                path_join (path_join REMIX_ICONS_DIR "Arrows") "arrow-up-line.svg";
                path_join (path_join REMIX_ICONS_DIR "Others") "seedling.svg";
                path_join (path_join REMIX_ICONS_DIR "Others") "notes.txt" ])) in H.
    - unfold source_roots in H. cbn [app In] in H.
      repeat (destruct H as [<-|H]; [reflexivity|]). contradiction.
    - intros q Hq. apply in_or_app. now left.
    - intros dir entries entry Hdir Hfs Hin.
      unfold source_roots in Hdir. cbn [app In] in Hdir.
      repeat (destruct Hdir as [<-|Hdir];
              [vm_compute in Hfs; try discriminate Hfs;
               injection Hfs as <-; cbn [In] in Hin;
               repeat (destruct Hin as [<-|Hin]; [vm_compute; auto 30|]);
               contradiction|]).
      contradiction. }
  assert (Hfree1 : unobstructed remix_world) by solve_unobstructed.
  assert (Hfree2 : unobstructed remix_world_rebuilt) by solve_unobstructed.
  split; [exact Hsame|]. split; [exact Hfree1|]. split; [exact Hfree2|].
  destruct (run_main "2026-01-01T00:00:00.000Z" remix_world)
    as [[out1 log1]|e1] eqn:E1; [|vm_compute in E1; discriminate E1].
  destruct (run_main "2026-01-02T00:00:00.000Z" remix_world_rebuilt)
    as [[out2 log2]|e2] eqn:E2; [|vm_compute in E2; discriminate E2].
  exact (runs_agree_up_to_timestamp _ _ _ _ _ _ _ _ Hsame Hfree1 Hfree2 E1 E2).
Defined.
